(** * The boss agent: a shallow embedding of its coordination core

    The agent (package [agent]) sits between a container runtime, a
    cluster membership layer and a replicated key-value store.  Its
    handlers are sequences of calls to those collaborators with Go's
    [if err != nil { return nil, err }] discipline.  They are embedded
    here as computations in a state-and-error monad over a [World] that
    holds the collaborators' state, a table that says which kinds of
    collaborator call the environment fails (and with what error), and
    a trace of the calls that leave the process.  A container, a task or
    an image handle is the id or name it was loaded by. *)

From stdpp Require Import base strings list gmap pretty.
From Stdlib Require Import ZArith Lia Ascii.

Set Warnings "-register-all".

Open Scope string_scope.
Open Scope Z_scope.

(** ** Errors and results *)

Inductive error : Type :=
| ErrNoID                              (* agent.ErrNoID *)
| ErrNoRef                             (* agent.ErrNoRef *)
| ErrNoMaster                          (* "unable to find master in cluster" *)
| errServiceExistsOnTarget
| errMediaTypeNotFound
| ErrOldConfigFormat                   (* opts.ErrOldConfigFormat *)
| ErrAlreadyExists (id : string)       (* "container %s already exists" *)
| ErrNotFound                          (* errdefs.ErrNotFound *)
| ErrNil                               (* redis.ErrNil *)
| AddrError (why addr : string)        (* net.AddrError *)
| DeadlineExceeded                     (* context.DeadlineExceeded *)
| Wrap (e : error) (msg : string)      (* errors.Wrap *)
| ErrExternal (msg : string).          (* any other collaborator failure *)

Inductive result (A : Type) : Type :=
| Ok (a : A)
| Err (e : error).
Arguments Ok {A} a.
Arguments Err {A} e.

Definition is_ok {A} (r : result A) : bool :=
  match r with Ok _ => true | Err _ => false end.

(** ** Data of the collaborating packages *)

(** Modelled from the spec: the wire types and store keys of package
    [api/v1], which is not among the sources.  The fields are those of
    the container configuration and of the info record that the agent
    reads or fills; the root directory [v1.Root] is kept in the world. *)
Module v1.
Record Mount := {
  Type_ : string; Source : string; Destination : string; Options : list string }.
Record Service := { Port : Z; Labels : list string }.
Record Container := {
  ID : string; Image : string; Network : string;
  Mounts : list Mount; Services : gmap string Service; Readonly : bool }.
Record Snapshot := {
  snap_ID : string; Created : Z; Previous : string; snap_FsSize : Z }.
Record ContainerInfo := {
  info_ID : string; info_Image : string; Status : string; IP : string;
  Cpu : Z; MemoryUsage : Z; MemoryLimit : Z; PidUsage : Z; PidLimit : Z;
  FsSize : Z; Config : option Container; Snapshots : list Snapshot }.
Definition VolumeRootKey : string := "v1:volume-root".
Definition PlainRemotesKey : string := "v1:plain-remotes".
End v1.

(** gogo/protobuf [types.Any].  [Value] is a byte slice in Go; only
    what it decodes to matters to the agent, so the payload is kept in
    decoded form: a boss container configuration, a message of another
    registered type, or bytes that do not unmarshal.  [None] is the nil
    slice of the zero [Any]. *)
Module types.
Inductive payload :=
| PContainer (c : v1.Container)
| POther (typ : string)
| PCorrupt.
Record Any := { TypeUrl : string; Value : option payload }.
Definition zero : Any := {| TypeUrl := ""; Value := None |}.
End types.

(** containerd [containers.Container], the record the runtime stores.
    [Checkpoint] is where [opts.WithRestore] leaves the checkpoint that
    the task is to start from. *)
Module containers.
Record Container := {
  ID : string; Image : string; Labels : gmap string string;
  Snapshotter : string; SnapshotKey : string;
  Extensions : gmap string types.Any;
  Checkpoint : option nat }.
End containers.

(** image-spec descriptors and indexes (imported as [is] by the agent).
    A digest is the position of the blob in the content store; the byte
    size of a descriptor is not modelled. *)
Module ispec.
Record Platform := { OS : string; Architecture : string }.
Record Descriptor := {
  MediaType : string; Digest : nat; Platform_ : option Platform }.
Record Index := { SchemaVersion : Z; Manifests : list Descriptor }.
Definition MediaTypeImageLayer : string := "application/vnd.oci.image.layer.v1.tar".
Definition MediaTypeImageLayerGzip : string :=
  "application/vnd.oci.image.layer.v1.tar+gzip".
Definition MediaTypeImageIndex : string := "application/vnd.oci.image.index.v1+json".
End ispec.

Module images.
Definition MediaTypeContainerd1Checkpoint : string :=
  "application/vnd.containerd.container.criu.checkpoint.criu.tar".
Definition MediaTypeContainerd1CheckpointConfig : string :=
  "application/vnd.containerd.container.checkpoint.config.v1+proto".
End images.

(** element's view of a cluster member. *)
Module element.
Record PeerAgent := { Name : string; Addr : string; Labels : gmap string string }.
End element.

Module config.
(* the [agent] stanza of the system configuration, config/agent.go *)
Record Agent := { Peers : list string; Master : bool }.
(** Modelled from the spec: the system configuration that encloses the
    stanza; its declaration is not among the sources.  The agent reads
    the node id and the stanza. *)
Record Config := { ID : string; agent : Agent }.
End config.

(** ** The world the agent runs in *)

Inductive Signal := SIGTERM | SIGKILL.

Inductive Cleanup := WithSnapshotCleanup | WithRevisionCleanup.

(** Calls that leave the agent, in the order they are made. *)
Inductive Event : Type :=
| EvSlaveOf (host port : string)
| EvSubscribe
| EvLogError (what : string) (e : error)
| EvLogWarn (what : string) (e : error)
| EvPull (ref : string) (plainHTTP : bool)
| EvPush (ref : string) (plainHTTP : bool)
| EvFetch (ref : string) (plainHTTP : bool)
| EvNewSpec (id volumeRoot : string)
| EvStoreWrite (id : string)
| EvEnable (id : string)
| EvStart (id : string)
| EvStop (id : string)
| EvDisable (id : string)
| EvContainerDelete (id : string) (how : Cleanup)
| EvMaintenance (id name reason : string)
| EvDeregister (id name : string)
| EvNetworkRemove (id : string)
| EvPause (id : string)
| EvResume (id : string)
| EvKill (id : string) (sig : Signal)
| EvDiffCreate (snapshotKey ref mediaType : string)
| EvDiffApply (d : ispec.Descriptor) (snapshotKey : string)
| EvTaskCheckpoint (id : string) (exit : bool)
| EvFluxRollback (id : string)
| EvImageDelete (ref : string)
| EvRemoteRestore (to ref : string) (live : bool)
| EvRemoteClose (to : string)
| EvLeaseDone.

(** Collaborator calls that can fail for reasons outside the state kept
    in the world (I/O, transport, the runtime refusing). *)
Inductive Op : Type :=
| OpGetRegister | OpNewLocalStore | OpPeers | OpLocalNode
| OpDo (cmd : string)
| OpOpenFile (path : string) | OpWriteString (path : string)
| OpPull (ref : string) | OpPush (ref : string) | OpFetch (ref : string)
| OpGetImage (ref : string)
| OpContainers | OpLoadContainer (id : string) | OpNewContainer (id : string)
| OpNewSpec (id : string)
| OpInfo (id : string) | OpContainerUpdate (id : string)
| OpContainerDelete (id : string)
| OpUsage (key : string) | OpWalk | OpMounts (key : string)
| OpTask (id : string) | OpTaskStatus (id : string) | OpMetrics (id : string)
| OpWait (id : string) | OpPause (id : string) | OpResume (id : string)
| OpKill (id : string) (sig : Signal)
| OpStoreWrite (id : string)
| OpEnable (id : string) | OpStart (id : string)
| OpStop (id : string) | OpDisable (id : string)
| OpLease | OpMarshal | OpContentWrite (ref : string) | OpReadBlob (d : nat)
| OpDiffCreate (key : string) | OpDiffApply | OpTaskCheckpoint (id : string)
| OpImageCreate (name : string) | OpImageDelete (name : string)
| OpGetNetwork (name : string) | OpNetworkRemove (id : string)
| OpDeregister (id name : string) | OpMaintenance (id name : string)
| OpFluxRollback (id : string)
| OpRemoteDial (to : string) | OpRemoteGet (to id : string)
| OpRemoteRestore (to ref : string).

(** What the content store holds under a digest. *)
Inductive blob : Type :=
| BContainerInfo (c : containers.Container)   (* json.Marshal(info) *)
| BIndex (i : ispec.Index)                     (* json.Marshal(index) *)
| BLayer (snapshotKey : string)                (* a diff of that snapshot *)
| BOther.

(** What [os.Lstat] and [filepath.Walk] see below a path. *)
Inductive fnode : Type :=
| File (size : Z)                (* not a directory *)
| Dir (entries : list fnode)     (* a directory whose names can be read *)
| DirUnreadable (e : error)      (* a directory whose names cannot be read *)
| LstatError (e : error).        (* a name that cannot be lstat-ed *)

(** A bind-mount source as [getBindSizes] meets it: the result of
    [os.Open], of [Stat] on the opened file (directory flag and size),
    and the tree that a walk from the path finds. *)
Record bindSource := {
  bs_open : option error;
  bs_stat : result (bool * Z);
  bs_tree : fnode }.

Record snapshotInfo := {
  si_Name : string; si_Created : Z; si_Labels : gmap string string; si_Usage : Z }.

Record cgroupMetrics := {
  cg_cpu : Z; cg_mem_usage : Z; cg_mem_cache : Z; cg_mem_limit : Z;
  cg_pids : Z; cg_pids_limit : Z }.

Record task := { t_status : string; t_metrics : cgroupMetrics;
                 t_checkpoint : list ispec.Descriptor }.

(** Values held by the replicated key-value store. *)
Inductive kvval := KString (s : string) | KSet (members : list string).

(** The two ways the [select] at the end of [Update] can go. *)
Inductive WaitOutcome := TaskExited | ContextDone.

Record World := {
  (* the membership layer *)
  w_peers : list element.PeerAgent;
  w_me : element.PeerAgent;
  (* the local replica of the key-value store *)
  w_kv : gmap string kvval;
  (* the host: the boss root directory, the files the agent writes and
     the bind-mount sources it measures *)
  w_Root : string;
  w_files : gmap string string;
  w_binds : gmap string bindSource;
  (* the container runtime *)
  w_containers : gmap string containers.Container;
  w_tasks : gmap string task;
  w_snapshots : list snapshotInfo;
  w_images : gmap string ispec.Descriptor;
  w_content : list blob;
  (* the registry images are pushed to and fetched from *)
  w_registry : gmap string ispec.Descriptor;
  (* what the environment decides *)
  w_faults : Op -> option error;
  w_select : WaitOutcome;
  (* what has been done so far *)
  w_trace : list Event }.

Definition set_peers (v : list element.PeerAgent) (w : World) : World :=
  {| w_peers := v; w_me := w_me w; w_kv := w_kv w; w_Root := w_Root w;
     w_files := w_files w; w_binds := w_binds w;
     w_containers := w_containers w; w_tasks := w_tasks w;
     w_snapshots := w_snapshots w; w_images := w_images w;
     w_content := w_content w; w_registry := w_registry w;
     w_faults := w_faults w; w_select := w_select w; w_trace := w_trace w |}.

Definition set_files (v : gmap string string) (w : World) : World :=
  {| w_peers := w_peers w; w_me := w_me w; w_kv := w_kv w; w_Root := w_Root w;
     w_files := v; w_binds := w_binds w;
     w_containers := w_containers w; w_tasks := w_tasks w;
     w_snapshots := w_snapshots w; w_images := w_images w;
     w_content := w_content w; w_registry := w_registry w;
     w_faults := w_faults w; w_select := w_select w; w_trace := w_trace w |}.

Definition set_containers (v : gmap string containers.Container) (w : World) : World :=
  {| w_peers := w_peers w; w_me := w_me w; w_kv := w_kv w; w_Root := w_Root w;
     w_files := w_files w; w_binds := w_binds w;
     w_containers := v; w_tasks := w_tasks w;
     w_snapshots := w_snapshots w; w_images := w_images w;
     w_content := w_content w; w_registry := w_registry w;
     w_faults := w_faults w; w_select := w_select w; w_trace := w_trace w |}.

Definition set_images (v : gmap string ispec.Descriptor) (w : World) : World :=
  {| w_peers := w_peers w; w_me := w_me w; w_kv := w_kv w; w_Root := w_Root w;
     w_files := w_files w; w_binds := w_binds w;
     w_containers := w_containers w; w_tasks := w_tasks w;
     w_snapshots := w_snapshots w; w_images := v;
     w_content := w_content w; w_registry := w_registry w;
     w_faults := w_faults w; w_select := w_select w; w_trace := w_trace w |}.

Definition set_content (v : list blob) (w : World) : World :=
  {| w_peers := w_peers w; w_me := w_me w; w_kv := w_kv w; w_Root := w_Root w;
     w_files := w_files w; w_binds := w_binds w;
     w_containers := w_containers w; w_tasks := w_tasks w;
     w_snapshots := w_snapshots w; w_images := w_images w;
     w_content := v; w_registry := w_registry w;
     w_faults := w_faults w; w_select := w_select w; w_trace := w_trace w |}.

Definition set_registry (v : gmap string ispec.Descriptor) (w : World) : World :=
  {| w_peers := w_peers w; w_me := w_me w; w_kv := w_kv w; w_Root := w_Root w;
     w_files := w_files w; w_binds := w_binds w;
     w_containers := w_containers w; w_tasks := w_tasks w;
     w_snapshots := w_snapshots w; w_images := w_images w;
     w_content := w_content w; w_registry := v;
     w_faults := w_faults w; w_select := w_select w; w_trace := w_trace w |}.

Definition set_trace (v : list Event) (w : World) : World :=
  {| w_peers := w_peers w; w_me := w_me w; w_kv := w_kv w; w_Root := w_Root w;
     w_files := w_files w; w_binds := w_binds w;
     w_containers := w_containers w; w_tasks := w_tasks w;
     w_snapshots := w_snapshots w; w_images := w_images w;
     w_content := w_content w; w_registry := w_registry w;
     w_faults := w_faults w; w_select := w_select w; w_trace := v |}.

(** ** The monad of the handlers *)

Definition M (A : Type) : Type := World -> result A * World.

Definition ret {A} (a : A) : M A := fun w => (Ok a, w).

Definition fail {A} (e : error) : M A := fun w => (Err e, w).

Definition bind {A B} (m : M A) (k : A -> M B) : M B :=
  fun w => match m w with
           | (Ok a, w') => k a w'
           | (Err e, w') => (Err e, w')
           end.

Notation "'let*' x ':=' m 'in' k" := (bind m (fun x => k))
  (at level 10, x pattern, m at level 100, k at level 200).

Definition lift {A} (r : result A) : M A := fun w => (r, w).

Definition get {A} (f : World -> A) : M A := fun w => (Ok (f w), w).

Definition modify (f : World -> World) : M unit := fun w => (Ok tt, f w).

Definition emit (e : Event) : M unit := modify (fun w => set_trace (w_trace w ++ [e]) w).

(** A collaborator call that the environment may fail. *)
Definition call (op : Op) : M unit :=
  fun w => match w_faults w op with
           | Some e => (Err e, w)
           | None => (Ok tt, w)
           end.

(** Go's [defer d]: [d] runs when the body returns, whatever it returns,
    and what [d] itself returns is dropped. *)
Definition defer_ {A} (d : M unit) (body : M A) : M A :=
  fun w => match body w with
           | (r, w') => (r, snd (d w'))
           end.

(** [errors.Wrap(err, msg)] on the error path of a call. *)
Definition wrapped {A} (msg : string) (m : M A) : M A :=
  fun w => match m w with
           | (Ok a, w') => (Ok a, w')
           | (Err e, w') => (Err (Wrap e msg), w')
           end.

(** A call whose error is logged and otherwise ignored. *)
Definition logged (what : string) (m : M unit) : M unit :=
  fun w => match m w with
           | (Ok _, w') => (Ok tt, w')
           | (Err e, w') => (Ok tt, set_trace (w_trace w' ++ [EvLogError what e]) w')
           end.

Fixpoint forM_ {A} (l : list A) (f : A -> M unit) : M unit :=
  match l with
  | [] => ret tt
  | x :: l' => let* _ := f x in forM_ l' f
  end.

(** ** Go's [net.SplitHostPort] and [net.JoinHostPort]

    Both are from Go's standard library; they are written out here
    because master discovery and the resolv.conf writer depend on which
    addresses they accept. *)
Module net.

(* strings.IndexByte *)
Fixpoint IndexByteString (s : string) (c : ascii) : option nat :=
  match s with
  | EmptyString => None
  | String a s' =>
      if decide (a = c) then Some 0%nat else S <$> IndexByteString s' c
  end.

(* net.last: index of the last occurrence *)
Fixpoint last (s : string) (c : ascii) : option nat :=
  match s with
  | EmptyString => None
  | String a s' =>
      match last s' c with
      | Some i => Some (S i)
      | None => if decide (a = c) then Some 0%nat else None
      end
  end.

(* s[i:j] and s[i:] *)
Definition slice (s : string) (i j : nat) : string := String.substring i (j - i) s.
Definition from (s : string) (i : nat) : string :=
  String.substring i (String.length s - i) s.

Definition missingPort : string := "missing port in address".
Definition tooManyColons : string := "too many colons in address".

Definition SplitHostPort (hostport : string) : result (string * string) :=
  let addrErr why : result (string * string) := Err (AddrError why hostport) in
  match last hostport ":" with
  | None => addrErr missingPort
  | Some i =>
      let bracketed :=
        match String.get 0 hostport with
        | Some c => bool_decide (c = "["%char)
        | None => false
        end in
      let checked : result (string * nat * nat) :=
        if bracketed then
          match IndexByteString hostport "]" with
          | None => Err (AddrError "missing ']' in address" hostport)
          | Some e =>
              if decide (S e = String.length hostport) then
                Err (AddrError missingPort hostport)
              else if decide (S e = i) then
                Ok (slice hostport 1 e, 1%nat, S e)
              else if bool_decide (String.get (S e) hostport = Some ":"%char) then
                Err (AddrError tooManyColons hostport)
              else Err (AddrError missingPort hostport)
          end
        else
          let host := slice hostport 0 i in
          match IndexByteString host ":" with
          | Some _ => Err (AddrError tooManyColons hostport)
          | None => Ok (host, 0%nat, 0%nat)
          end in
      match checked with
      | Err e => Err e
      | Ok (host, j, k) =>
          match IndexByteString (from hostport j) "[" with
          | Some _ => addrErr "unexpected '[' in address"
          | None =>
              match IndexByteString (from hostport k) "]" with
              | Some _ => addrErr "unexpected ']' in address"
              | None => Ok (host, from hostport (S i))
              end
          end
      end
  end.

Definition JoinHostPort (host port : string) : string :=
  match IndexByteString host ":" with
  | Some _ => "[" +:+ host +:+ "]:" +:+ port
  | None => host +:+ ":" +:+ port
  end.

End net.

(** ** The key-value store as the agent talks to it (redigo) *)
Module redis.

Inductive command :=
| GET (key : string)
| SISMEMBER (key member : string)
| SLAVEOF (host port : string).

Definition name (c : command) : string :=
  match c with GET _ => "GET" | SISMEMBER _ _ => "SISMEMBER" | SLAVEOF _ _ => "SLAVEOF" end.

Inductive reply := Nil | Int (n : Z) | Bulk (s : string) | Status (s : string).

Definition wrongType : error :=
  ErrExternal "WRONGTYPE Operation against a key holding the wrong kind of value".

(* strconv.ParseBool *)
Definition ParseBool (s : string) : result bool :=
  if bool_decide (s ∈ ["1"; "t"; "T"; "TRUE"; "true"; "True"]) then Ok true
  else if bool_decide (s ∈ ["0"; "f"; "F"; "FALSE"; "false"; "False"]) then Ok false
  else Err (ErrExternal "strconv.ParseBool: invalid syntax").

(* redis.String(reply, err) *)
Definition String (r : result reply) : result string :=
  match r with
  | Err e => Err e
  | Ok (Bulk s) => Ok s
  | Ok (Status s) => Ok s
  | Ok Nil => Err ErrNil
  | Ok (Int _) => Err (ErrExternal "redigo: unexpected type for String")
  end.

(* redis.Bool(reply, err) *)
Definition Bool (r : result reply) : result bool :=
  match r with
  | Err e => Err e
  | Ok (Int n) => Ok (negb (n =? 0))
  | Ok (Bulk s) => ParseBool s
  | Ok Nil => Err ErrNil
  | Ok (Status _) => Err (ErrExternal "redigo: unexpected type for Bool")
  end.

End redis.

(** [conn.Do] against the local replica: a transport failure, or the
    server's answer from what the replica holds.  A SLAVEOF that the
    server accepts is recorded in the trace. *)
Definition conn_Do (c : redis.command) : World -> result redis.reply * World :=
  fun w =>
    match w_faults w (OpDo (redis.name c)) with
    | Some e => (Err e, w)
    | None =>
        match c with
        | redis.GET k =>
            match w_kv w !! k with
            | None => (Ok redis.Nil, w)
            | Some (KString v) => (Ok (redis.Bulk v), w)
            | Some (KSet _) => (Err redis.wrongType, w)
            end
        | redis.SISMEMBER k m =>
            match w_kv w !! k with
            | None => (Ok (redis.Int 0), w)
            | Some (KSet ms) => (Ok (redis.Int (if bool_decide (m ∈ ms) then 1 else 0)), w)
            | Some (KString _) => (Err redis.wrongType, w)
            end
        | redis.SLAVEOF h p =>
            (Ok (redis.Status "OK"), set_trace (w_trace w ++ [EvSlaveOf h p]) w)
        end
    end.

(** * Package agent *)

Definition MediaTypeContainerInfo : string := "application/vnd.boss.container.info.v1+json".
Definition Master : string := "boss.io/master".
Definition StorePort : string := "boss.io/store.port".

Definition nl : string := String (ascii_of_nat 10) EmptyString.

(* filepath.Join on two clean, non-empty elements *)
Definition filepath_Join (a b : string) : string := a +:+ "/" +:+ b.

Record Agent := {
  c : config.Config;
  master : string;     (* the address the master pool dials *)
  local : string }.    (* the address the local pool dials *)

Definition node_Peers : M (list element.PeerAgent) :=
  let* _ := call OpPeers in get w_peers.

Definition node_LocalNode : M element.PeerAgent :=
  let* _ := call OpLocalNode in get w_me.

(* a.doLocal *)
Definition doLocal (cmd : redis.command) : World -> result redis.reply * World :=
  conn_Do cmd.

Definition writeResolvConf (peers : list element.PeerAgent) : M unit :=
  let* root := get w_Root in
  let path := filepath_Join root "resolv.conf" in
  let* _ := call (OpOpenFile path) in
  let* _ := modify (fun w => set_files (<[path := ""]> (w_files w)) w) in
  forM_ peers (fun p =>
    let* (host, _) := lift (net.SplitHostPort (element.Addr p)) in
    let* _ := call (OpWriteString path) in
    modify (fun w =>
      set_files (<[path := default "" (w_files w !! path) +:+ "nameserver " +:+ host +:+ nl]>
                   (w_files w)) w)).

(** [handleResolvConf] writes the file once and starts a goroutine that
    rewrites it on every membership event.  The goroutine is a closure
    over the [peers] and [me] read before subscribing; the computation
    returned here is the body of its [for range c] loop, to be run once
    per event. *)
Definition handleResolvConf : M (M unit) :=
  let* peers := node_Peers in
  let* me := node_LocalNode in
  let* _ := writeResolvConf (peers ++ [me]) in
  let* _ := emit EvSubscribe in
  ret (logged "update resolv config" (writeResolvConf (peers ++ [me]))).

(** The [for _, p := range peers] loop of [New]: the address of the
    first peer labelled as master, or the empty string. *)
Fixpoint findMaster (peers : list element.PeerAgent) : result string :=
  match peers with
  | [] => Ok ""
  | p :: ps =>
      match element.Labels p !! Master with
      | Some _ =>
          match net.SplitHostPort (element.Addr p) with
          | Err e => Err e
          | Ok (host, _) =>
              Ok (net.JoinHostPort host (default "" (element.Labels p !! StorePort)))
          end
      | None => findMaster ps
      end
  end.

Definition newLocalStore (c : config.Config) (storePort : Z) : M unit :=
  call OpNewLocalStore.

Definition New (c : config.Config) (storePort : Z) : M (Agent * M unit) :=
  let* _ := call OpGetRegister in
  let* _ := newLocalStore c storePort in
  let local := "127.0.0.1:" +:+ pretty storePort in
  let* master :=
    if negb (config.Master (config.agent c)) then
      let* peers := node_Peers in
      let* master := lift (findMaster peers) in
      if decide (master = "") then fail ErrNoMaster else ret master
    else ret local in
  let mp := master in
  let* lp :=
    if config.Master (config.agent c) then ret mp
    else
      let* (host, port) := lift (net.SplitHostPort master) in
      let* _ := conn_Do (redis.SLAVEOF host port) in
      ret local in
  let agent := {| c := c; master := mp; local := lp |} in
  let* loop := handleResolvConf in
  ret (agent, loop).

(** A membership event as the membership layer produces it: the set of
    peers changes, then the subscriber's loop body runs. *)
Definition memberJoin (p : element.PeerAgent) : M unit :=
  modify (fun w => set_peers (w_peers w ++ [p]) w).

Definition memberLeave (name : string) : M unit :=
  modify (fun w =>
    set_peers (filter (fun q => element.Name q ≠ name) (w_peers w)) w).

(** ** The collaborators as the agent calls them *)

(** A call that is recorded, then may be failed by the environment. *)
Definition invoke (ev : Event) (op : Op) : M unit :=
  let* _ := emit ev in call op.

(** A statement whose returned error is not looked at. *)
Definition ignore_ {A} (m : M A) : M unit := fun w => (Ok tt, snd (m w)).

Definition GOOS : string := "linux".
Definition GOARCH : string := "amd64".
Definition hostPlatform : option ispec.Platform :=
  Some {| ispec.OS := GOOS; ispec.Architecture := GOARCH |}.

(* errdefs.IsNotFound looks through errors.Wrap *)
Fixpoint IsNotFound (e : error) : bool :=
  match e with
  | ErrNotFound => true
  | Wrap e' _ => IsNotFound e'
  | _ => false
  end.

(** Modelled from the spec: the unit manager (package [systemd], not
    among the sources), with its four calls. *)
Module systemd.
Definition Enable (id : string) : M unit := invoke (EvEnable id) (OpEnable id).
Definition Start (id : string) : M unit := invoke (EvStart id) (OpStart id).
Definition Stop (id : string) : M unit := invoke (EvStop id) (OpStop id).
Definition Disable (id : string) : M unit := invoke (EvDisable id) (OpDisable id).
End systemd.

(** The service register, with the methods that [system/config.go]
    implements for it. *)
Module register.
Definition EnableMaintainance (id name reason : string) : M unit :=
  invoke (EvMaintenance id name reason) (OpMaintenance id name).
Definition Deregister (id name : string) : M unit :=
  invoke (EvDeregister id name) (OpDeregister id name).
End register.

(* a.store.Write(ctx, config) *)
Definition store_Write (config : v1.Container) : M unit :=
  invoke (EvStoreWrite (v1.ID config)) (OpStoreWrite (v1.ID config)).

Definition lookupM {A} (f : World -> option A) : M A :=
  fun w => match f w with
           | Some a => (Ok a, w)
           | None => (Err ErrNotFound, w)
           end.

(** The containerd client, its container and task handles and its
    services. *)
Module client.

Definition LoadContainer (id : string) : M string :=
  let* _ := call (OpLoadContainer id) in
  let* _ := lookupM (fun w => w_containers w !! id) in
  ret id.

Definition Containers : M (list string) :=
  let* _ := call OpContainers in
  get (fun w => (map_to_list (w_containers w)).*1).

(* container.Info *)
Definition Info (id : string) : M containers.Container :=
  let* _ := call (OpInfo id) in
  lookupM (fun w => w_containers w !! id).

Fixpoint applyOpts (os : list (containers.Container -> M containers.Container))
    (c : containers.Container) : M containers.Container :=
  match os with
  | [] => ret c
  | o :: os' => let* c' := o c in applyOpts os' c'
  end.

(** [NewContainer] runs the options on a fresh record, then asks the
    container service to create it; an id in use is refused there. *)
Definition NewContainer (id : string)
    (os : list (containers.Container -> M containers.Container)) : M string :=
  let c0 := {| containers.ID := id; containers.Image := "";
               containers.Labels := ∅; containers.Snapshotter := "";
               containers.SnapshotKey := ""; containers.Extensions := ∅;
               containers.Checkpoint := None |} in
  let* c := applyOpts os c0 in
  let* _ := call (OpNewContainer id) in
  let* existing := get (fun w => w_containers w !! id) in
  match existing with
  | Some _ => fail (ErrAlreadyExists id)
  | None =>
      let* _ := modify (fun w => set_containers (<[id := c]> (w_containers w)) w) in
      ret id
  end.

(** [container.Update] runs the options on a copy of the stored
    record and stores the result if all of them succeed. *)
Definition Update (id : string)
    (os : list (containers.Container -> M containers.Container)) : M unit :=
  let* r := lookupM (fun w => w_containers w !! id) in
  let* r' := applyOpts os r in
  let* _ := call (OpContainerUpdate id) in
  modify (fun w => set_containers (<[id := r']> (w_containers w)) w).

(* container.Delete(ctx, how) *)
Definition Delete (id : string) (how : Cleanup) : M unit :=
  let* _ := invoke (EvContainerDelete id how) (OpContainerDelete id) in
  let* _ := lookupM (fun w => w_containers w !! id) in
  modify (fun w => set_containers (delete id (w_containers w)) w).

(* container.Task(ctx, nil) *)
Definition Task (id : string) : M task :=
  let* _ := call (OpTask id) in
  lookupM (fun w => w_tasks w !! id).

Definition Kill (id : string) (sig : Signal) : M unit :=
  invoke (EvKill id sig) (OpKill id sig).

Definition GetImage (ref : string) : M ispec.Descriptor :=
  let* _ := call (OpGetImage ref) in
  lookupM (fun w => w_images w !! ref).

Definition ImageCreate (name : string) (target : ispec.Descriptor) : M unit :=
  let* _ := call (OpImageCreate name) in
  let* existing := get (fun w => w_images w !! name) in
  match existing with
  | Some _ => fail (ErrAlreadyExists name)
  | None => modify (fun w => set_images (<[name := target]> (w_images w)) w)
  end.

Definition ImageDelete (name : string) : M unit :=
  let* _ := invoke (EvImageDelete name) (OpImageDelete name) in
  let* _ := lookupM (fun w => w_images w !! name) in
  modify (fun w => set_images (delete name (w_images w)) w).

(* content.ReadBlob *)
Definition ReadBlob (d : ispec.Descriptor) : M blob :=
  let* _ := call (OpReadBlob (ispec.Digest d)) in
  lookupM (fun w => w_content w !! ispec.Digest d).

Definition snapshotByName (key : string) (w : World) : option snapshotInfo :=
  list_find (fun si => si_Name si = key) (w_snapshots w) ≫= fun p => Some p.2.

(* SnapshotService(...).Usage *)
Definition Usage (key : string) : M Z :=
  let* _ := call (OpUsage key) in
  let* si := lookupM (snapshotByName key) in
  ret (si_Usage si).

(* SnapshotService(...).Mounts *)
Definition Mounts (key : string) : M string :=
  let* _ := call (OpMounts key) in ret key.

(* DiffService().Apply *)
Definition DiffApply (d : ispec.Descriptor) (mounts : string) : M unit :=
  invoke (EvDiffApply d mounts) OpDiffApply.

Definition WithLease : M unit := call OpLease.
Definition done : M unit := emit EvLeaseDone.

End client.

(** ** Package opts (container options and the config extension) *)
Module opts.

Definition CurrentConfig : string := "io.boss/container".
Definition LastConfig : string := "io.boss/container.last".
Definition IPLabel : string := "io/boss/container.ip".

Definition set_Extensions (e : gmap string types.Any) (c : containers.Container)
  : containers.Container :=
  {| containers.ID := containers.ID c; containers.Image := containers.Image c;
     containers.Labels := containers.Labels c;
     containers.Snapshotter := containers.Snapshotter c;
     containers.SnapshotKey := containers.SnapshotKey c;
     containers.Extensions := e;
     containers.Checkpoint := containers.Checkpoint c |}.

(* typeurl.MarshalAny of a boss container configuration *)
Definition marshal (config : v1.Container) : types.Any :=
  {| types.TypeUrl := "io.boss.v1.Container";
     types.Value := Some (types.PContainer config) |}.

(* containerd.WithContainerExtension(name, config) *)
Definition WithContainerExtension (name : string) (config : v1.Container)
    (c : containers.Container) : M containers.Container :=
  ret (set_Extensions (<[name := marshal config]> (containers.Extensions c)) c).

(** [WithBossConfig] generates the runtime spec, then saves the config
    as the [CurrentConfig] extension.  The agent passes the volume
    root as a first argument; spec generation is a collaborator call. *)
Definition WithBossConfig (volumeRoot : string) (config : v1.Container) (image : string)
    (c : containers.Container) : M containers.Container :=
  let* _ := emit (EvNewSpec (containers.ID c) volumeRoot) in
  let* _ := call (OpNewSpec (containers.ID c)) in
  WithContainerExtension CurrentConfig config c.

(* c.Extensions[k]: a missing key reads as the zero Any *)
Definition ext (c : containers.Container) (k : string) : types.Any :=
  default types.zero (containers.Extensions c !! k).

Definition WithSetPreviousConfig (c : containers.Container) : M containers.Container :=
  ret (set_Extensions (<[LastConfig := ext c CurrentConfig]> (containers.Extensions c)) c).

Definition WithRollback (c : containers.Container) : M containers.Container :=
  let d := ext c LastConfig in
  match types.Value d with
  | None => ret c
  | Some _ => ret (set_Extensions (<[CurrentConfig := d]> (containers.Extensions c)) c)
  end.

(** [typeurl.UnmarshalAny] followed by the type assertion to
    [*v1.Container]. *)
Definition UnmarshalConfig (any : types.Any) : result v1.Container :=
  match types.Value any with
  | None => Err (ErrExternal "typeurl: type not found")
  | Some types.PCorrupt => Err (ErrExternal "proto: cannot unmarshal")
  | Some (types.POther _) => Err ErrOldConfigFormat
  | Some (types.PContainer c) => Ok c
  end.

Definition GetConfig (id : string) : M v1.Container :=
  let* info := client.Info id in
  lift (UnmarshalConfig (ext info CurrentConfig)).

(** Modelled from the spec: [GetConfigFromInfo] is called by [Restore]
    and is not among the sources; it recovers the boss config from
    the [CurrentConfig] extension of a container record. *)
Definition GetConfigFromInfo (c : containers.Container) : result v1.Container :=
  UnmarshalConfig (ext c CurrentConfig).

(** Modelled from the spec: [WithRestore] is called by [Restore] and is
    not among the sources; it attaches the checkpoint descriptor so
    that the task starts from the checkpoint. *)
Definition WithRestore (desc : ispec.Descriptor) (c : containers.Container)
    : M containers.Container :=
  ret {| containers.ID := containers.ID c; containers.Image := containers.Image c;
         containers.Labels := containers.Labels c;
         containers.Snapshotter := containers.Snapshotter c;
         containers.SnapshotKey := containers.SnapshotKey c;
         containers.Extensions := containers.Extensions c;
         containers.Checkpoint := Some (ispec.Digest desc) |}.


Definition set_Labels (l : gmap string string) (c : containers.Container)
  : containers.Container :=
  {| containers.ID := containers.ID c; containers.Image := containers.Image c;
     containers.Labels := l;
     containers.Snapshotter := containers.Snapshotter c;
     containers.SnapshotKey := containers.SnapshotKey c;
     containers.Extensions := containers.Extensions c;
     containers.Checkpoint := containers.Checkpoint c |}.

(** [WithIP(ip)]: the label map is made if the record has none (a nil
    map reads like the empty one), then the IP label is set. *)
Definition WithIP (ip : string) (c : containers.Container) : M containers.Container :=
  ret (set_Labels (<[IPLabel := ip]> (containers.Labels c)) c).

(* strings.SplitN(s, "=", 2) *)
Definition SplitN2 (s : string) : list string :=
  match net.IndexByteString s "=" with
  | Some i => [net.slice s 0 i; net.from s (S i)]
  | None => [s]
  end.

(** The loop of [toStrings] over the entries, with the map [m] built so
    far.  [parts[1]] on an entry that holds no "=" is an index out of
    range: the function panics, which is [None] here. *)
Fixpoint toStringsLoop (ss : list string) (m : gmap string string)
    : option (gmap string string) :=
  match ss with
  | [] => Some m
  | s :: ss' =>
      let parts := SplitN2 s in
      match parts !! 0%nat, parts !! 1%nat with
      | Some k, Some v => toStringsLoop ss' (<[k := v]> m)
      | _, _ => None
      end
  end.

Definition toStrings (ss : list string) : option (gmap string string) :=
  toStringsLoop ss ∅.

End opts.

(** ** Store reads *)

(** The read of the volume root that [Create], [Update] and [Restore]
    each make:
    [redis.String(a.doLocal("GET", v1.VolumeRootKey))] followed by
    [if err != nil && err != redis.ErrNil { return nil, err }]. *)
Definition volumeRoot : M string :=
  fun w =>
    match doLocal (redis.GET v1.VolumeRootKey) w with
    | (r, w') =>
        match redis.String r with
        | Ok s => (Ok s, w')
        | Err ErrNil => (Ok "", w')
        | Err e => (Err e, w')
        end
    end.

(* strings.SplitN(ref, "/", 2)[0] *)
Definition remoteOf (ref : string) : string :=
  match net.IndexByteString ref "/" with
  | Some i => net.slice ref 0 i
  | None => ref
  end.

(** [withPlainRemote(ref)] is a remote option; when the client runs it,
    it asks the store whether the registry is a plain-HTTP one and
    builds the resolver with that flag.  The computation returns the
    [PlainHTTP] flag of the resolver it installs. *)
Definition withPlainRemote (ref : string) : M bool :=
  let remote := remoteOf ref in
  fun w =>
    match doLocal (redis.SISMEMBER v1.PlainRemotesKey remote) w with
    | (r, w') =>
        match redis.Bool r with
        | Ok ok => (Ok ok, w')
        | Err ErrNil => (Ok false, w')
        | Err e => (Err e, w')
        end
    end.

(** [a.client.Pull(ctx, ref, containerd.WithPullUnpack, a.withPlainRemote(ref))].
    The pull is a call on the runtime that is recorded and may fail.
    What it fetches and unpacks inside the runtime is not entered in
    [w_images], [w_content] and [w_snapshots]: of the image store the
    world follows the checkpoint images that the agent itself creates,
    looks up and deletes. *)
Definition Pull (ref : string) : M string :=
  let* plain := withPlainRemote ref in
  let* _ := invoke (EvPull ref plain) (OpPull ref) in
  ret ref.

(* a.client.Push(ctx, ref, target, a.withPlainRemote(ref)) *)
Definition client_Push (ref : string) (target : ispec.Descriptor) : M unit :=
  let* plain := withPlainRemote ref in
  let* _ := invoke (EvPush ref plain) (OpPush ref) in
  modify (fun w => set_registry (<[ref := target]> (w_registry w)) w).

(* a.client.Fetch(ctx, ref, a.withPlainRemote(ref)) *)
Definition Fetch (ref : string) : M ispec.Descriptor :=
  let* plain := withPlainRemote ref in
  let* _ := invoke (EvFetch ref plain) (OpFetch ref) in
  lookupM (fun w => w_registry w !! ref).

(** ** Container info *)

(** int64 arithmetic wraps. *)
Definition wrap64 (z : Z) : Z := (z + 2 ^ 63) mod 2 ^ 64 - 2 ^ 63.
Definition add64 (a b : Z) : Z := wrap64 (a + b).
(** uint64 subtraction wraps. *)
Definition subu64 (a b : Z) : Z := (a - b) mod 2 ^ 64.

(** [filepath.Walk] with the function literal of [getBindSizes]: the
    literal returns any error it is handed, skips directories and adds
    the size of everything else.  A name that cannot be lstat-ed and a
    directory that cannot be read are both handed to it as errors. *)
Fixpoint walk (n : fnode) (size : Z) : result Z :=
  match n with
  | File sz => Ok (add64 size sz)
  | LstatError e => Err e
  | DirUnreadable e => Err e
  | Dir entries =>
      (fix entriesLoop (l : list fnode) (size : Z) : result Z :=
         match l with
         | [] => Ok size
         | x :: l' =>
             match walk x size with
             | Err e => Err e
             | Ok size' => entriesLoop l' size'
             end
         end) entries size
  end.

Definition os_Open (path : string) (w : World) : option error :=
  match w_binds w !! path with
  | None => Some (ErrExternal "open: no such file or directory")
  | Some b => bs_open b
  end.

Definition f_Stat (path : string) (w : World) : result (bool * Z) :=
  match w_binds w !! path with
  | None => Err (ErrExternal "stat: bad file descriptor")
  | Some b => bs_stat b
  end.

Definition treeAt (path : string) (w : World) : fnode :=
  match w_binds w !! path with
  | None => LstatError (ErrExternal "lstat: no such file or directory")
  | Some b => bs_tree b
  end.

(** The loop of [getBindSizes] over [c.Mounts], with the running
    [size]. *)
Fixpoint bindSizesLoop (ms : list v1.Mount) (size : Z) : M Z :=
  match ms with
  | [] => ret size
  | m :: ms' =>
      fun w =>
        let src := v1.Source m in
        match os_Open src w with
        | Some err =>
            bindSizesLoop ms' size
              (set_trace (w_trace w ++ [EvLogWarn ("unable to open bind for size " +:+ src) err]) w)
        | None =>
            match f_Stat src w with
            | Err e => (Err e, w)
            | Ok (isDir, sz) =>
                if isDir then
                  match walk (treeAt src w) size with
                  | Err e => (Err e, w)
                  | Ok size' => bindSizesLoop ms' size' w
                  end
                else bindSizesLoop ms' (add64 size sz) w
            end
        end
  end.

Definition getBindSizes (c : v1.Container) : M Z := bindSizesLoop (v1.Mounts c) 0.

Module flux.
(** Modelled from the spec: the label constants of package [flux],
    which is not among the sources; snapshots of a container carry a
    [container-id] label and a [previous] pointer. *)
Definition ContainerIDLabel : string := "container-id".
Definition PreviousLabel : string := "previous".

(** Modelled from the spec: [WithNewSnapshot(image)] is not among the
    sources; it builds a new snapshot of the image for the container.
    Of this the record is followed, which gets the image and a snapshot
    key of its own; the snapshot itself is the runtime's and is not
    entered in [w_snapshots]. *)
Definition WithNewSnapshot (image : string) (c : containers.Container)
    : M containers.Container :=
  ret {| containers.ID := containers.ID c; containers.Image := image;
         containers.Labels := containers.Labels c;
         containers.Snapshotter := containers.Snapshotter c;
         containers.SnapshotKey := containers.ID c;
         containers.Extensions := containers.Extensions c;
         containers.Checkpoint := containers.Checkpoint c |}.

(** Modelled from the spec: [flux.WithRollback] is not among the
    sources.  The spec gives it no effect on the extensions; it is a
    step on the snapshot chain that the runtime may refuse. *)
Definition WithRollback (c : containers.Container) : M containers.Container :=
  let* _ := invoke (EvFluxRollback (containers.ID c)) (OpFluxRollback (containers.ID c)) in
  ret c.
End flux.

(* a map read that yields the zero string for a missing key *)
Definition label (m : gmap string string) (k : string) : string := default "" (m !! k).

(** The callback that [info] hands to [service.Walk], over the
    snapshots in the order the service enumerates them. *)
Fixpoint walkSnapshots (id : string) (sis : list snapshotInfo) (ss : list v1.Snapshot)
    : M (list v1.Snapshot) :=
  match sis with
  | [] => ret ss
  | si :: sis' =>
      if decide (label (si_Labels si) flux.ContainerIDLabel ≠ id) then
        walkSnapshots id sis' ss
      else
        let* usage := client.Usage (si_Name si) in
        walkSnapshots id sis'
          (ss ++ [{| v1.snap_ID := si_Name si; v1.Created := si_Created si;
                     v1.Previous := label (si_Labels si) flux.PreviousLabel;
                     v1.snap_FsSize := usage |}])
  end.

(** [info].  The memory usage is the unsigned difference of usage and
    cache; its conversion to a float is not modelled. *)
Definition info (id : string) : M v1.ContainerInfo :=
  let* info := client.Info id in
  let d := opts.ext info opts.CurrentConfig in
  let* cfg := lift (opts.UnmarshalConfig d) in
  let* usage := client.Usage (containers.SnapshotKey info) in
  let* _ := call OpWalk in
  let* sis := get w_snapshots in
  let* ss := walkSnapshots id sis [] in
  let* bindSizes := getBindSizes cfg in
  fun w =>
    match client.Task id w with
    | (Err err, w') =>
        if IsNotFound err then
          (Ok {| v1.info_ID := id; v1.info_Image := containers.Image info;
                 v1.Status := "stopped"; v1.IP := "";
                 v1.Cpu := 0; v1.MemoryUsage := 0; v1.MemoryLimit := 0;
                 v1.PidUsage := 0; v1.PidLimit := 0;
                 v1.FsSize := add64 usage bindSizes;
                 v1.Config := Some cfg; v1.Snapshots := ss |}, w')
        else (Err err, w')
    | (Ok task, w') =>
        (let* _ := call (OpTaskStatus id) in
         let* _ := call (OpMetrics id) in
         let cg := t_metrics task in
         ret {| v1.info_ID := id; v1.info_Image := containers.Image info;
                v1.Status := t_status task;
                v1.IP := label (containers.Labels info) opts.IPLabel;
                v1.Cpu := cg_cpu cg;
                v1.MemoryUsage := subu64 (cg_mem_usage cg) (cg_mem_cache cg);
                v1.MemoryLimit := cg_mem_limit cg;
                v1.PidUsage := cg_pids cg; v1.PidLimit := cg_pids_limit cg;
                v1.FsSize := add64 usage bindSizes;
                v1.Config := Some cfg; v1.Snapshots := ss |}) w'
    end.

(** The entry [List] emits for a container whose info failed: the id
    and the status, every other field at its zero value. *)
Definition listError (id : string) : v1.ContainerInfo :=
  {| v1.info_ID := id; v1.info_Image := ""; v1.Status := "list error"; v1.IP := "";
     v1.Cpu := 0; v1.MemoryUsage := 0; v1.MemoryLimit := 0;
     v1.PidUsage := 0; v1.PidLimit := 0; v1.FsSize := 0;
     v1.Config := None; v1.Snapshots := [] |}.

(** The [for _, c := range containers] loop of [List]. *)
Fixpoint listLoop (cs : list string) (resp : list v1.ContainerInfo)
    : M (list v1.ContainerInfo) :=
  match cs with
  | [] => ret resp
  | c :: cs' =>
      fun w =>
        match info c w with
        | (Err err, w') =>
            listLoop cs' (resp ++ [listError c])
              (set_trace (w_trace w' ++ [EvLogError "info container" err]) w')
        | (Ok l, w') => listLoop cs' (resp ++ [l]) w'
        end
  end.

Definition List : M (list v1.ContainerInfo) :=
  let* containers := client.Containers in
  listLoop containers [].

Definition Get (id : string) : M v1.ContainerInfo :=
  if decide (id = "") then fail ErrNoID
  else
    let* container := client.LoadContainer id in
    info container.

(** ** Update and rollback *)

(** Modelled from the spec: [pauseAndRun] is not among the sources.
    It pauses the container (a no-op when it has no task), runs the
    body, and unpauses unless the body failed. *)
Definition pauseAndRun {A} (id : string) (fn : M A) : M A :=
  fun w =>
    match client.Task id w with
    | (Err e, w') => if IsNotFound e then fn w' else (Err e, w')
    | (Ok _, w') =>
        (let* _ := invoke (EvPause id) (OpPause id) in
         let* r := fn in
         let* _ := ignore_ (invoke (EvResume id) (OpResume id)) in
         ret r) w'
    end.

(** Modelled from the spec: the four kinds of change and what applying
    each does; their [update] methods are not among the sources. *)
Inductive change : Type :=
| deregisterChange (name : string)
| imageUpdateChange (ref : string)
| configChange (c : v1.Container) (volumeRoot : string)
| filesChange (c : v1.Container).

Definition change_update (ch : change) (id : string) : M unit :=
  match ch with
  | deregisterChange name => register.Deregister id name
  | imageUpdateChange ref => let* _ := Pull ref in ret tt
  | configChange c volumeRoot =>
      client.Update id
        [opts.WithSetPreviousConfig; opts.WithBossConfig volumeRoot c (v1.Image c)]
  | filesChange c => store_Write c
  end.

Definition serviceNames (c : v1.Container) : list string :=
  (map_to_list (v1.Services c)).*1.

(* container.Task with errdefs.IsNotFound turned into a nil task *)
Definition taskOrNil (id : string) : M (option task) :=
  fun w =>
    match client.Task id w with
    | (Ok t, w') => (Ok (Some t), w')
    | (Err e, w') => if IsNotFound e then (Ok None, w') else (Err e, w')
    end.

(** [Update] in two parts.  [updateApply] is the body up to and
    including [pauseAndRun]: it loads the container, puts the current
    services in maintenance, builds the change list, looks the task up
    and, under pause, applies the changes and sends SIGTERM.  It yields
    the container and the task (or nil). *)
Definition updateApply (container : v1.Container) : M (string * option task) :=
  let* id := client.LoadContainer (v1.ID container) in
  let* current := opts.GetConfig id in
  let* _ := forM_ (serviceNames current) (fun name =>
              logged ("enable maintaince " +:+ id +:+ "-" +:+ name)
                (register.EnableMaintainance id name "update container configuration")) in
  let* volumeRoot := volumeRoot in
  let changes :=
    ((deregisterChange <$>
        filter (fun name => v1.Services container !! name = None) (serviceNames current))
     ++ [imageUpdateChange (v1.Image container);
         configChange container volumeRoot;
         filesChange container])%list in
  let* task := taskOrNil id in
  let* _ := match task with
            | Some _ => call (OpWait id)
            | None => ret tt
            end in
  let* _ := pauseAndRun id
              (let* _ := forM_ changes (fun ch => change_update ch id) in
               match task with
               | None => ret tt
               | Some _ => client.Kill id SIGTERM
               end) in
  ret (id, task).

(** [updateWait] is the [select] on the ten-second context and the
    task's exit channel; which of the two fires first is the
    environment's choice.  Without a task the exit channel is a closed
    one. *)
Definition updateWait (id : string) (task : option task) : M unit :=
  let* outcome := get w_select in
  match outcome with
  | ContextDone =>
      match task with
      | Some _ => client.Kill id SIGKILL
      | None => fail DeadlineExceeded
      end
  | TaskExited => ret tt
  end.

Definition Update (container : v1.Container) : M unit :=
  let* _ := client.WithLease in
  defer_ client.done
    (let* (id, task) := updateApply container in
     updateWait id task).

Definition Rollback (ID : string) : M unit :=
  if decide (ID = "") then fail ErrNoID
  else
    let* _ := client.WithLease in
    defer_ client.done
      (let* container := client.LoadContainer ID in
       pauseAndRun container
         (let* _ := client.Update container [flux.WithRollback; opts.WithRollback] in
          let* task := client.Task container in
          client.Kill container SIGTERM)).

(** ** Create, delete, kill, start, stop *)

(** [if err := m; err != nil { cleanup; return nil, err }] *)
Definition orElse {A} (m : M A) (cleanup : M unit) : M A :=
  fun w =>
    match m w with
    | (Ok a, w') => (Ok a, w')
    | (Err e, w') => (Err e, snd (cleanup w'))
    end.

Definition Create (container : v1.Container) (update : bool) : M unit :=
  let id := v1.ID container in
  let* image := Pull (v1.Image container) in
  fun w =>
    match client.LoadContainer id w with
    | (Ok _, w') =>
        if negb update then (Err (ErrAlreadyExists id), w')
        else Update container w'
    | (Err _, w') =>
        (let* volumeRoot := volumeRoot in
         let* c := client.NewContainer id
                     [flux.WithNewSnapshot image;
                      opts.WithBossConfig volumeRoot container image] in
         let* _ := orElse (store_Write container)
                     (ignore_ (client.Delete c WithSnapshotCleanup)) in
         let* _ := systemd.Enable c in
         systemd.Start c) w'
    end.

(** [GetNetwork]: the interface address lookup and the construction of
    the network may fail; a name other than the four known ones is
    refused. *)
Definition GetNetwork (name : string) : M unit :=
  let* _ := call (OpGetNetwork name) in
  if bool_decide (name ∈ [""; "none"; "host"; "cni"]) then ret tt
  else fail (ErrExternal ("network " +:+ name +:+ " does not exist")).

Definition Delete (id : string) : M unit :=
  if decide (id = "") then fail ErrNoID
  else
    let* container := wrapped "load container" (client.LoadContainer id) in
    let* _ := wrapped "stop service" (systemd.Stop id) in
    let* _ := wrapped "disable service" (systemd.Disable id) in
    let* config := wrapped "load config" (opts.GetConfig container) in
    let* _ := wrapped "get network" (GetNetwork (v1.Network config)) in
    let* _ := invoke (EvNetworkRemove container) (OpNetworkRemove container) in
    let* _ := forM_ (serviceNames config) (fun name =>
                logged ("de-register " +:+ id +:+ "-" +:+ name)
                  (register.Deregister id name)) in
    client.Delete container WithRevisionCleanup.

Definition Kill (id : string) : M unit :=
  if decide (id = "") then fail ErrNoID
  else
    let* container := client.LoadContainer id in
    let* config := opts.GetConfig container in
    let* _ := forM_ (serviceNames config) (fun name =>
                logged ("enable maintaince " +:+ id +:+ "-" +:+ name)
                  (register.EnableMaintainance id name "manual kill")) in
    let* task := client.Task container in
    client.Kill container SIGTERM.

Definition Start (id : string) : M unit :=
  if decide (id = "") then fail ErrNoID else systemd.Start id.

Definition Stop (id : string) : M unit :=
  if decide (id = "") then fail ErrNoID else systemd.Stop id.

Definition Nodes : M (list element.PeerAgent) :=
  let* me := node_LocalNode in
  let* peers := node_Peers in
  ret (peers ++ [me])%list.

(** ** Checkpoint, restore, migrate *)

Record CheckpointRequest := {
  ck_ID : string; ck_Ref : string; ck_Live : bool; ck_Exit : bool }.

Record RestoreRequest := { rs_Ref : string; rs_Live : bool }.

Record MigrateRequest := {
  mg_ID : string; mg_To : string; mg_Ref : string;
  mg_Live : bool; mg_Stop : bool; mg_Delete : bool }.

Definition getByMediaType (index : ispec.Index) (mt : string) : result ispec.Descriptor :=
  match list_find (fun d => ispec.MediaType d = mt) (ispec.Manifests index) with
  | Some (_, d) => Ok d
  | None => Err errMediaTypeNotFound
  end.

Definition writeContent (mediaType ref : string) (data : blob) : M ispec.Descriptor :=
  let* _ := call (OpContentWrite ref) in
  let* d := get (fun w => length (w_content w)) in
  let* _ := modify (fun w => set_content (w_content w ++ [data]) w) in
  ret {| ispec.MediaType := mediaType; ispec.Digest := d; ispec.Platform_ := None |}.

(* json.Marshal *)
Definition json_Marshal : M unit := call OpMarshal.

Definition writeIndex (index : ispec.Index) (ref : string) : M ispec.Descriptor :=
  let* _ := json_Marshal in
  writeContent ispec.MediaTypeImageIndex ref (BIndex index).

Definition decodeIndex (desc : ispec.Descriptor) : M ispec.Index :=
  let* p := client.ReadBlob desc in
  match p with
  | BIndex index => ret index
  | _ => fail (ErrExternal "json: cannot unmarshal into index")
  end.

Definition withPlatform (d : ispec.Descriptor) : ispec.Descriptor :=
  {| ispec.MediaType := ispec.MediaType d; ispec.Digest := ispec.Digest d;
     ispec.Platform_ := hostPlatform |}.

(** [rootfs.CreateDiff] with [diff.WithReference] and
    [diff.WithMediaType]: the diff service writes the layer into the
    content store and answers with a descriptor of the media type it
    was asked for. *)
Definition CreateDiff (snapshotKey ref mediaType : string) : M ispec.Descriptor :=
  let* _ := invoke (EvDiffCreate snapshotKey ref mediaType) (OpDiffCreate snapshotKey) in
  let* d := get (fun w => length (w_content w)) in
  let* _ := modify (fun w => set_content (w_content w ++ [BLayer snapshotKey]) w) in
  ret {| ispec.MediaType := mediaType; ispec.Digest := d; ispec.Platform_ := None |}.

(* a.client.TaskService().Checkpoint: the descriptors of the task's state *)
Definition TaskCheckpoint (id : string) (exit : bool) : M (list ispec.Descriptor) :=
  let* _ := invoke (EvTaskCheckpoint id exit) (OpTaskCheckpoint id) in
  let* t := lookupM (fun w => w_tasks w !! id) in
  ret (t_checkpoint t).

(** [Push] for a request with [Build] unset, the one [Migrate] makes:
    the image is looked up in the boss namespace. *)
Definition Push (Ref : string) : M unit :=
  if decide (Ref = "") then fail ErrNoRef
  else
    let* image := client.GetImage Ref in
    client_Push Ref image.

Definition Checkpoint (req : CheckpointRequest) : M unit :=
  if decide (ck_ID req = "") then fail ErrNoID
  else
    let* _ := client.WithLease in
    defer_ client.done
      (let* container := client.LoadContainer (ck_ID req) in
       let* info := client.Info container in
       let* _ := json_Marshal in
       let* desc := writeContent MediaTypeContainerInfo
                      (ck_ID req +:+ "-container-info") (BContainerInfo info) in
       let manifests := [withPlatform desc] in
       let* _ := json_Marshal in
       let* manifests :=
         pauseAndRun container
           (let* rw := CreateDiff (containers.SnapshotKey info)
                         ("checkpoint-rw-" +:+ containers.SnapshotKey info)
                         ispec.MediaTypeImageLayer in
            let manifests := (manifests ++ [withPlatform rw])%list in
            if ck_Live req then
              let* descriptors := TaskCheckpoint (ck_ID req) (ck_Exit req) in
              ret (manifests ++
                   (withPlatform <$>
                      filter (fun d => ispec.MediaType d
                                       ≠ images.MediaTypeContainerd1CheckpointConfig)
                        descriptors))%list
            else ret manifests) in
       let index := {| ispec.SchemaVersion := 2; ispec.Manifests := manifests |} in
       let* desc := writeIndex index (ck_ID req +:+ "index") in
       let* _ := client.ImageCreate (ck_Ref req) desc in
       if ck_Exit req then wrapped "stop service" (systemd.Stop (ck_ID req))
       else ret tt).

Definition Restore (req : RestoreRequest) : M unit :=
  if decide (rs_Ref req = "") then fail ErrNoRef
  else
    let* checkpoint :=
      (fun w =>
         match client.GetImage (rs_Ref req) w with
         | (Ok i, w') => (Ok i, w')
         | (Err e, w') => if IsNotFound e then Fetch (rs_Ref req) w' else (Err e, w')
         end) in
    let* index := decodeIndex checkpoint in
    let* configDesc := lift (getByMediaType index MediaTypeContainerInfo) in
    let* data := client.ReadBlob configDesc in
    let* c := match data with
              | BContainerInfo c => ret c
              | _ => fail (ErrExternal "json: cannot unmarshal into container")
              end in
    let* config := lift (opts.GetConfigFromInfo c) in
    let* image := Pull (v1.Image config) in
    let* volumeRoot := volumeRoot in
    let o := [flux.WithNewSnapshot image; opts.WithBossConfig volumeRoot config image] in
    let* o :=
      if rs_Live req then
        let* desc := lift (getByMediaType index images.MediaTypeContainerd1Checkpoint) in
        ret (o ++ [opts.WithRestore desc])%list
      else ret o in
    let* container := client.NewContainer (v1.ID config) o in
    let* info := client.Info container in
    let* rw := lift (getByMediaType index ispec.MediaTypeImageLayerGzip) in
    let* mounts := client.Mounts (containers.SnapshotKey info) in
    let* _ := client.DiffApply rw mounts in
    let* _ := orElse (store_Write config)
                (ignore_ (client.Delete container WithSnapshotCleanup)) in
    let* _ := systemd.Enable container in
    systemd.Start container.

(** [to.Get]: the target answers without error exactly when it hosts
    the id; any error, transport errors included, lets the migration
    go on. *)
Definition targetFree (to id : string) : M unit :=
  fun w =>
    match w_faults w (OpRemoteGet to id) with
    | None => (Err errServiceExistsOnTarget, w)
    | Some _ => (Ok tt, w)
    end.

Definition Migrate (req : MigrateRequest) : M unit :=
  if decide (mg_ID req = "") then fail ErrNoID
  else
    let* _ := call (OpRemoteDial (mg_To req)) in
    defer_ (emit (EvRemoteClose (mg_To req)))
      (let* _ := targetFree (mg_To req) (mg_ID req) in
       let* _ := Checkpoint {| ck_ID := mg_ID req; ck_Live := mg_Live req;
                               ck_Ref := mg_Ref req;
                               ck_Exit := mg_Stop req || mg_Delete req |} in
       defer_ (ignore_ (client.ImageDelete (mg_Ref req)))
         (let* _ := Push (mg_Ref req) in
          let* _ := invoke (EvRemoteRestore (mg_To req) (mg_Ref req) (mg_Live req))
                      (OpRemoteRestore (mg_To req) (mg_Ref req)) in
          if mg_Delete req then Delete (mg_ID req) else ret tt)).

(** ** Worlds to run the handlers in *)

Definition noFaults : Op -> option error := fun _ => None.

Definition peer (name addr : string) (labels : list (string * string)) : element.PeerAgent :=
  {| element.Name := name; element.Addr := addr; element.Labels := list_to_map labels |}.

Definition bareWorld : World :=
  {| w_peers := []; w_me := peer "node0" "10.0.0.1:7946" [];
     w_kv := ∅; w_Root := "/var/lib/boss"; w_files := ∅; w_binds := ∅;
     w_containers := ∅; w_tasks := ∅; w_snapshots := [];
     w_images := ∅; w_content := []; w_registry := ∅;
     w_faults := noFaults; w_select := TaskExited; w_trace := [] |}.

Definition set_faults (f : Op -> option error) (w : World) : World :=
  {| w_peers := w_peers w; w_me := w_me w; w_kv := w_kv w; w_Root := w_Root w;
     w_files := w_files w; w_binds := w_binds w;
     w_containers := w_containers w; w_tasks := w_tasks w;
     w_snapshots := w_snapshots w; w_images := w_images w;
     w_content := w_content w; w_registry := w_registry w;
     w_faults := f; w_select := w_select w; w_trace := w_trace w |}.

Definition nonMaster : config.Config :=
  {| config.ID := "node0";
     config.agent := {| config.Peers := []; config.Master := false |} |}.

Definition masterPeer : element.PeerAgent :=
  peer "node1" "10.0.0.2:7946" [(Master, ""); (StorePort, "6379")].

Definition plainPeer : element.PeerAgent := peer "node2" "10.0.0.3:7946" [].

(* a master whose advertised address carries no port *)
Definition portlessMaster : element.PeerAgent :=
  peer "node1" "10.0.0.2" [(Master, ""); (StorePort, "6379")].

Definition unlabelled (p : element.PeerAgent) : Prop :=
  element.Labels p !! Master = None.

(** The lines the spec asks of resolv.conf for a list of members. *)
Definition nameserverLines (hosts : list string) : string :=
  foldr (fun h acc => "nameserver " +:+ h +:+ nl +:+ acc) "" hosts.

(** ** Worlds up to their trace *)

(** Two worlds that differ at most in their trace. *)
Definition sameState (w w' : World) : Prop := set_trace [] w = set_trace [] w'.

(** A computation that changes nothing but the trace and whose result
    does not depend on the trace. *)
Definition traceBlind {A} (m : M A) : Prop :=
  forall w, sameState (snd (m w)) w
            /\ forall w', sameState w w' -> fst (m w) = fst (m w').

(** The entry the spec asks [List] to hold for a container: its info,
    or the list-error entry when its info fails. *)
Definition listEntry (w : World) (id : string) : v1.ContainerInfo :=
  match fst (info id w) with
  | Ok l => l
  | Err _ => listError id
  end.

(** A node that runs one container, [web], with a running task, and
    holds a second record, [db], whose config extension does not
    decode. *)
Definition webConfig : v1.Container :=
  {| v1.ID := "web"; v1.Image := "r/nginx:1"; v1.Network := "cni";
     v1.Mounts := []; v1.Services := ∅; v1.Readonly := false |}.

Definition webConfig2 : v1.Container :=
  {| v1.ID := "web"; v1.Image := "r/nginx:2"; v1.Network := "cni";
     v1.Mounts := []; v1.Services := ∅; v1.Readonly := false |}.

Definition recordOf (config : v1.Container) (exts : gmap string types.Any)
    : containers.Container :=
  {| containers.ID := v1.ID config; containers.Image := v1.Image config;
     containers.Labels := ∅; containers.Snapshotter := "overlayfs";
     containers.SnapshotKey := v1.ID config;
     containers.Extensions := exts; containers.Checkpoint := None |}.

Definition webRecord : containers.Container :=
  recordOf webConfig {[ opts.CurrentConfig := opts.marshal webConfig ]}.

Definition dbRecord : containers.Container :=
  {| containers.ID := "db"; containers.Image := "r/pg:11";
     containers.Labels := ∅; containers.Snapshotter := "overlayfs";
     containers.SnapshotKey := "db";
     containers.Extensions :=
       {[ opts.CurrentConfig :=
            {| types.TypeUrl := "io.boss.v1.Container"; types.Value := Some types.PCorrupt |} ]};
     containers.Checkpoint := None |}.

Definition runningTask : task :=
  {| t_status := "running";
     t_metrics := {| cg_cpu := 1000; cg_mem_usage := 4096; cg_mem_cache := 1024;
                     cg_mem_limit := 1048576; cg_pids := 3; cg_pids_limit := 100 |};
     t_checkpoint := [] |}.

Definition snapshotOf (id : string) (usage : Z) : snapshotInfo :=
  {| si_Name := id; si_Created := 0;
     si_Labels := {[ flux.ContainerIDLabel := id ]}; si_Usage := usage |}.

Definition nodeWorld (cs : gmap string containers.Container) (ts : gmap string task)
    (faults : Op -> option error) (sel : WaitOutcome) : World :=
  {| w_peers := []; w_me := peer "node0" "10.0.0.1:7946" [];
     w_kv := ∅; w_Root := "/var/lib/boss"; w_files := ∅; w_binds := ∅;
     w_containers := cs; w_tasks := ts;
     w_snapshots := [snapshotOf "web" 4096; snapshotOf "db" 8192];
     w_images := ∅; w_content := []; w_registry := ∅;
     w_faults := faults; w_select := sel; w_trace := [] |}.

Definition webWorld : World :=
  nodeWorld {[ "web" := webRecord ]} {[ "web" := runningTask ]} noFaults TaskExited.

Definition webAndDbWorld : World :=
  nodeWorld {[ "web" := webRecord; "db" := dbRecord ]} {[ "web" := runningTask ]}
    noFaults TaskExited.

(** ** Bind-mount sources to measure *)

(** The sum the spec asks of a directory: the sizes of everything below
    it that is not a directory. *)
Fixpoint total (n : fnode) : Z :=
  match n with
  | File sz => sz
  | Dir entries => foldr (fun x acc => total x + acc) 0 entries
  | DirUnreadable _ => 0
  | LstatError _ => 0
  end.

(** A tree in which every name can be lstat-ed and every directory
    read. *)
Fixpoint errorFree (n : fnode) : bool :=
  match n with
  | File _ => true
  | Dir entries => forallb errorFree entries
  | DirUnreadable _ => false
  | LstatError _ => false
  end.

(** The errors that lie in a tree, in the order in which a walk meets
    them: a name that cannot be lstat-ed, a directory that cannot be
    read. *)
Fixpoint errorsOf (n : fnode) : list error :=
  match n with
  | File _ => []
  | Dir entries => foldr (fun x acc => (errorsOf x ++ acc)%list) [] entries
  | DirUnreadable e => [e]
  | LstatError e => [e]
  end.

Definition permissionDenied : error := ErrExternal "permission denied".

Definition bindMount (source : string) : v1.Mount :=
  {| v1.Type_ := "bind"; v1.Source := source; v1.Destination := "/data";
     v1.Options := ["rbind"; "rw"] |}.

Definition withMounts (ms : list v1.Mount) (c : v1.Container) : v1.Container :=
  {| v1.ID := v1.ID c; v1.Image := v1.Image c; v1.Network := v1.Network c;
     v1.Mounts := ms; v1.Services := v1.Services c; v1.Readonly := v1.Readonly c |}.

(** [web] with one bind mount whose source is a directory that opens
    and holds a file and a subdirectory the agent may not read. *)
Definition bindWorld (binds : gmap string bindSource) : World :=
  let config := withMounts [bindMount "/srv/data"] webConfig in
  {| w_peers := []; w_me := peer "node0" "10.0.0.1:7946" [];
     w_kv := ∅; w_Root := "/var/lib/boss"; w_files := ∅; w_binds := binds;
     w_containers :=
       {[ "web" := recordOf config {[ opts.CurrentConfig := opts.marshal config ]} ]};
     w_tasks := {[ "web" := runningTask ]};
     w_snapshots := [snapshotOf "web" 4096];
     w_images := ∅; w_content := []; w_registry := ∅;
     w_faults := noFaults; w_select := TaskExited; w_trace := [] |}.

Definition unreadableSubdir : gmap string bindSource :=
  {[ "/srv/data" := {| bs_open := None; bs_stat := Ok (true, 4096);
                       bs_tree := Dir [File 10; DirUnreadable permissionDenied] |} ]}.

Definition readableTree : gmap string bindSource :=
  {[ "/srv/data" := {| bs_open := None; bs_stat := Ok (true, 4096);
                       bs_tree := Dir [File 10; Dir [File 20; File 30]] |} ]}.

Definition unopenable : gmap string bindSource :=
  {[ "/srv/data" := {| bs_open := Some permissionDenied; bs_stat := Ok (true, 4096);
                       bs_tree := Dir [] |} ]}.

Definition noSuchFile : error := ErrExternal "lstat: no such file or directory".

(** A source that opens and holds a name that is gone by the time the
    walk gets to it. *)
Definition vanishedName : gmap string bindSource :=
  {[ "/srv/data" := {| bs_open := None; bs_stat := Ok (true, 4096);
                       bs_tree := Dir [File 10; Dir [LstatError noSuchFile]; File 5] |} ]}.

Definition connectionRefused : error := ErrExternal "dial tcp: connection refused".

(** A world in which every call to the store fails in transport. *)
Definition storeDown : Op -> option error :=
  fun op => match op with OpDo _ => Some connectionRefused | _ => None end.

(** [web] after an update from [webConfig] to [webConfig2]: the new
    config is the current one, the old one the last. *)
Definition updatedWebRecord : containers.Container :=
  recordOf webConfig2 {[ opts.CurrentConfig := opts.marshal webConfig2;
                         opts.LastConfig := opts.marshal webConfig ]}.

Definition updatedWebWorld : World :=
  nodeWorld {[ "web" := updatedWebRecord ]} {[ "web" := runningTask ]} noFaults TaskExited.

Definition noSuchProcess : error := ErrExternal "no such process".

(** The runtime refuses the SIGKILL, for instance because the task is
    gone by the time it arrives. *)
Definition sigkillFails : Op -> option error :=
  fun op => match op with OpKill _ SIGKILL => Some noSuchProcess | _ => None end.

(** [web] with a task that does not exit within the ten seconds. *)
Definition timeoutWorld (faults : Op -> option error) : World :=
  nodeWorld {[ "web" := webRecord ]} {[ "web" := runningTask ]} faults ContextDone.

(** ** Checkpoint and restore scenarios *)

Definition checkpointWeb : CheckpointRequest :=
  {| ck_ID := "web"; ck_Ref := "r/ck/web:1"; ck_Live := false; ck_Exit := true |}.

Definition restoreWeb : RestoreRequest := {| rs_Ref := "r/ck/web:1"; rs_Live := false |}.

(** Checkpoint [web], delete it, restore it from the checkpoint. *)
Definition checkpointDeleteRestore : M unit :=
  let* _ := Checkpoint checkpointWeb in
  let* _ := Delete "web" in
  Restore restoreWeb.

(** A checkpoint image made by hand, whose rw layer does carry the gzip
    media type: the info blob, the layer, the index over both, and the
    image [r/ck/web:1] pointing at the index. *)
Definition gzipIndex : ispec.Index :=
  {| ispec.SchemaVersion := 2;
     ispec.Manifests :=
       [ {| ispec.MediaType := MediaTypeContainerInfo; ispec.Digest := 0%nat;
            ispec.Platform_ := hostPlatform |};
         {| ispec.MediaType := ispec.MediaTypeImageLayerGzip; ispec.Digest := 1%nat;
            ispec.Platform_ := hostPlatform |} ] |}.

Definition gzipCheckpointWorld (faults : Op -> option error) : World :=
  {| w_peers := []; w_me := peer "node0" "10.0.0.1:7946" [];
     w_kv := ∅; w_Root := "/var/lib/boss"; w_files := ∅; w_binds := ∅;
     w_containers := ∅; w_tasks := ∅; w_snapshots := [];
     w_images := {[ "r/ck/web:1" :=
                      {| ispec.MediaType := ispec.MediaTypeImageIndex; ispec.Digest := 2%nat;
                         ispec.Platform_ := None |} ]};
     w_content := [BContainerInfo webRecord; BLayer "web"; BIndex gzipIndex];
     w_registry := ∅;
     w_faults := faults; w_select := TaskExited; w_trace := [] |}.

Definition applyFails : Op -> option error :=
  fun op => match op with OpDiffApply => Some (ErrExternal "apply: unexpected EOF") | _ => None end.

Definition storeWriteFails : Op -> option error :=
  fun op => match op with OpStoreWrite _ => Some (ErrExternal "consul: no leader") | _ => None end.

Definition startFails : Op -> option error :=
  fun op => match op with OpStart _ => Some (ErrExternal "systemd: unit failed") | _ => None end.

(** ** Computations that leave the fault table alone and only add to
    the trace *)

Definition steady {A} (m : M A) : Prop :=
  forall w, w_faults (snd (m w)) = w_faults w
            /\ exists t, w_trace (snd (m w)) = (w_trace w ++ t)%list.

Definition migrateWeb (delete : bool) : MigrateRequest :=
  {| mg_ID := "web"; mg_To := "10.0.0.3:1234"; mg_Ref := "r/ck/web:1";
     mg_Live := false; mg_Stop := false; mg_Delete := delete |}.

(** The target does not host the container; beyond that, nothing
    fails, or the push fails, or the restore on the target fails. *)
Definition targetIsFree (op : Op) : option error :=
  match op with OpRemoteGet _ _ => Some ErrNotFound | _ => None end.

Definition pushFails (op : Op) : option error :=
  match op with
  | OpRemoteGet _ _ => Some ErrNotFound
  | OpPush _ => Some (ErrExternal "push: connection reset")
  | _ => None
  end.

Definition remoteRestoreFails (op : Op) : option error :=
  match op with
  | OpRemoteGet _ _ => Some ErrNotFound
  | OpRemoteRestore _ _ => Some errMediaTypeNotFound
  | _ => None
  end.

(** The image service refuses to delete an image; in the second table
    the push fails as well. *)
Definition imageDeleteFails (op : Op) : option error :=
  match op with
  | OpRemoteGet _ _ => Some ErrNotFound
  | OpImageDelete _ => Some (ErrExternal "image service: unavailable")
  | _ => None
  end.

Definition pushAndImageDeleteFail (op : Op) : option error :=
  match op with
  | OpRemoteGet _ _ => Some ErrNotFound
  | OpPush _ => Some (ErrExternal "push: connection reset")
  | OpImageDelete _ => Some (ErrExternal "image service: unavailable")
  | _ => None
  end.

(** C10 (amended).  Once the dial, the check on the target and the
    local [Checkpoint] have succeeded, the checkpoint image is in the
    local image store, and [Migrate] calls the local image service to
    delete it as the last thing before it closes the channel and
    returns, whatever the push, the restore on the target and the final
    local delete returned.  [Migrate] returns what those steps
    returned: the error of the delete is dropped.  So the image is gone
    on return when the image service carries the delete out, and is
    still in the local image store when the delete fails. *)

Definition migrateWorld (faults : Op -> option error) : World :=
  nodeWorld {[ "web" := webRecord ]} {[ "web" := runningTask ]} faults TaskExited.

(** ** Parts of the world a computation leaves alone, and what it adds
    to the trace *)

(** [m] never changes what [f] reads off the world. *)
Definition keeps {A B} (f : World -> B) (m : M A) : Prop :=
  forall w, f (snd (m w)) = f w.

(** [m] only adds to the trace, and only events that satisfy [P]. *)
Definition emits {A} (P : Event -> Prop) (m : M A) : Prop :=
  forall w, exists t, w_trace (snd (m w)) = (w_trace w ++ t)%list /\ Forall P t.

(** The host part of a peer's address, for a peer whose address
    splits. *)
Definition hostOf (p : element.PeerAgent) (h : string) : Prop :=
  exists port, net.SplitHostPort (element.Addr p) = Ok (h, port).

(** [m] relates what [f] reads before and after it, and its result, by
    [R]. *)
Definition ensures {A B} (f : World -> B) (R : B -> result A -> B -> Prop) (m : M A)
    : Prop :=
  forall w, R (f w) (fst (m w)) (f (snd (m w))).

(** What a handler that works under a lease does with it in the world
    [w]: when the lease is granted, releasing it is the last thing the
    handler does, and it does so once; when the lease is refused, the
    handler returns the error and has done nothing. *)
Definition underLease {A} (m : M A) (w : World) : Prop :=
  match w_faults w OpLease with
  | None =>
      exists t, w_trace (snd (m w)) = (w_trace w ++ t ++ [EvLeaseDone])%list
                /\ EvLeaseDone ∉ t
  | Some e => m w = (Err e, w)
  end.

(** ** More worlds to run the handlers in *)

(** [api]: a container on the host network that registers two
    services. *)
Definition apiConfig : v1.Container :=
  {| v1.ID := "api"; v1.Image := "r/api:1"; v1.Network := "host";
     v1.Mounts := [];
     v1.Services := {[ "http" := {| v1.Port := 80; v1.Labels := [] |};
                       "metrics" := {| v1.Port := 9100; v1.Labels := [] |} ]};
     v1.Readonly := false |}.

Definition apiRecord : containers.Container :=
  recordOf apiConfig {[ opts.CurrentConfig := opts.marshal apiConfig ]}.

(** A node that holds [api], with or without a task for it. *)
Definition apiWorld (running : bool) (faults : Op -> option error) : World :=
  nodeWorld {[ "api" := apiRecord ]}
    (if running then {[ "api" := runningTask ]} else ∅) faults TaskExited.

Definition registerDown : Op -> option error :=
  fun op => match op with
            | OpDeregister _ _ | OpMaintenance _ _ =>
                Some (ErrExternal "consul: connection refused")
            | _ => None
            end.

Definition enableFails : Op -> option error :=
  fun op => match op with OpEnable _ => Some (ErrExternal "systemd: no such unit") | _ => None end.

Definition stopFails : Op -> option error :=
  fun op => match op with OpStop _ => Some (ErrExternal "systemd: unit busy") | _ => None end.

(** Log lines, as opposed to calls on a collaborator. *)
Definition isLog (ev : Event) : Prop :=
  match ev with
  | EvLogError _ _ | EvLogWarn _ _ => True
  | _ => False
  end.


(** A handler that only looks: it changes nothing but the trace, and
    adds nothing to the trace but log lines. *)
Definition readOnly {A} (m : M A) : Prop :=
  keeps (set_trace []) m /\ emits isLog m.

(** The target of a migration does not host the container, and the
    unit on this node cannot be stopped. *)
Definition targetIsFreeStopFails (op : Op) : option error :=
  match op with
  | OpRemoteGet _ _ => Some ErrNotFound
  | OpStop _ => Some (ErrExternal "systemd: unit busy")
  | _ => None
  end.

(** The snapshot entry that [info] builds from what the snapshot
    service says of a snapshot. *)
Definition snapshotEntry (si : snapshotInfo) : v1.Snapshot :=
  {| v1.snap_ID := si_Name si; v1.Created := si_Created si;
     v1.Previous := label (si_Labels si) flux.PreviousLabel;
     v1.snap_FsSize := si_Usage si |}.

(** * Properties *)

Open Scope list_scope.

(** ** Proof tools *)

(** Proof steps for running a handler on a world described by
    hypotheses: unfold the monad, then alternate between computing and
    rewriting with the equations at hand. *)
Ltac use_hyps :=
  repeat match goal with
         | H : ?l = _ |- context [?l] => rewrite H
         end.

Ltac munfold :=
  repeat (progress unfold bind, defer_, orElse, wrapped, logged, ignore_, invoke, emit,
            modify, lookupM, call, get, lift, fail, ret).

Ltac mrun := munfold; repeat (progress (simpl; use_hyps)).

(** Case analysis on what the environment answers, in a hypothesis
    that says how a handler ended. *)
Ltac use_hyps_in H :=
  repeat match goal with
         | E : ?l = _ |- _ =>
             tryif constr_eq E H then fail else
               lazymatch type of H with
               | context [l] => progress (rewrite E in H)
               end
         end.

Ltac cases_in H :=
  repeat (simpl in H; use_hyps_in H;
          match type of H with
          | context [w_faults ?w ?op] =>
              let E := fresh "F" in destruct (w_faults w op) eqn:E
          | context [@lookup _ _ _ _ ?k ?m] =>
              let E := fresh "L" in destruct (@lookup _ _ _ _ k m) eqn:E
          | context [bool_decide ?P] =>
              let E := fresh "B" in destruct (bool_decide P) eqn:E
          | context [IsNotFound ?e] =>
              let E := fresh "N" in destruct (IsNotFound e) eqn:E
          | context [getByMediaType ?i ?m] =>
              let E := fresh "G" in destruct (getByMediaType i m) eqn:E
          | context [opts.UnmarshalConfig ?a] =>
              let E := fresh "U" in destruct (opts.UnmarshalConfig a) eqn:E
          | context [match ?x with _ => _ end] => is_var x; destruct x
          | _ => discriminate H
          end).

Ltac munfold_in H :=
  repeat (progress unfold bind, defer_, orElse, wrapped, logged, ignore_, invoke, emit,
            modify, lookupM, call, get, lift, fail, ret in H).

(** ** Addresses *)

Example SplitHostPort_plain :
  net.SplitHostPort "10.0.0.2:7946" = Ok ("10.0.0.2", "7946").
Proof. reflexivity. Qed.

Example SplitHostPort_v6 :
  net.SplitHostPort "[::1]:80" = Ok ("::1", "80").
Proof. reflexivity. Qed.

Example SplitHostPort_no_port :
  net.SplitHostPort "10.0.0.2" = Err (AddrError net.missingPort "10.0.0.2").
Proof. reflexivity. Qed.

Example SplitHostPort_colons :
  net.SplitHostPort "a:b:c" = Err (AddrError net.tooManyColons "a:b:c").
Proof. reflexivity. Qed.

Example JoinHostPort_plain : net.JoinHostPort "10.0.0.2" "6379" = "10.0.0.2:6379".
Proof. reflexivity. Qed.

(** ** Master discovery and resolv.conf *)

Lemma JoinHostPort_nonempty host port : net.JoinHostPort host port ≠ "".
Proof.
  unfold net.JoinHostPort.
  destruct (net.IndexByteString host ":"); [discriminate|].
  destruct host; discriminate.
Qed.

Lemma findMaster_first pre p post :
  Forall unlabelled pre -> is_Some (element.Labels p !! Master) ->
  findMaster (pre ++ p :: post) =
    match net.SplitHostPort (element.Addr p) with
    | Err e => Err e
    | Ok (host, _) => Ok (net.JoinHostPort host (label (element.Labels p) StorePort))
    end.
Proof.
  intros Hpre [v Hv]. induction Hpre as [|q pre Hq _ IH]; simpl.
  - by rewrite Hv.
  - unfold unlabelled in Hq. by rewrite Hq.
Qed.

Lemma findMaster_none peers : Forall unlabelled peers -> findMaster peers = Ok "".
Proof.
  induction 1 as [|q pre Hq _ IH]; simpl; [done|].
  unfold unlabelled in Hq. by rewrite Hq.
Qed.

(** C5 (amended).  On a non-master node whose register, local store and
    peer enumeration are available: with no peer carrying the master
    label, [New] fails with the no-master error; otherwise it picks the
    first labelled peer in enumeration order and, provided that peer's
    address splits into host and port, dials the host joined with the
    peer's store-port label, and succeeds when attaching to that master
    and writing resolv.conf succeed; when that peer's address does not
    split, [New] fails with the address error. *)
Theorem New_master_discovery (c0 : config.Config) (storePort : Z) (w : World) :
  config.Master (config.agent c0) = false ->
  w_faults w OpGetRegister = None ->
  w_faults w OpNewLocalStore = None ->
  w_faults w OpPeers = None ->
  (Forall unlabelled (w_peers w) -> New c0 storePort w = (Err ErrNoMaster, w))
  /\
  (forall pre p post host port h q w1 loop w2,
      w_peers w = (pre ++ p :: post)%list ->
      Forall unlabelled pre ->
      is_Some (element.Labels p !! Master) ->
      net.SplitHostPort (element.Addr p) = Ok (host, port) ->
      let m := net.JoinHostPort host (label (element.Labels p) StorePort) in
      net.SplitHostPort m = Ok (h, q) ->
      conn_Do (redis.SLAVEOF h q) w = (Ok (redis.Status "OK"), w1) ->
      handleResolvConf w1 = (Ok loop, w2) ->
      New c0 storePort w
      = (Ok ({| c := c0; master := m; local := "127.0.0.1:" +:+ pretty storePort |}, loop),
         w2))
  /\
  (forall pre p post e,
      w_peers w = (pre ++ p :: post)%list ->
      Forall unlabelled pre ->
      is_Some (element.Labels p !! Master) ->
      net.SplitHostPort (element.Addr p) = Err e ->
      New c0 storePort w = (Err e, w)).
Proof.
  intros Hm Hreg Hstore Hpeers. split; [|split].
  - intros Hnone.
    unfold New, newLocalStore, node_Peers, bind, call, get, lift, fail.
    rewrite Hreg, Hstore, Hm. simpl. rewrite Hpeers.
    rewrite (findMaster_none _ Hnone). done.
  - intros pre p post host port h q w1 loop w2 Hw Hpre Hp Hsplit m Hm' Hdo Hloop.
    unfold New, newLocalStore, node_Peers, bind, call, get, lift, fail, ret.
    rewrite Hreg, Hstore, Hm. simpl. rewrite Hpeers, Hw.
    rewrite (findMaster_first _ _ _ Hpre Hp), Hsplit.
    fold m. destruct (decide (m = "")) as [E|_]; [by apply JoinHostPort_nonempty in E|].
    rewrite Hm', Hdo, Hloop. done.
  - intros pre p post e Hw Hpre Hp Hsplit.
    unfold New, newLocalStore, node_Peers, bind, call, get, lift, fail, ret.
    rewrite Hreg, Hstore, Hm. simpl. rewrite Hpeers, Hw.
    by rewrite (findMaster_first _ _ _ Hpre Hp), Hsplit.
Qed.

(** Master discovery on three concrete peer sets: no master, a master
    behind a plain peer, a master whose address has no port. *)
Lemma New_master_discovery_witness :
  New nonMaster 6379 (set_peers [plainPeer] bareWorld)
    = (Err ErrNoMaster, set_peers [plainPeer] bareWorld)
  /\ match New nonMaster 6379 (set_peers [plainPeer; masterPeer; masterPeer] bareWorld) with
     | (Ok (a, _), _) =>
         a = {| c := nonMaster; master := "10.0.0.2:6379"; local := "127.0.0.1:6379" |}
     | (Err _, _) => False
     end
  /\ New nonMaster 6379 (set_peers [portlessMaster; masterPeer] bareWorld)
     = (Err (AddrError net.missingPort "10.0.0.2"),
        set_peers [portlessMaster; masterPeer] bareWorld).
Proof.
  split; [|split].
  - apply (New_master_discovery nonMaster 6379 (set_peers [plainPeer] bareWorld));
      try reflexivity.
    repeat constructor.
  - set (W := set_peers [plainPeer; masterPeer; masterPeer] bareWorld).
    pose (W1 := snd (conn_Do (redis.SLAVEOF "10.0.0.2" "6379") W)).
    assert (H1 : conn_Do (redis.SLAVEOF "10.0.0.2" "6379") W = (Ok (redis.Status "OK"), W1))
      by (vm_compute; reflexivity).
    assert (Hok : is_ok (fst (handleResolvConf W1)) = true) by (vm_compute; reflexivity).
    destruct (handleResolvConf W1) as [[L|e] W2] eqn:H2; [|discriminate Hok].
    assert (H3 : net.SplitHostPort
                   (net.JoinHostPort "10.0.0.2" (label (element.Labels masterPeer) StorePort))
                 = Ok ("10.0.0.2", "6379")) by (vm_compute; reflexivity).
    assert (H4 : net.SplitHostPort (element.Addr masterPeer) = Ok ("10.0.0.2", "7946"))
      by (vm_compute; reflexivity).
    assert (H5 : is_Some (element.Labels masterPeer !! Master))
      by (exists ""; vm_compute; reflexivity).
    assert (H6 : Forall unlabelled [plainPeer])
      by (repeat constructor).
    rewrite (proj1 (proj2 (New_master_discovery nonMaster 6379 W
                             eq_refl eq_refl eq_refl eq_refl))
               [plainPeer] masterPeer [masterPeer] "10.0.0.2" "7946" "10.0.0.2" "6379"
               W1 L W2 eq_refl H6 H5 H4 H3 H1 H2).
    vm_compute. reflexivity.
  - apply (proj2 (proj2 (New_master_discovery nonMaster 6379
                           (set_peers [portlessMaster; masterPeer] bareWorld)
                           eq_refl eq_refl eq_refl eq_refl))
             [] portlessMaster [masterPeer]).
    + reflexivity.
    + constructor.
    + exists "". vm_compute. reflexivity.
    + vm_compute. reflexivity.
Defined.

(** C5 as stated fails: a peer set with exactly one labelled master,
    whose address has no port, and no other failure anywhere. *)
Lemma New_fails_on_single_portless_master :
  let w := set_peers [plainPeer; portlessMaster] bareWorld in
  length (filter (fun p => is_Some (element.Labels p !! Master)) (w_peers w)) = 1%nat
  /\ New nonMaster 6379 w = (Err (AddrError net.missingPort "10.0.0.2"), w).
Proof. split; reflexivity. Qed.

(** The closure that [handleResolvConf] leaves running rewrites the
    file from the members read at start-up, whatever the members are
    when an event arrives. *)
Lemma handleResolvConf_loop_captures w loop w1 :
  handleResolvConf w = (Ok loop, w1) ->
  loop = logged "update resolv config" (writeResolvConf (w_peers w ++ [w_me w])).
Proof.
  unfold handleResolvConf, node_Peers, node_LocalNode, bind, call, get, emit, modify, ret.
  destruct (w_faults w OpPeers); [discriminate|].
  destruct (w_faults w OpLocalNode); [discriminate|].
  destruct (writeResolvConf _ w) as [[[]|e] w']; [|discriminate].
  by intros [= <- _].
Qed.

(** C6 on the code: a peer joins after start-up; the rewritten
    resolv.conf still lists the members read at start-up and misses the
    new peer. *)
Theorem resolvConf_stale_after_join :
  let w0 := set_peers [masterPeer] bareWorld in
  match New nonMaster 6379 w0 with
  | (Ok (_, loop), w1) =>
      let w2 := snd ((let* _ := memberJoin plainPeer in loop) w1) in
      w_peers w2 = [masterPeer; plainPeer]
      /\ w_files w2 !! filepath_Join (w_Root w2) "resolv.conf"
         = Some (nameserverLines ["10.0.0.2"; "10.0.0.1"])
      /\ w_files w2 !! filepath_Join (w_Root w2) "resolv.conf"
         <> Some (nameserverLines ["10.0.0.2"; "10.0.0.3"; "10.0.0.1"])
  | _ => False
  end.
Proof.
  vm_compute. split; [reflexivity|]. split; [reflexivity|discriminate].
Qed.

(** ** Listing *)

Section TraceBlind.

#[local] Instance sameState_equiv : Equivalence sameState.
Proof.
  unfold sameState. split.
  - by intros w.
  - by intros w w'.
  - intros w1 w2 w3 H1 H2. congruence.
Qed.

Lemma sameState_set_trace t w : sameState (set_trace t w) w.
Proof. reflexivity. Qed.

Lemma sameState_proj {B} (f : World -> B) w w' :
  (forall t v, f (set_trace t v) = f v) -> sameState w w' -> f w = f w'.
Proof.
  intros Hf H. rewrite <- (Hf [] w), <- (Hf [] w'). by rewrite H.
Qed.

Lemma tb_ret {A} (a : A) : traceBlind (ret a).
Proof. by intros w. Qed.

Lemma tb_fail {A} e : traceBlind (@fail A e).
Proof. by intros w. Qed.

Lemma tb_lift {A} (r : result A) : traceBlind (lift r).
Proof. by intros w. Qed.

Lemma tb_get {A} (f : World -> A) :
  (forall t v, f (set_trace t v) = f v) -> traceBlind (get f).
Proof.
  intros Hf w. split; [done|]. intros w' H. simpl.
  by rewrite (sameState_proj f w w' Hf H).
Qed.

Lemma tb_lookupM {A} (f : World -> option A) :
  (forall t v, f (set_trace t v) = f v) -> traceBlind (lookupM f).
Proof.
  intros Hf w. unfold lookupM. split.
  - by destruct (f w).
  - intros w' H. rewrite (sameState_proj f w w' Hf H). by destruct (f w').
Qed.

Lemma tb_call op : traceBlind (call op).
Proof.
  intros w. unfold call. split.
  - by destruct (w_faults w op).
  - intros w' H. rewrite (sameState_proj w_faults w w' (fun _ _ => eq_refl) H).
    by destruct (w_faults w' op).
Qed.

Lemma tb_bind {A B} (m : M A) (k : A -> M B) :
  traceBlind m -> (forall a, traceBlind (k a)) -> traceBlind (bind m k).
Proof.
  intros Hm Hk w. unfold bind.
  destruct (Hm w) as [Hs Hr]. split.
  - destruct (m w) as [[a|e] w1]; simpl in *; [|done].
    destruct (Hk a w1) as [Hs1 _]. by rewrite Hs1.
  - intros w' H. specialize (Hr w' H).
    destruct (Hm w') as [Hs' _].
    destruct (m w) as [[a|e] w1], (m w') as [[a'|e'] w1']; simpl in *;
      try congruence.
    injection Hr as <-.
    destruct (Hk a w1) as [_ Hk1]. apply Hk1.
    by rewrite Hs, H, Hs'.
Qed.

Lemma tb_Info id : traceBlind (client.Info id).
Proof.
  apply tb_bind; [apply tb_call|]. intros _. by apply tb_lookupM.
Qed.

Lemma tb_Usage key : traceBlind (client.Usage key).
Proof.
  apply tb_bind; [apply tb_call|]. intros _.
  apply tb_bind; [by apply tb_lookupM|]. intros si. apply tb_ret.
Qed.

Lemma tb_Task id : traceBlind (client.Task id).
Proof.
  apply tb_bind; [apply tb_call|]. intros _. by apply tb_lookupM.
Qed.

Lemma tb_walkSnapshots id sis : forall ss, traceBlind (walkSnapshots id sis ss).
Proof.
  induction sis as [|si sis IH]; intros ss; simpl; [apply tb_ret|].
  destruct (decide _); [apply IH|].
  apply tb_bind; [apply tb_Usage|]. intros u. apply IH.
Qed.

Lemma tb_bindSizesLoop ms : forall size, traceBlind (bindSizesLoop ms size).
Proof.
  induction ms as [|m ms IH]; intros size; simpl; [apply tb_ret|].
  intros w.
  assert (Ho : forall w', sameState w w' ->
                          os_Open (v1.Source m) w = os_Open (v1.Source m) w').
  { intros w' H. apply (sameState_proj (os_Open (v1.Source m))); [done|exact H]. }
  assert (Hst : forall w', sameState w w' ->
                           f_Stat (v1.Source m) w = f_Stat (v1.Source m) w').
  { intros w' H. apply (sameState_proj (f_Stat (v1.Source m))); [done|exact H]. }
  assert (Ht : forall w', sameState w w' ->
                          treeAt (v1.Source m) w = treeAt (v1.Source m) w').
  { intros w' H. apply (sameState_proj (treeAt (v1.Source m))); [done|exact H]. }
  split.
  - destruct (os_Open (v1.Source m) w).
    { destruct (IH size (set_trace
          (w_trace w ++ [EvLogWarn ("unable to open bind for size " +:+ v1.Source m) e]) w))
        as [Hs _]. by rewrite Hs. }
    destruct (f_Stat (v1.Source m) w) as [[[] sz]|e]; [| |done].
    + destruct (walk _ size); [|done]. apply IH.
    + apply IH.
  - intros w' H. rewrite <- (Ho w' H), <- (Hst w' H), <- (Ht w' H).
    destruct (os_Open (v1.Source m) w).
    { apply IH. by rewrite !sameState_set_trace. }
    destruct (f_Stat (v1.Source m) w) as [[[] sz]|e]; [| |done].
    + destruct (walk _ size); [|done]. by apply IH.
    + by apply IH.
Qed.

Lemma tb_info id : traceBlind (info id).
Proof.
  unfold info.
  apply tb_bind; [apply tb_Info|]. intros i.
  apply tb_bind; [apply tb_lift|]. intros cfg.
  apply tb_bind; [apply tb_Usage|]. intros usage.
  apply tb_bind; [apply tb_call|]. intros _.
  apply tb_bind; [by apply tb_get|]. intros sis.
  apply tb_bind; [apply tb_walkSnapshots|]. intros ss.
  apply tb_bind; [apply tb_bindSizesLoop|]. intros bindSizes.
  intros w. destruct (tb_Task id w) as [Hs Hr]. split.
  - destruct (client.Task id w) as [[task|err] w1]; simpl in *.
    + unfold bind, call, ret.
      destruct (w_faults w1 (OpTaskStatus id)); [done|].
      by destruct (w_faults w1 (OpMetrics id)).
    + by destruct (IsNotFound err).
  - intros w' H. specialize (Hr w' H).
    destruct (tb_Task id w') as [Hs' _].
    destruct (client.Task id w) as [[task|err] w1],
             (client.Task id w') as [[task'|err'] w1']; simpl in *; try congruence.
    + injection Hr as <-.
      assert (Hf : w_faults w1 = w_faults w1').
      { apply (sameState_proj w_faults); [done|]. by rewrite Hs, H, Hs'. }
      unfold bind, call, ret. rewrite <- Hf.
      destruct (w_faults w1 (OpTaskStatus id)); [done|].
      rewrite <- Hf.
      by destruct (w_faults w1 (OpMetrics id)).
    + injection Hr as <-. by destruct (IsNotFound err).
Qed.

Lemma tb_Containers : traceBlind client.Containers.
Proof.
  apply tb_bind; [apply tb_call|]. intros _. by apply tb_get.
Qed.

Lemma listLoop_entries cs : forall resp w w0,
  sameState w w0 ->
  exists w', listLoop cs resp w = (Ok (resp ++ (listEntry w0 <$> cs))%list, w').
Proof.
  induction cs as [|id cs IH]; intros resp w w0 H; simpl.
  - eexists. by rewrite app_nil_r.
  - destruct (tb_info id w) as [Hs Hr]. specialize (Hr w0 H).
    unfold listEntry at 1. rewrite <- Hr.
    destruct (info id w) as [[l|err] w1]; simpl in *.
    + destruct (IH (resp ++ [l]) w1 w0) as [w' Hw']; [by rewrite Hs|].
      exists w'. by rewrite Hw', <- app_assoc.
    + destruct (IH (resp ++ [listError id])
                  (set_trace (w_trace w1 ++ [EvLogError "info container" err]) w1) w0)
        as [w' Hw']; [by rewrite sameState_set_trace, Hs|].
      exists w'. by rewrite Hw', <- app_assoc.
Qed.

End TraceBlind.

(** C7.  When the runtime enumerates its containers, [List] succeeds
    with exactly one entry per container, in order: the container's
    info, or, for each container whose info fails for whatever reason,
    the entry holding only its id and the status "list error". *)
Theorem List_degrades_per_item (w : World) (cs : list string) (w1 : World) :
  client.Containers w = (Ok cs, w1) ->
  exists resp w',
    List w = (Ok resp, w')
    /\ length resp = length cs
    /\ resp = listEntry w <$> cs
    /\ forall i id err,
         cs !! i = Some id -> fst (info id w) = Err err ->
         resp !! i = Some {| v1.info_ID := id; v1.info_Image := ""; v1.Status := "list error";
                             v1.IP := ""; v1.Cpu := 0; v1.MemoryUsage := 0;
                             v1.MemoryLimit := 0; v1.PidUsage := 0; v1.PidLimit := 0;
                             v1.FsSize := 0; v1.Config := None; v1.Snapshots := [] |}.
Proof.
  intros Hcs.
  destruct (tb_Containers w) as [Hs _]. rewrite Hcs in Hs. simpl in Hs.
  destruct (listLoop_entries cs [] w1 w Hs) as [w' Hw'].
  exists (listEntry w <$> cs), w'. split; [|split; [|split]].
  - unfold List, bind. by rewrite Hcs.
  - by rewrite length_fmap.
  - done.
  - intros i id err Hi Herr. rewrite list_lookup_fmap, Hi. simpl.
    unfold listEntry. by rewrite Herr.
Qed.

(** Listing on a node with a sound and a corrupt container. *)
Lemma List_degrades_per_item_witness :
  exists resp w',
    List webAndDbWorld = (Ok resp, w')
    /\ length resp = 2%nat
    /\ resp !! 1%nat = Some (listError "db").
Proof.
  destruct (List_degrades_per_item webAndDbWorld ["web"; "db"] webAndDbWorld eq_refl)
    as (resp & w' & HL & Hlen & _ & Herr).
  exists resp, w'. split; [exact HL|]. split; [exact Hlen|].
  apply (Herr 1%nat "db" (ErrExternal "proto: cannot unmarshal")); reflexivity.
Defined.

(** ** Bind-mount sizes *)

Lemma wrap64_add_l a b : wrap64 (wrap64 a + b) = wrap64 (a + b).
Proof.
  unfold wrap64.
  rewrite <- (Z.add_assoc _ b), (Z.add_comm b), Z.add_assoc, Z.sub_add.
  rewrite Zplus_mod_idemp_l.
  by rewrite <- !Z.add_assoc, (Z.add_comm b).
Qed.

Lemma wrap64_idemp a : wrap64 (wrap64 a) = wrap64 a.
Proof.
  transitivity (wrap64 (wrap64 a + 0)); [by rewrite Z.add_0_r|].
  by rewrite wrap64_add_l, Z.add_0_r.
Qed.

(** Induction on trees, with the hypothesis for every entry of a
    directory. *)
Lemma fnode_rect_entries (P : fnode -> Prop) :
  (forall sz, P (File sz)) ->
  (forall entries, Forall P entries -> P (Dir entries)) ->
  (forall e, P (DirUnreadable e)) ->
  (forall e, P (LstatError e)) ->
  forall n, P n.
Proof.
  intros HF HD HU HL.
  fix IH 1. intros [sz|entries|e|e]; [apply HF| |apply HU|apply HL].
  apply HD. induction entries as [|x l IHl]; constructor; [apply IH|apply IHl].
Qed.

Lemma walk_errorFree n : forall size,
  errorFree n = true -> wrap64 size = size ->
  walk n size = Ok (wrap64 (size + total n)).
Proof.
  induction n as [sz|entries IH|e|e] using fnode_rect_entries;
    intros size Hok Hsize; simpl in *; try discriminate.
  - done.
  - revert size Hsize.
    induction IH as [|x l Hx _ IHl]; intros size Hsize; simpl in *.
    + by rewrite Z.add_0_r, Hsize.
    + apply andb_prop in Hok as [Hx' Hl'].
      rewrite (Hx size Hx' Hsize).
      rewrite (IHl Hl' _ (wrap64_idemp _)).
      rewrite wrap64_add_l. by rewrite Z.add_assoc.
Qed.

Example walk_readable : walk (Dir [File 10; Dir [File 20; File 30]]) 0 = Ok 60.
Proof. reflexivity. Qed.

Lemma bindSizesLoop_unopenable ms : forall size w,
  Forall (fun m => os_Open (v1.Source m) w <> None) ms ->
  exists w', bindSizesLoop ms size w = (Ok size, w') /\ sameState w' w.
Proof.
  induction ms as [|m ms IH]; intros size w H; simpl.
  - by exists w.
  - apply Forall_cons in H as [Hm Hms].
    destruct (os_Open (v1.Source m) w) as [err|] eqn:E; [|done].
    destruct (IH size (set_trace
        (w_trace w ++ [EvLogWarn ("unable to open bind for size " +:+ v1.Source m) err]) w))
      as (w' & Hw' & Hs); [exact Hms|].
    exists w'. split; [exact Hw'|exact Hs].
Qed.

Lemma errorFree_errorsOf n : errorFree n = true <-> errorsOf n = [].
Proof.
  induction n as [sz|entries IH|e|e] using fnode_rect_entries; simpl; try done.
  induction IH as [|x l Hx _ IHl]; simpl; [done|].
  rewrite andb_true_iff, Hx, IHl. split.
  - by intros [-> ->].
  - by intros [? ?]%app_eq_nil.
Qed.

(** A walk fails with the first error that lies in the tree, whatever
    it has summed so far. *)
Lemma walk_first_error n : forall size e es,
  errorsOf n = e :: es -> walk n size = Err e.
Proof.
  induction n as [sz|entries IH|e0|e0] using fnode_rect_entries;
    intros size e es H; simpl in *; try discriminate; try (by injection H as ->).
  revert size. induction IH as [|x l Hx _ IHl]; intros size; simpl in *; [done|].
  destruct (errorsOf x) as [|e1 es1] eqn:Ex.
  - apply errorFree_errorsOf in Ex.
    destruct (walk x size) as [size'|e'] eqn:Ew.
    + by apply IHl.
    + clear IHl. exfalso. revert size e' Ew.
      induction x as [sz|entries IHx|e2|e2] using fnode_rect_entries;
        intros size e' Ew; simpl in *; try discriminate.
      revert size Ew. induction IHx as [|y l' Hy _ IHl']; intros size Ew; simpl in *;
        [discriminate|].
      apply andb_prop in Ex as [Ey El].
      destruct (walk y size) as [s'|e3] eqn:Ey'; [by eapply IHl'|].
      by eapply Hy.
  - simpl in H. injection H as -> _. by rewrite (Hx size e es1 eq_refl).
Qed.

Lemma walk_error_lies_in_tree n : forall size e,
  walk n size = Err e -> exists es, errorsOf n = e :: es.
Proof.
  intros size e H. destruct (errorsOf n) as [|e1 es] eqn:E.
  - exfalso. apply errorFree_errorsOf in E. revert size e H.
    induction n as [sz|entries IH|e2|e2] using fnode_rect_entries;
      intros size e H; simpl in *; try discriminate.
    revert size H. induction IH as [|y l Hy _ IHl]; intros size H; simpl in *;
      [discriminate|].
    apply andb_prop in E as [Ey El].
    destruct (walk y size) as [s'|e3] eqn:Ey'; [by eapply IHl|].
    by eapply Hy.
  - rewrite (walk_first_error n size e1 es E) in H. injection H as ->. by exists es.
Qed.

Lemma walkSnapshots_world id sis : forall ss w, snd (walkSnapshots id sis ss w) = w.
Proof.
  induction sis as [|si sis IH]; intros ss w; simpl; [done|].
  destruct (decide _); [apply IH|].
  unfold client.Usage, bind, call, lookupM, ret.
  destruct (w_faults w (OpUsage (si_Name si))); [done|].
  destruct (client.snapshotByName (si_Name si) w); [|done]. apply IH.
Qed.

(** [info] hands the config of the record to [getBindSizes] in the
    world it was called in, and returns the error of [getBindSizes] if
    there is one; so does [Get]. *)
Lemma info_fails_with_getBindSizes (id : string) (w w1 : World) (rec : containers.Container)
    (cfg : v1.Container) (e : error) :
  w_containers w !! id = Some rec ->
  opts.UnmarshalConfig (opts.ext rec opts.CurrentConfig) = Ok cfg ->
  getBindSizes cfg w = (Err e, w1) ->
  (forall i, fst (info id w) <> Ok i)
  /\ (forall i, fst (Get id w) <> Ok i)
  /\ (w_faults w (OpInfo id) = None ->
      w_faults w (OpUsage (containers.SnapshotKey rec)) = None ->
      is_Some (client.snapshotByName (containers.SnapshotKey rec) w) ->
      w_faults w OpWalk = None ->
      is_ok (fst (walkSnapshots id (w_snapshots w) [] w)) = true ->
      info id w = (Err e, w1)).
Proof.
  intros Hc Hcfg Hb.
  assert (Hinfo : (forall i, fst (info id w) <> Ok i)
                  /\ (w_faults w (OpInfo id) = None ->
                      w_faults w (OpUsage (containers.SnapshotKey rec)) = None ->
                      is_Some (client.snapshotByName (containers.SnapshotKey rec) w) ->
                      w_faults w OpWalk = None ->
                      is_ok (fst (walkSnapshots id (w_snapshots w) [] w)) = true ->
                      info id w = (Err e, w1))).
  { unfold info, client.Info, client.Usage. munfold. simpl.
    destruct (w_faults w (OpInfo id)); simpl; [by split|].
    rewrite Hc. simpl. rewrite Hcfg. simpl.
    destruct (w_faults w (OpUsage _)); simpl; [by split|].
    destruct (client.snapshotByName _ w) as [si|]; simpl; [|split; [done|]; by intros _ _ []].
    destruct (w_faults w OpWalk); simpl; [by split|].
    pose proof (walkSnapshots_world id (w_snapshots w) [] w) as Hw.
    destruct (walkSnapshots id (w_snapshots w) [] w) as [[ss|e'] w'];
      simpl in Hw; subst w'; simpl; [|by split].
    rewrite Hb. by split. }
  destruct Hinfo as [Hi Hrun]. split; [exact Hi|]. split; [|exact Hrun].
  intros i. unfold Get. destruct (decide (id = "")); [done|].
  unfold client.LoadContainer. munfold. simpl.
  destruct (w_faults w (OpLoadContainer id)); simpl; [done|].
  rewrite Hc. simpl. apply Hi.
Qed.

(** C8 (amended).  In the loop of [getBindSizes]: an error opening a
    source is logged and the source skipped, so sources that cannot be
    opened never fail the computation; an error from [Stat] on the
    opened source is returned; a walk of a source directory fails
    exactly when an error lies in the tree (a name that cannot be
    lstat-ed, a directory that cannot be read), with the first of them
    in walk order, and that error is returned too; a [getBindSizes]
    that returns an error fails [info] and [Get]; a directory that
    walks without error adds the sum of the sizes of the
    non-directories below it; any other source adds its own size. *)
Theorem getBindSizes_skips_open_errors_only
    (m : v1.Mount) (ms : list v1.Mount) (size : Z) (w : World) :
  (forall err,
      os_Open (v1.Source m) w = Some err ->
      bindSizesLoop (m :: ms) size w
      = bindSizesLoop ms size
          (set_trace (w_trace w ++
             [EvLogWarn ("unable to open bind for size " +:+ v1.Source m) err]) w))
  /\ (Forall (fun m' => os_Open (v1.Source m') w <> None) (m :: ms) ->
      exists w', bindSizesLoop (m :: ms) size w = (Ok size, w'))
  /\ (forall e,
        os_Open (v1.Source m) w = None -> f_Stat (v1.Source m) w = Err e ->
        bindSizesLoop (m :: ms) size w = (Err e, w))
  /\ (forall n sz e, walk n sz = Err e <-> exists es, errorsOf n = e :: es)
  /\ (forall sz e es,
        os_Open (v1.Source m) w = None -> f_Stat (v1.Source m) w = Ok (true, sz) ->
        errorsOf (treeAt (v1.Source m) w) = e :: es ->
        bindSizesLoop (m :: ms) size w = (Err e, w))
  /\ (forall id rec cfg e w1,
        w_containers w !! id = Some rec ->
        opts.UnmarshalConfig (opts.ext rec opts.CurrentConfig) = Ok cfg ->
        getBindSizes cfg w = (Err e, w1) ->
        forall i, fst (info id w) <> Ok i /\ fst (Get id w) <> Ok i)
  /\ (forall sz,
        os_Open (v1.Source m) w = None -> f_Stat (v1.Source m) w = Ok (true, sz) ->
        errorFree (treeAt (v1.Source m) w) = true -> wrap64 size = size ->
        bindSizesLoop (m :: ms) size w
        = bindSizesLoop ms (wrap64 (size + total (treeAt (v1.Source m) w))) w)
  /\ (forall sz,
        os_Open (v1.Source m) w = None -> f_Stat (v1.Source m) w = Ok (false, sz) ->
        bindSizesLoop (m :: ms) size w = bindSizesLoop ms (add64 size sz) w).
Proof.
  split; [|split; [|split; [|split; [|split; [|split; [|split]]]]]].
  - intros err Ho. simpl. by rewrite Ho.
  - intros H. destruct (bindSizesLoop_unopenable (m :: ms) size w H) as (w' & Hw' & _).
    by exists w'.
  - intros e Ho Hs. simpl. by rewrite Ho, Hs.
  - intros n sz e. split.
    + apply walk_error_lies_in_tree.
    + intros [es H]. by apply (walk_first_error n sz e es).
  - intros sz e es Ho Hs He. simpl.
    by rewrite Ho, Hs, (walk_first_error _ size e es He).
  - intros id rec cfg e w1 Hrec Hcfg Hb i.
    split; by apply (info_fails_with_getBindSizes id w w1 rec cfg e).
  - intros sz Ho Hs Hok Hsize. simpl.
    by rewrite Ho, Hs, (walk_errorFree _ size Hok Hsize).
  - intros sz Ho Hs. simpl. by rewrite Ho, Hs.
Qed.

(** Bind sizes of a source that cannot be opened, of one that holds an
    unreadable subdirectory, of one in which a name has vanished (the
    info of the container then fails) and of one that walks to the
    end. *)
Lemma getBindSizes_skips_open_errors_only_witness :
  (exists w', getBindSizes (withMounts [bindMount "/srv/data"] webConfig) (bindWorld unopenable)
              = (Ok 0, w'))
  /\ getBindSizes (withMounts [bindMount "/srv/data"] webConfig) (bindWorld unreadableSubdir)
     = (Err permissionDenied, bindWorld unreadableSubdir)
  /\ getBindSizes (withMounts [bindMount "/srv/data"] webConfig) (bindWorld vanishedName)
     = (Err noSuchFile, bindWorld vanishedName)
  /\ (forall i, fst (Get "web" (bindWorld vanishedName)) <> Ok i)
  /\ getBindSizes (withMounts [bindMount "/srv/data"] webConfig) (bindWorld readableTree)
     = (Ok 60, bindWorld readableTree).
Proof.
  split; [|split; [|split; [|split]]].
  - apply (getBindSizes_skips_open_errors_only
             (bindMount "/srv/data") [] 0 (bindWorld unopenable)).
    repeat constructor. discriminate.
  - destruct (getBindSizes_skips_open_errors_only
                (bindMount "/srv/data") [] 0 (bindWorld unreadableSubdir))
      as (_ & _ & _ & _ & H & _).
    apply (H 4096 permissionDenied []); reflexivity.
  - destruct (getBindSizes_skips_open_errors_only
                (bindMount "/srv/data") [] 0 (bindWorld vanishedName))
      as (_ & _ & _ & _ & H & _).
    apply (H 4096 noSuchFile []); reflexivity.
  - intros i.
    destruct (getBindSizes_skips_open_errors_only
                (bindMount "/srv/data") [] 0 (bindWorld vanishedName))
      as (_ & _ & _ & _ & _ & H & _).
    apply (H "web" (recordOf (withMounts [bindMount "/srv/data"] webConfig)
                      {[ opts.CurrentConfig :=
                           opts.marshal (withMounts [bindMount "/srv/data"] webConfig) ]})
             (withMounts [bindMount "/srv/data"] webConfig) noSuchFile
             (bindWorld vanishedName)); reflexivity.
  - destruct (getBindSizes_skips_open_errors_only
                (bindMount "/srv/data") [] 0 (bindWorld readableTree))
      as (_ & _ & _ & _ & _ & _ & H & _).
    apply (H 4096); reflexivity.
Defined.

(** C8 as stated fails: a permission error below a bind-mount source
    that opens makes the info, and so [Get], fail. *)
Lemma Get_fails_on_unreadable_subdirectory :
  Get "web" (bindWorld unreadableSubdir) = (Err permissionDenied, bindWorld unreadableSubdir).
Proof. reflexivity. Qed.

(** ** Store reads *)

(** C9.  A missing [volume-root] key reads as the empty string and
    [Create] goes on to build the container with it; a registry that is
    not a member of [plain-remotes] (the key missing included) gives a
    resolver with plain HTTP off, which is what [Pull] then uses; an
    error of the store call other than the nil-reply marker is returned
    to the caller by both reads. *)
Theorem store_reads_missing_key_is_empty (w : World) :
  (w_faults w (OpDo "GET") = None -> w_kv w !! v1.VolumeRootKey = None ->
   volumeRoot w = (Ok "", w))
  /\ (forall container update image w1 e w2,
        Pull (v1.Image container) w = (Ok image, w1) ->
        client.LoadContainer (v1.ID container) w1 = (Err e, w2) ->
        w_faults w2 (OpDo "GET") = None -> w_kv w2 !! v1.VolumeRootKey = None ->
        Create container update w
        = (let* c := client.NewContainer (v1.ID container)
                       [flux.WithNewSnapshot image;
                        opts.WithBossConfig "" container image] in
           let* _ := orElse (store_Write container)
                       (ignore_ (client.Delete c WithSnapshotCleanup)) in
           let* _ := systemd.Enable c in
           systemd.Start c) w2)
  /\ (forall ref,
        w_faults w (OpDo "SISMEMBER") = None ->
        match w_kv w !! v1.PlainRemotesKey with
        | None => True
        | Some (KSet ms) => remoteOf ref ∉ ms
        | Some (KString _) => False
        end ->
        withPlainRemote ref w = (Ok false, w)
        /\ Pull ref w = (let* _ := invoke (EvPull ref false) (OpPull ref) in ret ref) w)
  /\ (forall e,
        w_faults w (OpDo "GET") = Some e -> e <> ErrNil ->
        volumeRoot w = (Err e, w))
  /\ (forall ref e,
        w_faults w (OpDo "SISMEMBER") = Some e -> e <> ErrNil ->
        withPlainRemote ref w = (Err e, w)).
Proof.
  split; [|split; [|split; [|split]]].
  - intros Hf Hk. unfold volumeRoot, doLocal, conn_Do. simpl. by rewrite Hf, Hk.
  - intros container update image w1 e w2 HP HL Hf Hk.
    unfold Create, bind at 1. rewrite HP, HL.
    unfold bind at 1. unfold volumeRoot, doLocal, conn_Do. simpl. by rewrite Hf, Hk.
  - intros ref Hf Hk.
    assert (H : withPlainRemote ref w = (Ok false, w)).
    { unfold withPlainRemote, doLocal, conn_Do. simpl. rewrite Hf.
      destruct (w_kv w !! v1.PlainRemotesKey) as [[s|ms]|]; [done| |done].
      by rewrite bool_decide_eq_false_2. }
    split; [exact H|]. unfold Pull, bind at 1. by rewrite H.
  - intros e Hf He. unfold volumeRoot, doLocal, conn_Do. simpl. rewrite Hf.
    by destruct e.
  - intros ref e Hf He. unfold withPlainRemote, doLocal, conn_Do. simpl. rewrite Hf.
    by destruct e.
Qed.

(** Store reads on a node whose store holds neither key, and on one
    whose store cannot be reached. *)
Lemma store_reads_missing_key_is_empty_witness :
  volumeRoot bareWorld = (Ok "", bareWorld)
  /\ withPlainRemote "localhost:5000/x:1" bareWorld = (Ok false, bareWorld)
  /\ (exists w', Create webConfig false bareWorld = (Ok tt, w')
                 /\ EvNewSpec "web" "" ∈ w_trace w'
                 /\ EvPull "r/nginx:1" false ∈ w_trace w')
  /\ volumeRoot (set_faults storeDown bareWorld)
     = (Err connectionRefused, set_faults storeDown bareWorld)
  /\ withPlainRemote "localhost:5000/x:1" (set_faults storeDown bareWorld)
     = (Err connectionRefused, set_faults storeDown bareWorld).
Proof.
  destruct (store_reads_missing_key_is_empty bareWorld) as (H1 & H2 & H3 & _).
  destruct (store_reads_missing_key_is_empty (set_faults storeDown bareWorld))
    as (_ & _ & _ & H4 & H5).
  split; [by apply H1|].
  split; [by apply (H3 "localhost:5000/x:1")|].
  split.
  - exists (snd (Create webConfig false bareWorld)). split.
    + rewrite (H2 webConfig false "r/nginx:1"
                 (set_trace [EvPull "r/nginx:1" false] bareWorld) ErrNotFound
                 (set_trace [EvPull "r/nginx:1" false] bareWorld));
        vm_compute; reflexivity.
    + split; apply list_elem_of_In; vm_compute; tauto.
  - split.
    + by apply H4.
    + by apply H5.
Defined.

(** ** Rollback *)

Lemma Rollback_run (id : string) (w : World) (c0 : containers.Container) (t : task) :
  id <> "" ->
  w_containers w !! id = Some c0 ->
  containers.ID c0 = id ->
  w_tasks w !! id = Some t ->
  w_faults w OpLease = None ->
  w_faults w (OpLoadContainer id) = None ->
  w_faults w (OpTask id) = None ->
  w_faults w (OpPause id) = None ->
  w_faults w (OpFluxRollback id) = None ->
  w_faults w (OpContainerUpdate id) = None ->
  w_faults w (OpKill id SIGTERM) = None ->
  exists c1 w',
    fst (opts.WithRollback c0 w) = Ok c1
    /\ Rollback id w = (Ok tt, w')
    /\ w_containers w' = <[id := c1]> (w_containers w)
    /\ w_trace w' = w_trace w ++ [EvPause id; EvFluxRollback id; EvKill id SIGTERM;
                                  EvResume id; EvLeaseDone].
Proof.
  intros Hid Hc HID Ht HL HLoad HTask HPause HFlux HUpd HKill.
  unfold Rollback. destruct (decide (id = "")) as [|_]; [done|].
  unfold client.WithLease, client.LoadContainer, pauseAndRun, client.Task,
    client.Update, client.Kill, client.applyOpts, flux.WithRollback, client.done.
  unfold opts.WithRollback.
  destruct (types.Value (opts.ext c0 opts.LastConfig)) eqn:EV.
  - eexists. eexists. split; [reflexivity|]. mrun.
    destruct (w_faults w (OpResume id)); simpl;
      (split; [reflexivity|]); simpl; by rewrite <- !app_assoc.
  - eexists. eexists. split; [reflexivity|]. mrun.
    destruct (w_faults w (OpResume id)); simpl;
      (split; [reflexivity|]); simpl; by rewrite <- !app_assoc.
Qed.

Lemma ext_set_same k v (c0 : containers.Container) :
  opts.ext (opts.set_Extensions (<[k := v]> (containers.Extensions c0)) c0) k = v.
Proof. unfold opts.ext. simpl. by rewrite lookup_insert_eq. Qed.

Lemma ext_set_other k k' v (c0 : containers.Container) :
  k <> k' ->
  opts.ext (opts.set_Extensions (<[k := v]> (containers.Extensions c0)) c0) k'
  = opts.ext c0 k'.
Proof. intros H. unfold opts.ext. simpl. by rewrite lookup_insert_ne. Qed.

Lemma WithRollback_result (c0 : containers.Container) (w : World) :
  exists c1,
    opts.WithRollback c0 w = (Ok c1, w)
    /\ opts.ext c1 opts.LastConfig = opts.ext c0 opts.LastConfig
    /\ (types.Value (opts.ext c0 opts.LastConfig) = None -> c1 = c0)
    /\ (types.Value (opts.ext c0 opts.LastConfig) <> None ->
        opts.ext c1 opts.CurrentConfig = opts.ext c0 opts.LastConfig).
Proof.
  unfold opts.WithRollback.
  destruct (types.Value (opts.ext c0 opts.LastConfig)) eqn:EV.
  - eexists. split; [reflexivity|]. split; [|split]; [|done|].
    + by apply ext_set_other.
    + intros _. apply ext_set_same.
  - exists c0. by repeat split.
Qed.

Lemma configChange_run (id : string) new vr (w w1 : World) (c0 : containers.Container) :
  w_containers w !! id = Some c0 ->
  change_update (configChange new vr) id w = (Ok tt, w1) ->
  exists c1,
    w_containers w1 = <[id := c1]> (w_containers w)
    /\ w_tasks w1 = w_tasks w
    /\ w_faults w1 = w_faults w
    /\ containers.ID c1 = containers.ID c0
    /\ opts.ext c1 opts.CurrentConfig = opts.marshal new
    /\ opts.ext c1 opts.LastConfig = opts.ext c0 opts.CurrentConfig.
Proof.
  intros Hc H.
  unfold change_update, client.Update, client.applyOpts, opts.WithSetPreviousConfig,
    opts.WithBossConfig, opts.WithContainerExtension in H.
  munfold_in H. cases_in H. injection H as <-.
  eexists. split; [reflexivity|]. repeat split.
  - unfold opts.ext. simpl. by rewrite lookup_insert_eq.
  - unfold opts.ext. simpl. rewrite lookup_insert_ne by done. by rewrite lookup_insert_eq.
Qed.

(** C2 as stated fails: after a rollback the last config is still the
    one from before, not the config that was current when the rollback
    began; the two extensions end up equal, not swapped. *)
Lemma Rollback_does_not_swap :
  match Rollback "web" updatedWebWorld with
  | (Ok _, w') =>
      match w_containers w' !! "web" with
      | Some c1 =>
          opts.ext updatedWebRecord opts.CurrentConfig = opts.marshal webConfig2
          /\ opts.ext c1 opts.LastConfig <> opts.marshal webConfig2
          /\ opts.ext c1 opts.LastConfig = opts.ext c1 opts.CurrentConfig
      | None => False
      end
  | (Err _, _) => False
  end.
Proof.
  vm_compute. split; [reflexivity|]. split; [discriminate|reflexivity].
Qed.

(** ** Update *)

(** C3 (amended).  When the part of [Update] up to the wait has
    succeeded on a container with a task, and the ten-second context is
    done before the task exits, [Update] sends SIGKILL to the task and
    returns what that kill returns: no error when the kill succeeds,
    the kill's error otherwise. *)
Theorem Update_timeout_returns_kill_result
    (container : v1.Container) (w w0 w1 : World) (id : string) (t : task) :
  client.WithLease w = (Ok tt, w0) ->
  updateApply container w0 = (Ok (id, Some t), w1) ->
  w_select w1 = ContextDone ->
  Update container w
  = (match w_faults w1 (OpKill id SIGKILL) with
     | Some e => Err e
     | None => Ok tt
     end,
     set_trace (w_trace w1 ++ [EvKill id SIGKILL; EvLeaseDone]) w1).
Proof.
  intros HL HA HS.
  unfold Update, bind at 1. rewrite HL.
  unfold defer_, bind at 1. rewrite HA.
  unfold updateWait, client.Kill, client.done. mrun.
  destruct (w_faults w1 (OpKill id SIGKILL)); simpl; by rewrite <- app_assoc.
Qed.

(** Update of [web] to image 2 with a task that ignores SIGTERM. *)
Lemma Update_timeout_returns_kill_result_witness :
  exists w',
    Update webConfig2 (timeoutWorld noFaults) = (Ok tt, w')
    /\ w_trace w' = [EvPause "web"; EvPull "r/nginx:2" false;
                     EvNewSpec "web" ""; EvStoreWrite "web"; EvKill "web" SIGTERM;
                     EvResume "web"; EvKill "web" SIGKILL; EvLeaseDone].
Proof.
  eexists. split.
  - apply (Update_timeout_returns_kill_result webConfig2 (timeoutWorld noFaults)
             (timeoutWorld noFaults)
             (snd (updateApply webConfig2 (timeoutWorld noFaults)))
             "web" runningTask); vm_compute; reflexivity.
  - vm_compute; reflexivity.
Defined.

(** C3 as stated fails: the change list succeeds, the task does not
    exit in time, SIGKILL is sent, and [Update] returns the error of
    that kill. *)
Lemma Update_timeout_can_fail :
  match Update webConfig2 (timeoutWorld sigkillFails) with
  | (r, w') =>
      r = Err noSuchProcess
      /\ w_trace w' = [EvPause "web"; EvPull "r/nginx:2" false;
                       EvNewSpec "web" ""; EvStoreWrite "web"; EvKill "web" SIGTERM;
                       EvResume "web"; EvKill "web" SIGKILL; EvLeaseDone]
  end.
Proof. vm_compute. split; reflexivity. Qed.

(** ** Checkpoint and restore *)

Lemma Checkpoint_index (req : CheckpointRequest) (w w1 : World) :
  ck_Live req = false ->
  Checkpoint req w = (Ok tt, w1) ->
  exists d d0 d1,
    w_images w1 !! ck_Ref req
    = Some {| ispec.MediaType := ispec.MediaTypeImageIndex; ispec.Digest := d;
              ispec.Platform_ := None |}
    /\ w_content w1 !! d
       = Some (BIndex
                 {| ispec.SchemaVersion := 2;
                    ispec.Manifests :=
                      [ {| ispec.MediaType := MediaTypeContainerInfo; ispec.Digest := d0;
                           ispec.Platform_ := hostPlatform |};
                        {| ispec.MediaType := ispec.MediaTypeImageLayer; ispec.Digest := d1;
                           ispec.Platform_ := hostPlatform |} ] |}).
Proof.
  intros Hlive H. unfold Checkpoint in H. rewrite Hlive in H.
  destruct (decide (ck_ID req = "")); [discriminate|].
  repeat (progress unfold client.WithLease, client.LoadContainer, client.Info, json_Marshal,
            writeContent, pauseAndRun, client.Task, CreateDiff, writeIndex,
            client.ImageCreate, systemd.Stop, client.done, withPlatform in H).
  munfold_in H.
  destruct (ck_Exit req); cases_in H; injection H as <-; simpl;
    eexists; eexists; eexists; (split; [apply lookup_insert_eq|]);
    by apply list_lookup_middle.
Qed.

Lemma Restore_needs_gzip_layer (w : World) (ref : string) (live : bool)
    (desc : ispec.Descriptor) (idx : ispec.Index) :
  w_faults w (OpGetImage ref) = None ->
  w_images w !! ref = Some desc ->
  w_content w !! ispec.Digest desc = Some (BIndex idx) ->
  getByMediaType idx ispec.MediaTypeImageLayerGzip = Err errMediaTypeNotFound ->
  fst (Restore {| rs_Ref := ref; rs_Live := live |} w) <> Ok tt.
Proof.
  intros Hget Himg Hcontent Hgz.
  destruct (Restore {| rs_Ref := ref; rs_Live := live |} w) as [r w'] eqn:H.
  simpl. intros ->.
  unfold Restore in H. simpl in H.
  destruct (decide (ref = "")); [discriminate|].
  repeat (progress unfold client.GetImage, Fetch, decodeIndex, client.ReadBlob,
            opts.GetConfigFromInfo, Pull, withPlainRemote, volumeRoot, doLocal, conn_Do,
            client.NewContainer, client.applyOpts, flux.WithNewSnapshot,
            opts.WithBossConfig, opts.WithContainerExtension, opts.WithRestore,
            client.Info, client.Mounts, client.DiffApply, store_Write, client.Delete,
            systemd.Enable, systemd.Start in H).
  munfold_in H.
  destruct live; cases_in H.
Qed.

(** C1 on the code.  [Checkpoint] asks the diff service for a layer of
    media type [MediaTypeImageLayer] (an uncompressed tar), so the index
    of a checkpoint that is not live holds the info blob and a layer of
    that type and nothing else; [Restore] looks for a layer of type
    [MediaTypeImageLayerGzip].  Whatever world the index and its image
    are later found in, a [Restore] of the checkpoint's ref from the
    local image service does not succeed. *)
Theorem Restore_of_Checkpoint_never_succeeds
    (req : CheckpointRequest) (w w1 w2 : World) (live : bool) :
  ck_Live req = false ->
  Checkpoint req w = (Ok tt, w1) ->
  w_images w2 = w_images w1 ->
  w_content w2 = w_content w1 ->
  w_faults w2 (OpGetImage (ck_Ref req)) = None ->
  fst (Restore {| rs_Ref := ck_Ref req; rs_Live := live |} w2) <> Ok tt.
Proof.
  intros Hlive Hck Himg Hcontent Hget.
  destruct (Checkpoint_index req w w1 Hlive Hck) as (d & d0 & d1 & Hi & Hc).
  rewrite <- Himg in Hi. rewrite <- Hcontent in Hc.
  by eapply (Restore_needs_gzip_layer w2 (ck_Ref req) live _ _ Hget Hi Hc).
Qed.

(** [web] is checkpointed, deleted and restored on a node where
    nothing else fails, and the restore stops at the lookup of the rw
    layer. *)
Lemma Restore_of_Checkpoint_never_succeeds_witness :
  fst (Restore restoreWeb (snd (Delete "web" (snd (Checkpoint checkpointWeb webWorld)))))
  <> Ok tt
  /\ match checkpointDeleteRestore webWorld with
     | (r, w') =>
         r = Err errMediaTypeNotFound
         /\ w_trace w'
            = [EvPause "web";
               EvDiffCreate "web" "checkpoint-rw-web" "application/vnd.oci.image.layer.v1.tar";
               EvResume "web"; EvStop "web"; EvLeaseDone;
               EvStop "web"; EvDisable "web"; EvNetworkRemove "web";
               EvContainerDelete "web" WithRevisionCleanup;
               EvPull "r/nginx:1" false; EvNewSpec "web" ""]
     end.
Proof.
  split.
  - apply (Restore_of_Checkpoint_never_succeeds checkpointWeb webWorld
             (snd (Checkpoint checkpointWeb webWorld))
             (snd (Delete "web" (snd (Checkpoint checkpointWeb webWorld)))) false);
      vm_compute; reflexivity.
  - vm_compute. split; reflexivity.
Defined.

(** C4 on the code.  [Restore] deletes the container it created only
    when persisting the config fails.  When the rw layer is not found
    in the index, when applying the diff fails, or when starting the
    unit fails, the error is returned and the new container stays. *)
Theorem Restore_leaves_container_behind :
  match checkpointDeleteRestore webWorld with
  | (r, w') =>
      r = Err errMediaTypeNotFound
      /\ is_Some (w_containers w' !! "web")
      /\ EvContainerDelete "web" WithSnapshotCleanup ∉ w_trace w'
  end
  /\ match Restore restoreWeb (gzipCheckpointWorld applyFails) with
     | (r, w') =>
         r = Err (ErrExternal "apply: unexpected EOF")
         /\ is_Some (w_containers w' !! "web")
         /\ EvContainerDelete "web" WithSnapshotCleanup ∉ w_trace w'
     end
  /\ match Restore restoreWeb (gzipCheckpointWorld startFails) with
     | (r, w') =>
         r = Err (ErrExternal "systemd: unit failed")
         /\ is_Some (w_containers w' !! "web")
         /\ EvContainerDelete "web" WithSnapshotCleanup ∉ w_trace w'
     end
  /\ match Restore restoreWeb (gzipCheckpointWorld storeWriteFails) with
     | (r, w') =>
         r = Err (ErrExternal "consul: no leader")
         /\ w_containers w' !! "web" = None
         /\ EvContainerDelete "web" WithSnapshotCleanup ∈ w_trace w'
     end.
Proof.
  split; [|split; [|split]]; vm_compute;
    (split; [reflexivity|]); split;
    try (eexists; reflexivity); try reflexivity;
    try (intros Hin; apply list_elem_of_In in Hin; simpl in Hin;
         repeat (destruct Hin as [Hin|Hin]; [discriminate Hin|]); exact Hin).
  apply list_elem_of_In. simpl. tauto.
Qed.

(** ** Migration *)

Section Steady.

Lemma steady_ret {A} (a : A) : steady (ret a).
Proof. intros w. split; [done|]. exists []. by rewrite app_nil_r. Qed.

Lemma steady_fail {A} e : steady (@fail A e).
Proof. intros w. split; [done|]. exists []. by rewrite app_nil_r. Qed.

Lemma steady_lift {A} (r : result A) : steady (lift r).
Proof. intros w. split; [done|]. exists []. by rewrite app_nil_r. Qed.

Lemma steady_get {A} (f : World -> A) : steady (get f).
Proof. intros w. split; [done|]. exists []. by rewrite app_nil_r. Qed.

Lemma steady_lookupM {A} (f : World -> option A) : steady (lookupM f).
Proof.
  intros w. unfold lookupM.
  destruct (f w); (split; [done|]); exists []; by rewrite app_nil_r.
Qed.

Lemma steady_call op : steady (call op).
Proof.
  intros w. unfold call.
  destruct (w_faults w op); (split; [done|]); exists []; by rewrite app_nil_r.
Qed.

Lemma steady_emit ev : steady (emit ev).
Proof. intros w. split; [done|]. by exists [ev]. Qed.

Lemma steady_modify (f : World -> World) :
  (forall w, w_faults (f w) = w_faults w) ->
  (forall w, w_trace (f w) = w_trace w) ->
  steady (modify f).
Proof.
  intros Hf Ht w. split; [apply Hf|]. exists []. simpl. by rewrite Ht, app_nil_r.
Qed.

Lemma steady_bind {A B} (m : M A) (k : A -> M B) :
  steady m -> (forall a, steady (k a)) -> steady (bind m k).
Proof.
  intros Hm Hk w. unfold bind. destruct (Hm w) as [Hf [t Ht]].
  destruct (m w) as [[a|e] w1]; simpl in *; [|by eauto].
  destruct (Hk a w1) as [Hf1 [t1 Ht1]]. split; [congruence|].
  exists (t ++ t1). by rewrite Ht1, Ht, app_assoc.
Qed.

(** After any handler step, the same two facts about the world the
    next step starts in. *)
Lemma steady_then {A} (m : M A) (k : World -> World) :
  steady m ->
  (forall w, w_faults (k w) = w_faults w /\ exists t, w_trace (k w) = w_trace w ++ t) ->
  forall w, w_faults (k (snd (m w))) = w_faults w
            /\ exists t, w_trace (k (snd (m w))) = w_trace w ++ t.
Proof.
  intros Hm Hk w. destruct (Hm w) as [Hf [t Ht]].
  destruct (Hk (snd (m w))) as [Hf1 [t1 Ht1]]. split; [congruence|].
  exists (t ++ t1). by rewrite Ht1, Ht, app_assoc.
Qed.

Lemma steady_defer {A} (d : M unit) (body : M A) :
  steady d -> steady body -> steady (defer_ d body).
Proof.
  intros Hd Hb w. unfold defer_.
  destruct (steady_then body (fun v => snd (d v)) Hb Hd w) as [Hf Ht].
  by destruct (body w).
Qed.

Lemma steady_ignore {A} (m : M A) : steady m -> steady (ignore_ m).
Proof. intros Hm w. apply (Hm w). Qed.

Lemma steady_wrapped {A} msg (m : M A) : steady m -> steady (wrapped msg m).
Proof.
  intros Hm w. unfold wrapped. specialize (Hm w). by destruct (m w) as [[a|e] w1].
Qed.

Lemma steady_logged what (m : M unit) : steady m -> steady (logged what m).
Proof.
  intros Hm w. unfold logged. destruct (Hm w) as [Hf [t Ht]].
  destruct (m w) as [[a|e] w1]; simpl in *; [by eauto|].
  split; [done|]. exists (t ++ [EvLogError what e]). by rewrite Ht, app_assoc.
Qed.

Lemma steady_orElse {A} (m : M A) (cleanup : M unit) :
  steady m -> steady cleanup -> steady (orElse m cleanup).
Proof.
  intros Hm Hc w. unfold orElse.
  destruct (steady_then m (fun v => snd (cleanup v)) Hm Hc w) as [Hf Ht].
  specialize (Hm w). by destruct (m w) as [[a|e] w1].
Qed.

Lemma steady_forM {A} (l : list A) (f : A -> M unit) :
  (forall a, steady (f a)) -> steady (forM_ l f).
Proof.
  intros Hf. induction l as [|x l IH]; simpl; [apply steady_ret|].
  apply steady_bind; [apply Hf|]. intros _. apply IH.
Qed.

Lemma steady_invoke ev op : steady (invoke ev op).
Proof. apply steady_bind; [apply steady_emit|]. intros _. apply steady_call. Qed.

Lemma steady_conn_Do cmd : steady (conn_Do cmd).
Proof.
  intros w. unfold conn_Do.
  destruct (w_faults w (OpDo (redis.name cmd))).
  { split; [done|]. exists []. by rewrite app_nil_r. }
  destruct cmd as [k|k m|h p].
  - destruct (w_kv w !! k) as [[]|]; (split; [done|]); exists []; by rewrite app_nil_r.
  - destruct (w_kv w !! k) as [[]|]; (split; [done|]); exists []; by rewrite app_nil_r.
  - split; [done|]. by exists [EvSlaveOf h p].
Qed.

Lemma steady_withPlainRemote ref : steady (withPlainRemote ref).
Proof.
  intros w. unfold withPlainRemote, doLocal.
  destruct (steady_conn_Do (redis.SISMEMBER v1.PlainRemotesKey (remoteOf ref)) w) as [Hf Ht].
  destruct (conn_Do _ w) as [r w1]. simpl in *.
  destruct (redis.Bool r) as [b|[]]; done.
Qed.

Lemma steady_volumeRoot : steady volumeRoot.
Proof.
  intros w. unfold volumeRoot, doLocal.
  destruct (steady_conn_Do (redis.GET v1.VolumeRootKey) w) as [Hf Ht].
  destruct (conn_Do _ w) as [r w1]. simpl in *.
  destruct (redis.String r) as [b|[]]; done.
Qed.

Lemma steady_pauseAndRun {A} id (fn : M A) : steady fn -> steady (pauseAndRun id fn).
Proof.
  intros Hfn w. unfold pauseAndRun.
  assert (HT : steady (client.Task id)).
  { apply steady_bind; [apply steady_call|]. intros _. apply steady_lookupM. }
  destruct (HT w) as [Hf [t Ht]].
  destruct (client.Task id w) as [[tk|e] w1]; simpl in *.
  - assert (Hrest : steady (let* _ := invoke (EvPause id) (OpPause id) in
                            let* r := fn in
                            let* _ := ignore_ (invoke (EvResume id) (OpResume id)) in
                            ret r)).
    { apply steady_bind; [apply steady_invoke|]. intros _.
      apply steady_bind; [apply Hfn|]. intros r.
      apply steady_bind; [apply steady_ignore, steady_invoke|]. intros _.
      apply steady_ret. }
    destruct (Hrest w1) as [Hf1 [t1 Ht1]]. split; [congruence|].
    exists (t ++ t1). by rewrite Ht1, Ht, app_assoc.
  - destruct (IsNotFound e); [|by eauto].
    destruct (Hfn w1) as [Hf1 [t1 Ht1]]. split; [congruence|].
    exists (t ++ t1). by rewrite Ht1, Ht, app_assoc.
Qed.

End Steady.

(** One step of a proof that a handler is [steady]. *)
Ltac steady_step :=
  lazymatch goal with
  | |- steady (ret _) => apply steady_ret
  | |- steady (fail _) => apply steady_fail
  | |- steady (lift _) => apply steady_lift
  | |- steady (get _) => apply steady_get
  | |- steady (lookupM _) => apply steady_lookupM
  | |- steady (call _) => apply steady_call
  | |- steady (emit _) => apply steady_emit
  | |- steady (invoke _ _) => apply steady_invoke
  | |- steady (withPlainRemote _) => apply steady_withPlainRemote
  | |- steady volumeRoot => apply steady_volumeRoot
  | |- steady (modify _) => apply steady_modify; [done|done]
  | |- steady (bind _ _) => apply steady_bind; [|intros ?]
  | |- steady (defer_ _ _) => apply steady_defer
  | |- steady (ignore_ _) => apply steady_ignore
  | |- steady (wrapped _ _) => apply steady_wrapped
  | |- steady (logged _ _) => apply steady_logged
  | |- steady (orElse _ _) => apply steady_orElse
  | |- steady (forM_ _ _) => apply steady_forM; intros ?
  | |- steady (pauseAndRun _ _) => apply steady_pauseAndRun
  | |- steady (if decide ?P is left _ then _ else _) => destruct (decide P)
  | |- steady (match ?x with _ => _ end) => destruct x
  end.

Ltac steady_tac := repeat steady_step.

Lemma steady_Push ref : steady (Push ref).
Proof.
  unfold Push, client.GetImage, client_Push.
  steady_tac.
Qed.

Lemma steady_Delete id : steady (Delete id).
Proof.
  unfold Delete, client.LoadContainer, systemd.Stop, systemd.Disable, opts.GetConfig,
    client.Info, GetNetwork, register.Deregister, client.Delete.
  steady_tac.
Qed.

Lemma steady_Checkpoint req : steady (Checkpoint req).
Proof.
  unfold Checkpoint, client.WithLease, client.done, client.LoadContainer, client.Info,
    writeIndex, writeContent, CreateDiff, TaskCheckpoint, client.ImageCreate,
    systemd.Stop, json_Marshal.
  steady_tac.
Qed.

Lemma steady_ImageDelete name : steady (client.ImageDelete name).
Proof. unfold client.ImageDelete. steady_tac. Qed.

(** What the deferred delete of [Migrate] leaves, whatever its body
    did. *)
Lemma deferred_ImageDelete {A} (ref : string) (body : M A) (w : World) :
  steady body ->
  exists t,
    w_trace (snd (defer_ (ignore_ (client.ImageDelete ref)) body w))
    = w_trace w ++ t ++ [EvImageDelete ref]
    /\ w_faults (snd (defer_ (ignore_ (client.ImageDelete ref)) body w)) = w_faults w
    /\ fst (defer_ (ignore_ (client.ImageDelete ref)) body w) = fst (body w)
    /\ (w_faults w (OpImageDelete ref) = None ->
        w_images (snd (defer_ (ignore_ (client.ImageDelete ref)) body w)) !! ref = None).
Proof.
  intros Hb. unfold defer_. destruct (Hb w) as [Hf [t Ht]].
  destruct (body w) as [r wb]. simpl in *.
  exists t.
  unfold ignore_, client.ImageDelete. munfold. simpl. rewrite Hf.
  destruct (w_faults w (OpImageDelete ref)); simpl.
  - rewrite Ht, app_assoc. by repeat split.
  - destruct (w_images wb !! ref) eqn:E; simpl;
      rewrite Ht, app_assoc; repeat split; try done.
    intros _. apply lookup_delete_eq.
Qed.

(** * Further properties of the handlers and their helpers *)

(** ** Frame lemmas: what a computation leaves alone *)

Section Keeps.
Context {B : Type} (f : World -> B).
Hypothesis f_trace : forall t w, f (set_trace t w) = f w.

Lemma keeps_ret {A} (a : A) : keeps f (ret a).
Proof. by intros w. Qed.

Lemma keeps_fail {A} e : keeps f (@fail A e).
Proof. by intros w. Qed.

Lemma keeps_lift {A} (r : result A) : keeps f (lift r).
Proof. by intros w. Qed.

Lemma keeps_get {A} (g : World -> A) : keeps f (get g).
Proof. by intros w. Qed.

Lemma keeps_lookupM {A} (g : World -> option A) : keeps f (lookupM g).
Proof. intros w. unfold lookupM. by destruct (g w). Qed.

Lemma keeps_call op : keeps f (call op).
Proof. intros w. unfold call. by destruct (w_faults w op). Qed.

Lemma keeps_emit ev : keeps f (emit ev).
Proof. intros w. apply f_trace. Qed.

Lemma keeps_modify (g : World -> World) : (forall w, f (g w) = f w) -> keeps f (modify g).
Proof. intros Hg w. apply Hg. Qed.

Lemma keeps_bind {A C} (m : M A) (k : A -> M C) :
  keeps f m -> (forall a, keeps f (k a)) -> keeps f (bind m k).
Proof.
  intros Hm Hk w. unfold bind. specialize (Hm w).
  destruct (m w) as [[a|e] w1]; simpl in *; [|done].
  by rewrite (Hk a w1).
Qed.

Lemma keeps_defer {A} (d : M unit) (body : M A) :
  keeps f d -> keeps f body -> keeps f (defer_ d body).
Proof.
  intros Hd Hb w. unfold defer_. specialize (Hb w).
  destruct (body w) as [r w1]. simpl in *. by rewrite (Hd w1).
Qed.

Lemma keeps_ignore {A} (m : M A) : keeps f m -> keeps f (ignore_ m).
Proof. intros Hm w. apply (Hm w). Qed.

Lemma keeps_wrapped {A} msg (m : M A) : keeps f m -> keeps f (wrapped msg m).
Proof. intros Hm w. unfold wrapped. specialize (Hm w). by destruct (m w) as [[a|e] w1]. Qed.

Lemma keeps_logged what (m : M unit) : keeps f m -> keeps f (logged what m).
Proof.
  intros Hm w. unfold logged. specialize (Hm w).
  destruct (m w) as [[a|e] w1]; simpl in *; [done|]. by rewrite f_trace.
Qed.

Lemma keeps_orElse {A} (m : M A) (cleanup : M unit) :
  keeps f m -> keeps f cleanup -> keeps f (orElse m cleanup).
Proof.
  intros Hm Hc w. unfold orElse. specialize (Hm w).
  destruct (m w) as [[a|e] w1]; simpl in *; [done|]. by rewrite (Hc w1).
Qed.

Lemma keeps_forM {A} (l : list A) (g : A -> M unit) :
  (forall a, keeps f (g a)) -> keeps f (forM_ l g).
Proof.
  intros Hg. induction l as [|x l IH]; simpl; [apply keeps_ret|].
  apply keeps_bind; [apply Hg|]. intros _. apply IH.
Qed.

Lemma keeps_invoke ev op : keeps f (invoke ev op).
Proof. apply keeps_bind; [apply keeps_emit|]. intros _. apply keeps_call. Qed.

Lemma keeps_conn_Do cmd : keeps f (conn_Do cmd).
Proof.
  intros w. unfold conn_Do.
  destruct (w_faults w (OpDo (redis.name cmd))); [done|].
  destruct cmd as [k|k m|h p]; [| |apply f_trace];
    by destruct (w_kv w !! k) as [[]|].
Qed.

Lemma keeps_withPlainRemote ref : keeps f (withPlainRemote ref).
Proof.
  intros w. unfold withPlainRemote, doLocal.
  pose proof (keeps_conn_Do (redis.SISMEMBER v1.PlainRemotesKey (remoteOf ref)) w) as H.
  destruct (conn_Do _ w) as [r w1]. simpl in *.
  by destruct (redis.Bool r) as [b|[]].
Qed.

Lemma keeps_volumeRoot : keeps f volumeRoot.
Proof.
  intros w. unfold volumeRoot, doLocal.
  pose proof (keeps_conn_Do (redis.GET v1.VolumeRootKey) w) as H.
  destruct (conn_Do _ w) as [r w1]. simpl in *.
  by destruct (redis.String r) as [b|[]].
Qed.

Lemma keeps_Task id : keeps f (client.Task id).
Proof. apply keeps_bind; [apply keeps_call|]. intros _. apply keeps_lookupM. Qed.

Lemma keeps_taskOrNil id : keeps f (taskOrNil id).
Proof.
  intros w. unfold taskOrNil. pose proof (keeps_Task id w) as H.
  destruct (client.Task id w) as [[t|e] w1]; simpl in *; [done|].
  by destruct (IsNotFound e).
Qed.

Lemma keeps_pauseAndRun {A} id (fn : M A) : keeps f fn -> keeps f (pauseAndRun id fn).
Proof.
  intros Hfn w. unfold pauseAndRun. pose proof (keeps_Task id w) as H.
  destruct (client.Task id w) as [[t|e] w1]; simpl in *.
  - rewrite <- H.
    apply (keeps_bind (invoke (EvPause id) (OpPause id))); [apply keeps_invoke|].
    intros _. apply keeps_bind; [apply Hfn|]. intros r.
    apply keeps_bind; [apply keeps_ignore, keeps_invoke|]. intros _. apply keeps_ret.
  - destruct (IsNotFound e); [|done]. by rewrite (Hfn w1).
Qed.

(** A step that leaves [f] alone, followed by steps that relate the
    values of [f] by [R]: the whole does, provided [R] accepts an error
    with [f] unchanged. *)
Lemma ensures_bind {A C} (R : B -> result C -> B -> Prop) (m : M A) (k : A -> M C) :
  keeps f m -> (forall v e, R v (Err e) v) -> (forall a, ensures f R (k a)) ->
  ensures f R (bind m k).
Proof.
  intros Hm Herr Hk w. unfold bind. specialize (Hm w).
  destruct (m w) as [[a|e] w1]; simpl in *.
  - rewrite <- Hm. apply Hk.
  - rewrite Hm. apply Herr.
Qed.

End Keeps.

(** One step of a proof that a handler leaves a part of the world
    alone. *)
Ltac keeps_step :=
  lazymatch goal with
  | |- keeps _ (ret _) => apply keeps_ret
  | |- keeps _ (fail _) => apply keeps_fail
  | |- keeps _ (lift _) => apply keeps_lift
  | |- keeps _ (get _) => apply keeps_get
  | |- keeps _ (lookupM _) => apply keeps_lookupM
  | |- keeps _ (call _) => apply keeps_call
  | |- keeps _ (emit _) => apply keeps_emit; done
  | |- keeps _ (invoke _ _) => apply keeps_invoke; done
  | |- keeps _ (conn_Do _) => apply keeps_conn_Do; done
  | |- keeps _ (withPlainRemote _) => apply keeps_withPlainRemote; done
  | |- keeps _ volumeRoot => apply keeps_volumeRoot; done
  | |- keeps _ (client.Task _) => apply keeps_Task
  | |- keeps _ (taskOrNil _) => apply keeps_taskOrNil
  | |- keeps _ (modify _) => apply keeps_modify; done
  | |- keeps _ (bind _ _) => apply keeps_bind; [|intros ?]
  | |- keeps _ (defer_ _ _) => apply keeps_defer
  | |- keeps _ (ignore_ _) => apply keeps_ignore
  | |- keeps _ (wrapped _ _) => apply keeps_wrapped
  | |- keeps _ (logged _ _) => apply keeps_logged; [done|]
  | |- keeps _ (orElse _ _) => apply keeps_orElse
  | |- keeps _ (forM_ _ _) => apply keeps_forM; intros ?
  | |- keeps _ (pauseAndRun _ _) => apply keeps_pauseAndRun; [done|]
  | |- keeps _ (if decide ?P is left _ then _ else _) => destruct (decide P)
  | |- keeps _ (match ?x with _ => _ end) => destruct x
  end.

Ltac keeps_tac := repeat keeps_step.

(** ** Frame lemmas: what a computation adds to the trace *)

Section Emits.
Context (P : Event -> Prop).

Lemma emits_nothing {A} (m : M A) : (forall w, w_trace (snd (m w)) = w_trace w) -> emits P m.
Proof. intros H w. exists []. by rewrite app_nil_r. Qed.

Lemma emits_ret {A} (a : A) : emits P (ret a).
Proof. by apply emits_nothing. Qed.

Lemma emits_fail {A} e : emits P (@fail A e).
Proof. by apply emits_nothing. Qed.

Lemma emits_lift {A} (r : result A) : emits P (lift r).
Proof. by apply emits_nothing. Qed.

Lemma emits_get {A} (g : World -> A) : emits P (get g).
Proof. by apply emits_nothing. Qed.

Lemma emits_lookupM {A} (g : World -> option A) : emits P (lookupM g).
Proof. apply emits_nothing. intros w. unfold lookupM. by destruct (g w). Qed.

Lemma emits_call op : emits P (call op).
Proof. apply emits_nothing. intros w. unfold call. by destruct (w_faults w op). Qed.

Lemma emits_emit ev : P ev -> emits P (emit ev).
Proof. intros Hev w. exists [ev]. split; [done|]. by constructor. Qed.

Lemma emits_modify (g : World -> World) :
  (forall w, w_trace (g w) = w_trace w) -> emits P (modify g).
Proof. intros Hg. by apply emits_nothing. Qed.

Lemma emits_bind {A C} (m : M A) (k : A -> M C) :
  emits P m -> (forall a, emits P (k a)) -> emits P (bind m k).
Proof.
  intros Hm Hk w. unfold bind. destruct (Hm w) as (t & Ht & HP).
  destruct (m w) as [[a|e] w1]; simpl in *; [|by eauto].
  destruct (Hk a w1) as (t1 & Ht1 & HP1).
  exists (t ++ t1). split; [by rewrite Ht1, Ht, app_assoc|]. by apply Forall_app.
Qed.

Lemma emits_seq {A} (m : M A) (k : World -> World) :
  emits P m ->
  (forall w, exists t, w_trace (k w) = w_trace w ++ t /\ Forall P t) ->
  forall w, exists t, w_trace (k (snd (m w))) = w_trace w ++ t /\ Forall P t.
Proof.
  intros Hm Hk w. destruct (Hm w) as (t & Ht & HP).
  destruct (Hk (snd (m w))) as (t1 & Ht1 & HP1).
  exists (t ++ t1). split; [by rewrite Ht1, Ht, app_assoc|]. by apply Forall_app.
Qed.

Lemma emits_defer {A} (d : M unit) (body : M A) :
  emits P d -> emits P body -> emits P (defer_ d body).
Proof.
  intros Hd Hb w. unfold defer_.
  pose proof (emits_seq body (fun v => snd (d v)) Hb Hd w) as H.
  by destruct (body w).
Qed.

Lemma emits_ignore {A} (m : M A) : emits P m -> emits P (ignore_ m).
Proof. intros Hm w. apply (Hm w). Qed.

Lemma emits_wrapped {A} msg (m : M A) : emits P m -> emits P (wrapped msg m).
Proof. intros Hm w. unfold wrapped. specialize (Hm w). by destruct (m w) as [[a|e] w1]. Qed.

Lemma emits_logged what (m : M unit) :
  (forall e, P (EvLogError what e)) -> emits P m -> emits P (logged what m).
Proof.
  intros Hlog Hm w. unfold logged. destruct (Hm w) as (t & Ht & HP).
  destruct (m w) as [[a|e] w1]; simpl in *; [by eauto|].
  exists (t ++ [EvLogError what e]). split; [by rewrite Ht, app_assoc|].
  apply Forall_app. split; [done|]. by constructor.
Qed.

Lemma emits_orElse {A} (m : M A) (cleanup : M unit) :
  emits P m -> emits P cleanup -> emits P (orElse m cleanup).
Proof.
  intros Hm Hc w. unfold orElse.
  pose proof (emits_seq m (fun v => snd (cleanup v)) Hm Hc w) as H.
  specialize (Hm w). by destruct (m w) as [[a|e] w1].
Qed.

Lemma emits_forM {A} (l : list A) (g : A -> M unit) :
  (forall a, emits P (g a)) -> emits P (forM_ l g).
Proof.
  intros Hg. induction l as [|x l IH]; simpl; [apply emits_ret|].
  apply emits_bind; [apply Hg|]. intros _. apply IH.
Qed.

Lemma emits_invoke ev op : P ev -> emits P (invoke ev op).
Proof. intros Hev. apply emits_bind; [by apply emits_emit|]. intros _. apply emits_call. Qed.

Lemma emits_conn_Do cmd :
  (forall h p, cmd = redis.SLAVEOF h p -> P (EvSlaveOf h p)) -> emits P (conn_Do cmd).
Proof.
  intros Hcmd w. unfold conn_Do.
  destruct (w_faults w (OpDo (redis.name cmd))).
  { exists []. by rewrite app_nil_r. }
  destruct cmd as [k|k m|h p].
  - exists []. rewrite app_nil_r. by destruct (w_kv w !! k) as [[]|].
  - exists []. rewrite app_nil_r. by destruct (w_kv w !! k) as [[]|].
  - exists [EvSlaveOf h p]. split; [done|]. constructor; [by apply Hcmd|done].
Qed.

Lemma emits_withPlainRemote ref : emits P (withPlainRemote ref).
Proof.
  intros w. unfold withPlainRemote, doLocal.
  destruct (emits_conn_Do (redis.SISMEMBER v1.PlainRemotesKey (remoteOf ref))
              ltac:(discriminate) w) as (t & Ht & HP).
  destruct (conn_Do _ w) as [r w1]. simpl in *.
  destruct (redis.Bool r) as [b|[]]; by eauto.
Qed.

Lemma emits_volumeRoot : emits P volumeRoot.
Proof.
  intros w. unfold volumeRoot, doLocal.
  destruct (emits_conn_Do (redis.GET v1.VolumeRootKey) ltac:(discriminate) w)
    as (t & Ht & HP).
  destruct (conn_Do _ w) as [r w1]. simpl in *.
  destruct (redis.String r) as [b|[]]; by eauto.
Qed.

Lemma emits_Task id : emits P (client.Task id).
Proof. apply emits_bind; [apply emits_call|]. intros _. apply emits_lookupM. Qed.

Lemma emits_taskOrNil id : emits P (taskOrNil id).
Proof.
  intros w. unfold taskOrNil. pose proof (emits_Task id w) as H.
  destruct (client.Task id w) as [[t|e] w1]; simpl in *; [done|].
  by destruct (IsNotFound e).
Qed.

Lemma emits_pauseAndRun {A} id (fn : M A) :
  P (EvPause id) -> P (EvResume id) -> emits P fn -> emits P (pauseAndRun id fn).
Proof.
  intros Hp Hr Hfn w. unfold pauseAndRun.
  destruct (emits_Task id w) as (t & Ht & HP).
  destruct (client.Task id w) as [[tk|e] w1]; simpl in *.
  - assert (Hrest : emits P (let* _ := invoke (EvPause id) (OpPause id) in
                             let* r := fn in
                             let* _ := ignore_ (invoke (EvResume id) (OpResume id)) in
                             ret r)).
    { apply emits_bind; [by apply emits_invoke|]. intros _.
      apply emits_bind; [apply Hfn|]. intros r.
      apply emits_bind; [by apply emits_ignore, emits_invoke|]. intros _.
      apply emits_ret. }
    destruct (Hrest w1) as (t1 & Ht1 & HP1).
    exists (t ++ t1). split; [by rewrite Ht1, Ht, app_assoc|]. by apply Forall_app.
  - destruct (IsNotFound e); [|by eauto].
    destruct (Hfn w1) as (t1 & Ht1 & HP1).
    exists (t ++ t1). split; [by rewrite Ht1, Ht, app_assoc|]. by apply Forall_app.
Qed.

End Emits.

(** One step of a proof about the events a handler adds to the
    trace. *)
Ltac emits_step :=
  lazymatch goal with
  | |- emits _ (ret _) => apply emits_ret
  | |- emits _ (fail _) => apply emits_fail
  | |- emits _ (lift _) => apply emits_lift
  | |- emits _ (get _) => apply emits_get
  | |- emits _ (lookupM _) => apply emits_lookupM
  | |- emits _ (call _) => apply emits_call
  | |- emits _ (emit _) => apply emits_emit; done
  | |- emits _ (invoke _ _) => apply emits_invoke; done
  | |- emits _ (withPlainRemote _) => apply emits_withPlainRemote
  | |- emits _ volumeRoot => apply emits_volumeRoot
  | |- emits _ (client.Task _) => apply emits_Task
  | |- emits _ (taskOrNil _) => apply emits_taskOrNil
  | |- emits _ (modify _) => apply emits_modify; done
  | |- emits _ (bind _ _) => apply emits_bind; [|intros ?]
  | |- emits _ (defer_ _ _) => apply emits_defer
  | |- emits _ (ignore_ _) => apply emits_ignore
  | |- emits _ (wrapped _ _) => apply emits_wrapped
  | |- emits _ (logged _ _) => apply emits_logged; [done|]
  | |- emits _ (orElse _ _) => apply emits_orElse
  | |- emits _ (forM_ _ _) => apply emits_forM; intros ?
  | |- emits _ (pauseAndRun _ _) => apply emits_pauseAndRun; [done|done|]
  | |- emits _ (if decide ?P is left _ then _ else _) => destruct (decide P)
  | |- emits _ (match ?x with _ => _ end) => destruct x
  end.

Ltac emits_tac := repeat emits_step.

(** ** Looking a descriptor up by media type *)

(** X1.  [getByMediaType] answers with the first manifest of the index that
    carries the media type, and fails, with the media-type-not-found
    error, exactly when no manifest carries it. *)
Theorem getByMediaType_first_match (index : ispec.Index) (mt : string) :
  (forall d,
      getByMediaType index mt = Ok d <->
      exists pre post,
        ispec.Manifests index = pre ++ d :: post
        /\ ispec.MediaType d = mt
        /\ Forall (fun x => ispec.MediaType x <> mt) pre)
  /\ (forall e,
        getByMediaType index mt = Err e <->
        e = errMediaTypeNotFound
        /\ Forall (fun x => ispec.MediaType x <> mt) (ispec.Manifests index)).
Proof.
  unfold getByMediaType. split.
  - intros d. split.
    + destruct (list_find _ _) as [[i x]|] eqn:E; [|discriminate].
      intros [= ->]. apply list_find_Some in E as (Hi & Hx & Hpre).
      exists (take i (ispec.Manifests index)), (drop (S i) (ispec.Manifests index)).
      split; [by rewrite take_drop_middle|]. split; [done|].
      apply Forall_forall. intros y Hy.
      apply list_elem_of_lookup in Hy as [j Hj].
      pose proof (lookup_lt_Some _ _ _ Hj) as Hlt.
      rewrite lookup_take_lt in Hj by (rewrite length_take in Hlt; lia).
      apply (Hpre j y Hj). rewrite length_take in Hlt. lia.
    + intros (pre & post & Hm & Hd & Hpre).
      assert (E : list_find (fun d0 => ispec.MediaType d0 = mt) (ispec.Manifests index)
                  = Some (length pre, d)).
      { apply list_find_Some. rewrite Hm. split; [by apply list_lookup_middle|].
        split; [done|]. intros j y Hj Hlt.
        rewrite lookup_app_l in Hj by done.
        rewrite Forall_forall in Hpre. apply Hpre.
        by eapply list_elem_of_lookup_2. }
      by rewrite E.
  - intros e. split.
    + destruct (list_find _ _) as [[i x]|] eqn:E; [discriminate|].
      intros [= <-]. split; [done|]. by apply list_find_None in E.
    + intros [-> Hall].
      by rewrite (proj2 (list_find_None (fun d => ispec.MediaType d = mt) _) Hall).
Qed.

(** The hand-made index with a gzip layer. *)
Lemma getByMediaType_first_match_witness :
  getByMediaType gzipIndex ispec.MediaTypeImageLayerGzip
  = Ok {| ispec.MediaType := ispec.MediaTypeImageLayerGzip; ispec.Digest := 1%nat;
          ispec.Platform_ := hostPlatform |}
  /\ getByMediaType gzipIndex ispec.MediaTypeImageLayer = Err errMediaTypeNotFound.
Proof.
  destruct (getByMediaType_first_match gzipIndex ispec.MediaTypeImageLayerGzip) as [Hok _].
  destruct (getByMediaType_first_match gzipIndex ispec.MediaTypeImageLayer) as [_ Herr].
  split.
  - apply Hok.
    exists [{| ispec.MediaType := MediaTypeContainerInfo; ispec.Digest := 0%nat;
               ispec.Platform_ := hostPlatform |}], [].
    split; [reflexivity|]. split; [reflexivity|]. by repeat constructor.
  - apply Herr. split; [reflexivity|]. by repeat constructor.
Defined.

(** ** Writing resolv.conf *)

Lemma string_app_cons x (a b : string) : String x a +:+ b = String x (a +:+ b).
Proof. reflexivity. Qed.

Lemma string_app_assoc (a b c : string) : (a +:+ b) +:+ c = a +:+ b +:+ c.
Proof. induction a as [|x a IH]; [done|]. rewrite !string_app_cons. by f_equal. Qed.

Lemma string_app_nil_r (a : string) : a +:+ "" = a.
Proof. induction a as [|x a IH]; [done|]. rewrite string_app_cons. by f_equal. Qed.

(** The loop of [writeResolvConf] over peers whose addresses split,
    up to the first one whose address does not. *)
Lemma writeResolvConf_loop (path : string) (pre : list element.PeerAgent) :
  forall (hosts : list string) (rest : list element.PeerAgent) (content : string) (w : World),
    Forall2 hostOf pre hosts ->
    w_faults w (OpWriteString path) = None ->
    w_files w !! path = Some content ->
    let body := fun p : element.PeerAgent =>
      let* (host, _) := lift (net.SplitHostPort (element.Addr p)) in
      let* _ := call (OpWriteString path) in
      modify (fun w =>
        set_files (<[path := default "" (w_files w !! path) +:+ "nameserver " +:+ host +:+ nl]>
                     (w_files w)) w) in
    let w1 := set_files (<[path := content +:+ nameserverLines hosts]> (w_files w)) w in
    forM_ (pre ++ rest) body w = forM_ rest body w1.
Proof.
  induction pre as [|p pre IH]; intros hosts rest content w Hh Hf Hc body w1.
  - apply Forall2_nil_inv_l in Hh as ->. subst w1. simpl.
    rewrite string_app_nil_r, insert_id by done. by destruct w.
  - apply Forall2_cons_inv_l in Hh as (h & hosts' & [port Hp] & Hh & ->).
    simpl. unfold bind at 1. unfold body at 1.
    unfold bind, lift, call, modify. rewrite Hp, Hf. simpl. rewrite Hc. simpl.
    fold body.
    rewrite (IH hosts' rest (content +:+ "nameserver " +:+ h +:+ nl)); simpl.
    + subst w1. simpl. rewrite insert_insert_eq.
      by rewrite !string_app_assoc.
    + done.
    + done.
    + apply lookup_insert_eq.
Qed.

(** X2.  [writeResolvConf] truncates the file and writes one [nameserver]
    line per peer, in the order of the list, with the host part of the
    peer's address; what the file held before is gone. *)
Theorem writeResolvConf_writes_hosts_in_order
    (peers : list element.PeerAgent) (hosts : list string) (w : World) :
  let path := filepath_Join (w_Root w) "resolv.conf" in
  Forall2 hostOf peers hosts ->
  w_faults w (OpOpenFile path) = None ->
  w_faults w (OpWriteString path) = None ->
  writeResolvConf peers w
  = (Ok tt, set_files (<[path := nameserverLines hosts]> (w_files w)) w).
Proof.
  intros path Hh Ho Hw. unfold writeResolvConf.
  unfold bind at 1. unfold get at 1.
  unfold bind at 1. unfold call at 1. fold path. rewrite Ho.
  unfold bind at 1. unfold modify at 1.
  rewrite <- (app_nil_r peers).
  rewrite (writeResolvConf_loop path peers hosts [] ""); simpl; try done.
  - by rewrite insert_insert_eq.
  - apply lookup_insert_eq.
Qed.

Lemma writeResolvConf_writes_hosts_in_order_witness :
  writeResolvConf [masterPeer; plainPeer]
    (set_files {[ "/var/lib/boss/resolv.conf" := "nameserver 192.168.1.1" +:+ nl ]} bareWorld)
  = (Ok tt,
     set_files {[ "/var/lib/boss/resolv.conf"
                  := "nameserver 10.0.0.2" +:+ nl +:+ "nameserver 10.0.0.3" +:+ nl ]}
       bareWorld).
Proof.
  rewrite (writeResolvConf_writes_hosts_in_order [masterPeer; plainPeer]
             ["10.0.0.2"; "10.0.0.3"]).
  - vm_compute. reflexivity.
  - repeat constructor; eexists; vm_compute; reflexivity.
  - vm_compute. reflexivity.
  - vm_compute. reflexivity.
Defined.

(** X3.  A peer whose address does not split stops [writeResolvConf] with
    the address error, after the file has been truncated and the lines
    of the peers before it written: the file then lists those peers
    only, and none at all when the first peer is the bad one. *)
Theorem writeResolvConf_stops_at_bad_address
    (pre : list element.PeerAgent) (p : element.PeerAgent) (post : list element.PeerAgent)
    (hosts : list string) (e : error) (w : World) :
  let path := filepath_Join (w_Root w) "resolv.conf" in
  Forall2 hostOf pre hosts ->
  net.SplitHostPort (element.Addr p) = Err e ->
  w_faults w (OpOpenFile path) = None ->
  w_faults w (OpWriteString path) = None ->
  writeResolvConf (pre ++ p :: post) w
  = (Err e, set_files (<[path := nameserverLines hosts]> (w_files w)) w).
Proof.
  intros path Hh Hp Ho Hw. unfold writeResolvConf.
  unfold bind at 1. unfold get at 1.
  unfold bind at 1. unfold call at 1. fold path. rewrite Ho.
  unfold bind at 1. unfold modify at 1.
  rewrite (writeResolvConf_loop path pre hosts (p :: post) ""); simpl; try done.
  - unfold bind, lift. rewrite Hp. by rewrite insert_insert_eq.
  - apply lookup_insert_eq.
Qed.

Lemma writeResolvConf_stops_at_bad_address_witness :
  writeResolvConf [masterPeer; portlessMaster; plainPeer]
    (set_files {[ "/var/lib/boss/resolv.conf" := "nameserver 192.168.1.1" +:+ nl ]} bareWorld)
  = (Err (AddrError net.missingPort "10.0.0.2"),
     set_files {[ "/var/lib/boss/resolv.conf" := "nameserver 10.0.0.2" +:+ nl ]} bareWorld).
Proof.
  rewrite (writeResolvConf_stops_at_bad_address [masterPeer] portlessMaster [plainPeer]
             ["10.0.0.2"] (AddrError net.missingPort "10.0.0.2")).
  - vm_compute. reflexivity.
  - repeat constructor; eexists; vm_compute; reflexivity.
  - vm_compute. reflexivity.
  - vm_compute. reflexivity.
  - vm_compute. reflexivity.
Defined.

(** ** Leases *)

Lemma leased_body {A} (body : M A) (w : World) :
  emits (fun ev => ev <> EvLeaseDone) body ->
  underLease (let* _ := client.WithLease in defer_ client.done body) w.
Proof.
  intros Hb. unfold underLease, bind, client.WithLease, call.
  destruct (w_faults w OpLease); [done|].
  unfold defer_. destruct (Hb w) as (t & Ht & HP).
  destruct (body w) as [r w1]. simpl in *.
  exists t. split; [by rewrite Ht, app_assoc|].
  intros Hin. rewrite Forall_forall in HP. by apply (HP _ Hin).
Qed.

(** X4.  [Update], [Rollback] and [Checkpoint] take a lease before anything
    else and release it on every path: whatever the handler returns,
    the release is the last call it makes and it makes it once; when
    the lease is refused the handler returns that error without having
    done anything. *)
Theorem lease_released_on_every_path (w : World) :
  (forall container, underLease (Update container) w)
  /\ (forall id, id <> "" -> underLease (Rollback id) w)
  /\ (forall req, ck_ID req <> "" -> underLease (Checkpoint req) w).
Proof.
  split; [|split].
  - intros container. unfold Update. apply leased_body.
    unfold updateApply, updateWait, client.LoadContainer, opts.GetConfig, client.Info,
      register.EnableMaintainance, change_update, register.Deregister, Pull, client.Update,
      store_Write, client.Kill.
    cbn [client.applyOpts].
    unfold opts.WithSetPreviousConfig, opts.WithBossConfig, opts.WithContainerExtension.
    emits_tac.
  - intros id Hid. unfold Rollback. destruct (decide (id = "")) as [|_]; [done|].
    apply leased_body.
    unfold client.LoadContainer, client.Update, client.Kill.
    cbn [client.applyOpts].
    unfold flux.WithRollback, opts.WithRollback.
    emits_tac.
  - intros req Hid. unfold Checkpoint. destruct (decide (ck_ID req = "")) as [|_]; [done|].
    apply leased_body.
    unfold client.LoadContainer, client.Info, writeIndex, writeContent, CreateDiff,
      TaskCheckpoint, client.ImageCreate, systemd.Stop, json_Marshal.
    emits_tac.
Qed.

Lemma lease_released_on_every_path_witness :
  underLease (Update webConfig2) webWorld
  /\ underLease (Rollback "web") updatedWebWorld
  /\ underLease (Checkpoint checkpointWeb) (set_faults sigkillFails webWorld).
Proof.
  split; [|split].
  - apply (proj1 (lease_released_on_every_path webWorld)).
  - apply (proj1 (proj2 (lease_released_on_every_path updatedWebWorld))). discriminate.
  - apply (proj2 (proj2 (lease_released_on_every_path (set_faults sigkillFails webWorld)))).
    discriminate.
Defined.

(** ** The content store and checkpoint images *)

(** X5.  An index written with [writeIndex] is read back by [decodeIndex]
    from the returned descriptor, in any later state of the content
    store that still holds what was written and serves the read; the
    descriptor carries the index media type, and writing it displaces
    no blob the store held. *)
Theorem decodeIndex_reads_what_writeIndex_wrote
    (index : ispec.Index) (ref : string) (w w1 w2 : World) (d : ispec.Descriptor) :
  writeIndex index ref w = (Ok d, w1) ->
  w_content w1 `prefix_of` w_content w2 ->
  w_faults w2 (OpReadBlob (ispec.Digest d)) = None ->
  decodeIndex d w2 = (Ok index, w2)
  /\ ispec.MediaType d = ispec.MediaTypeImageIndex
  /\ w_content w `prefix_of` w_content w1.
Proof.
  intros Hw [more Hmore] Hr.
  unfold writeIndex, json_Marshal, writeContent in Hw. munfold_in Hw.
  destruct (w_faults w OpMarshal); [discriminate|].
  destruct (w_faults w (OpContentWrite ref)); [discriminate|].
  injection Hw as <- <-. simpl in *.
  split; [|split; [done|by eexists]].
  unfold decodeIndex, client.ReadBlob. mrun.
  rewrite <- app_assoc. simpl. by rewrite list_lookup_middle.
Qed.

Lemma decodeIndex_reads_what_writeIndex_wrote_witness :
  match writeIndex gzipIndex "webindex" (gzipCheckpointWorld noFaults) with
  | (Ok d, w1) =>
      let w2 := snd (CreateDiff "web" "checkpoint-rw-web" ispec.MediaTypeImageLayer w1) in
      decodeIndex d w2 = (Ok gzipIndex, w2) /\ ispec.Digest d = 3%nat
  | (Err _, _) => False
  end.
Proof.
  destruct (writeIndex gzipIndex "webindex" (gzipCheckpointWorld noFaults))
    as [[d|e] w1] eqn:E; [|discriminate E].
  split.
  - apply (decodeIndex_reads_what_writeIndex_wrote gzipIndex "webindex"
             (gzipCheckpointWorld noFaults) w1 _ d E).
    + injection E as <- <-. by exists [BLayer "web"].
    + injection E as <- <-. reflexivity.
  - by injection E as <- <-.
Defined.

(** Case analysis on what the environment answers, in a hypothesis that
    says how a handler ended, for handlers that read the same part of
    the world more than once. *)
Ltac run_in H :=
  repeat (simpl in H; use_hyps_in H; simpl in H;
          match type of H with
          | context [w_faults ?w ?op] =>
              let E := fresh "F" in destruct (w_faults w op) eqn:E
          | context [@lookup _ _ _ _ ?k ?m] =>
              let E := fresh "L" in destruct (@lookup _ _ _ _ k m) eqn:E
          | context [bool_decide ?P] =>
              let E := fresh "B" in destruct (bool_decide P) eqn:E
          | context [IsNotFound ?e] =>
              let E := fresh "N" in destruct (IsNotFound e) eqn:E
          | context [getByMediaType ?i ?m] =>
              let E := fresh "G" in destruct (getByMediaType i m) eqn:E
          | context [opts.UnmarshalConfig ?a] =>
              let E := fresh "U" in destruct (opts.UnmarshalConfig a) eqn:E
          | context [match ?x with _ => _ end] => is_var x; destruct x
          | _ => discriminate H
          end);
  simpl in H; use_hyps_in H; simpl in H.

(** What a successful [Checkpoint] has read and written. *)
Lemma Checkpoint_success (req : CheckpointRequest) (w w1 : World) :
  Checkpoint req w = (Ok tt, w1) ->
  exists c ds,
    w_containers w !! ck_ID req = Some c
    /\ w_images w !! ck_Ref req = None
    /\ (if ck_Live req
        then exists t,
               w_tasks w !! ck_ID req = Some t
               /\ ds = withPlatform <$>
                         filter (fun d => ispec.MediaType d
                                          ≠ images.MediaTypeContainerd1CheckpointConfig)
                           (t_checkpoint t)
        else ds = [])
    /\ let n := length (w_content w) in
       w_content w1
       = w_content w
         ++ [BContainerInfo c; BLayer (containers.SnapshotKey c);
             BIndex {| ispec.SchemaVersion := 2;
                       ispec.Manifests :=
                         {| ispec.MediaType := MediaTypeContainerInfo; ispec.Digest := n;
                            ispec.Platform_ := hostPlatform |}
                         :: {| ispec.MediaType := ispec.MediaTypeImageLayer;
                               ispec.Digest := S n; ispec.Platform_ := hostPlatform |}
                         :: ds |}]
       /\ w_images w1
          = <[ck_Ref req := {| ispec.MediaType := ispec.MediaTypeImageIndex;
                               ispec.Digest := S (S n); ispec.Platform_ := None |}]>
              (w_images w).
Proof.
  intros H. unfold Checkpoint in H.
  destruct (decide (ck_ID req = "")); [discriminate|].
  repeat (progress unfold client.WithLease, client.LoadContainer, client.Info, json_Marshal,
            writeContent, pauseAndRun, client.Task, CreateDiff, TaskCheckpoint, writeIndex,
            client.ImageCreate, systemd.Stop, client.done, withPlatform in H).
  munfold_in H.
  destruct (ck_Live req), (ck_Exit req); run_in H; injection H as <-; simpl.
  all: rewrite ?length_app; simpl; rewrite ?Nat.add_1_r, <- ?app_assoc; simpl.
  all: eexists _, _; split; [reflexivity|]; split; [reflexivity|].
  all: split; [first [reflexivity | eexists; split; reflexivity]|].
  all: split; reflexivity.
Qed.

(** What a failed [Checkpoint] leaves in the image store. *)
Lemma Checkpoint_failure (req : CheckpointRequest) (w w1 : World) (e : error) :
  Checkpoint req w = (Err e, w1) ->
  w_images w1 = w_images w
  \/ (ck_Exit req = true
      /\ w_images w !! ck_Ref req = None
      /\ (exists d, w_images w1 = <[ck_Ref req := d]> (w_images w))
      /\ exists e', w_faults w (OpStop (ck_ID req)) = Some e' /\ e = Wrap e' "stop service").
Proof.
  intros H. unfold Checkpoint in H.
  destruct (decide (ck_ID req = "")); [injection H as <- <-; by left|].
  repeat (progress unfold client.WithLease, client.LoadContainer, client.Info, json_Marshal,
            writeContent, pauseAndRun, client.Task, CreateDiff, TaskCheckpoint, writeIndex,
            client.ImageCreate, systemd.Stop, client.done, withPlatform in H).
  munfold_in H.
  destruct (ck_Live req), (ck_Exit req); run_in H; injection H as <- <-; simpl.
  all: try (by left).
  all: right; split; [done|]; split; [done|]; split; [by eexists|by eauto].
Qed.

(** X6.  The image that a successful [Checkpoint] registers reads back as
    the checkpointed container: from the image named by the request's
    ref, the index decodes; its manifest of the container-info media
    type resolves to the container's record as the runtime held it,
    its layer manifest to the diff of the container's snapshot; every
    manifest is stamped with the host platform; a checkpoint that is
    not live has these two manifests and no other.  This holds in
    every later world that still has the image and the content. *)
Theorem Checkpoint_image_reads_back (req : CheckpointRequest) (w w1 w2 : World) :
  Checkpoint req w = (Ok tt, w1) ->
  w_images w2 !! ck_Ref req = w_images w1 !! ck_Ref req ->
  w_content w1 `prefix_of` w_content w2 ->
  w_faults w2 (OpGetImage (ck_Ref req)) = None ->
  (forall d, w_faults w2 (OpReadBlob d) = None) ->
  exists c image index configDesc rw,
    w_containers w !! ck_ID req = Some c
    /\ client.GetImage (ck_Ref req) w2 = (Ok image, w2)
    /\ decodeIndex image w2 = (Ok index, w2)
    /\ getByMediaType index MediaTypeContainerInfo = Ok configDesc
    /\ client.ReadBlob configDesc w2 = (Ok (BContainerInfo c), w2)
    /\ getByMediaType index ispec.MediaTypeImageLayer = Ok rw
    /\ client.ReadBlob rw w2 = (Ok (BLayer (containers.SnapshotKey c)), w2)
    /\ Forall (fun d => ispec.Platform_ d = hostPlatform) (ispec.Manifests index)
    /\ (ck_Live req = false -> length (ispec.Manifests index) = 2%nat).
Proof.
  intros Hck Himg [more Hmore] Hget Hread.
  destruct (Checkpoint_success req w w1 Hck) as (c & ds & Hc & _ & Hds & Hcontent & Hi).
  simpl in Hcontent, Hi.
  rewrite Hi, lookup_insert_eq in Himg.
  rewrite Hcontent, <- app_assoc in Hmore. simpl in Hmore.
  set (n := length (w_content w)) in *.
  assert (H0 : w_content w2 !! n = Some (BContainerInfo c)).
  { rewrite Hmore. by apply list_lookup_middle. }
  assert (H1 : w_content w2 !! S n = Some (BLayer (containers.SnapshotKey c))).
  { rewrite Hmore, (cons_middle (BContainerInfo c)), app_assoc.
    apply list_lookup_middle. rewrite length_app. simpl. lia. }
  match type of Hmore with
  | _ = _ ++ _ :: _ :: ?b :: _ => assert (H2 : w_content w2 !! S (S n) = Some b)
  end.
  { rewrite Hmore, (cons_middle (BContainerInfo c)), (cons_middle (BLayer _)), !app_assoc.
    apply list_lookup_middle. rewrite !length_app. simpl. lia. }
  clear Hmore.
  eexists c, _, _, _, _. split; [done|].
  split. { unfold client.GetImage. mrun. reflexivity. }
  split.
  { unfold decodeIndex, client.ReadBlob. mrun. rewrite Hread. simpl. rewrite H2.
    reflexivity. }
  split. { reflexivity. }
  split. { unfold client.ReadBlob. mrun. rewrite Hread. simpl. by rewrite H0. }
  split. { reflexivity. }
  split. { unfold client.ReadBlob. mrun. rewrite Hread. simpl. by rewrite H1. }
  split.
  { simpl. repeat (constructor; [done|]).
    destruct (ck_Live req).
    - destruct Hds as (t & _ & ->). apply Forall_fmap. by apply Forall_true.
    - subst ds. constructor. }
  intros Hlive. rewrite Hlive in Hds. by subst ds.
Qed.

(** [web] is checkpointed; the image is read back right away. *)
Lemma Checkpoint_image_reads_back_witness :
  let w1 := snd (Checkpoint checkpointWeb webWorld) in
  exists image index configDesc,
    client.GetImage "r/ck/web:1" w1 = (Ok image, w1)
    /\ decodeIndex image w1 = (Ok index, w1)
    /\ getByMediaType index MediaTypeContainerInfo = Ok configDesc
    /\ client.ReadBlob configDesc w1 = (Ok (BContainerInfo webRecord), w1).
Proof.
  intros w1.
  destruct (Checkpoint_image_reads_back checkpointWeb webWorld w1 w1)
    as (c & image & index & configDesc & rw & Hc & H1 & H2 & H3 & H4 & _).
  - vm_compute. reflexivity.
  - reflexivity.
  - reflexivity.
  - vm_compute. reflexivity.
  - intros d. vm_compute. reflexivity.
  - exists image, index, configDesc. repeat (split; [assumption|]).
    injection Hc as <-. exact H4.
Defined.

(** X7.  What [Checkpoint] does to the image store.  On success the ref
    named no image before and names the new index afterwards.  On
    failure the image store is as it was, with one exception: when the
    request asks for the unit to be stopped and stopping it is the step
    that fails, the error is returned although the image has been
    created.  An image that exists under the ref is never replaced:
    [Checkpoint] then fails and leaves it as it is. *)
Theorem Checkpoint_and_the_image_store
    (req : CheckpointRequest) (w w1 : World) (r : result unit) :
  Checkpoint req w = (r, w1) ->
  (r = Ok tt ->
   w_images w !! ck_Ref req = None
   /\ exists d, w_images w1 = <[ck_Ref req := d]> (w_images w)
                /\ ispec.MediaType d = ispec.MediaTypeImageIndex)
  /\ (forall e, r = Err e ->
        w_images w1 = w_images w
        \/ (ck_Exit req = true
            /\ w_images w !! ck_Ref req = None
            /\ (exists d, w_images w1 = <[ck_Ref req := d]> (w_images w))
            /\ exists e', w_faults w (OpStop (ck_ID req)) = Some e'
                          /\ e = Wrap e' "stop service"))
  /\ (is_Some (w_images w !! ck_Ref req) -> r <> Ok tt /\ w_images w1 = w_images w).
Proof.
  intros H. split; [|split].
  - intros ->. destruct (Checkpoint_success req w w1 H) as (c & ds & _ & Hn & _ & _ & Hi).
    split; [done|]. eexists. split; [exact Hi|done].
  - intros e ->. by apply Checkpoint_failure.
  - intros [d Hd]. destruct r as [[]|e].
    + destruct (Checkpoint_success req w w1 H) as (c & ds & _ & Hn & _). congruence.
    + split; [done|].
      destruct (Checkpoint_failure req w w1 e H) as [|(_ & Hn & _)]; [done|congruence].
Qed.

(** Checkpointing [web] where the unit cannot be stopped, and
    checkpointing it again under a ref that is taken. *)
Lemma Checkpoint_and_the_image_store_witness :
  (exists w1, Checkpoint checkpointWeb (set_faults stopFails webWorld)
              = (Err (Wrap (ErrExternal "systemd: unit busy") "stop service"), w1)
              /\ is_Some (w_images w1 !! "r/ck/web:1"))
  /\ fst (Checkpoint checkpointWeb (snd (Checkpoint checkpointWeb webWorld))) <> Ok tt.
Proof.
  split.
  - destruct (Checkpoint checkpointWeb (set_faults stopFails webWorld)) as [r w1] eqn:E.
    assert (Hr : r = Err (Wrap (ErrExternal "systemd: unit busy") "stop service")).
    { pose proof (f_equal fst E) as E1. simpl in E1. rewrite <- E1.
      vm_compute. reflexivity. }
    exists w1. split; [by rewrite Hr|].
    destruct (Checkpoint_and_the_image_store checkpointWeb _ w1 r E) as (_ & Herr & _).
    destruct (Herr _ Hr) as [Hsame|(_ & _ & [d ->] & _)].
    + exfalso. pose proof (f_equal snd E) as E2. simpl in E2. rewrite <- E2 in Hsame.
      vm_compute in Hsame. discriminate Hsame.
    + rewrite lookup_insert_eq. by eexists.
  - set (w1 := snd (Checkpoint checkpointWeb webWorld)).
    destruct (Checkpoint checkpointWeb w1) as [r w2] eqn:E.
    destruct (Checkpoint_and_the_image_store checkpointWeb w1 w2 r E) as (_ & _ & Hex).
    simpl. apply Hex. vm_compute. by eexists.
Defined.

(** ** Running a handler step by step *)

Lemma set_trace_id (w : World) : set_trace (w_trace w) w = w.
Proof. by destruct w. Qed.

(** A computation that changes nothing but the trace, and only adds
    to it, leaves the world it started in with a longer trace. *)
Lemma world_up_to_trace {A} (m : M A) (w : World) :
  keeps (set_trace []) m -> emits (fun _ => True) m ->
  exists t, snd (m w) = set_trace (w_trace w ++ t) w.
Proof.
  intros Hk He. destruct (He w) as (t & Ht & _). specialize (Hk w).
  exists t. rewrite <- Ht. destruct (snd (m w)), w. simpl in *.
  by injection Hk as -> -> -> -> -> -> -> -> -> -> -> -> -> ->.
Qed.

(** A loop of calls whose errors are logged and otherwise ignored
    always runs to its end: every call is made, every error is logged,
    and nothing but the trace changes. *)
Lemma forM_logged_run {A} (what : A -> string) (ev : A -> Event) (op : A -> Op)
    (l : list A) : forall w,
  exists t,
    forM_ l (fun a => logged (what a) (invoke (ev a) (op a))) w
    = (Ok tt, set_trace (w_trace w ++ t) w)
    /\ (forall a, a ∈ l -> ev a ∈ t)
    /\ (forall a e, a ∈ l -> w_faults w (op a) = Some e -> EvLogError (what a) e ∈ t)
    /\ Forall (fun x => (exists a, a ∈ l /\ x = ev a)
                        \/ exists a e, x = EvLogError (what a) e) t.
Proof.
  induction l as [|x l IH]; intros w; simpl.
  - exists []. rewrite app_nil_r, set_trace_id. split; [done|].
    split; [by intros a Ha; apply elem_of_nil in Ha|].
    split; [by intros a e Ha; apply elem_of_nil in Ha|done].
  - unfold bind at 1.
    destruct (w_faults w (op x)) as [e|] eqn:E.
    + assert (Hstep : logged (what x) (invoke (ev x) (op x)) w
                      = (Ok tt, set_trace ((w_trace w ++ [ev x])
                                           ++ [EvLogError (what x) e]) w)).
      { unfold logged, invoke, bind, emit, modify, call. simpl. by rewrite E. }
      rewrite Hstep.
      destruct (IH (set_trace ((w_trace w ++ [ev x]) ++ [EvLogError (what x) e]) w))
        as (t & Hrun & Hev & Hlog & Hall).
      exists (ev x :: EvLogError (what x) e :: t).
      split; [|split; [|split]].
      * rewrite Hrun. simpl. by rewrite <- !app_assoc.
      * intros a [->|Ha]%elem_of_cons; [by left|]. right. right. by apply Hev.
      * intros a e' [->|Ha]%elem_of_cons He'.
        -- rewrite E in He'. injection He' as <-. right. by left.
        -- right. right. by apply (Hlog a e' Ha).
      * constructor; [left; exists x; split; [by left|done]|].
        constructor; [right; by eauto|].
        eapply Forall_impl; [exact Hall|]. intros y [(a & Ha & ->)|Hy]; [|by right].
        left. exists a. split; [by right|done].
    + assert (Hstep : logged (what x) (invoke (ev x) (op x)) w
                      = (Ok tt, set_trace (w_trace w ++ [ev x]) w)).
      { unfold logged, invoke, bind, emit, modify, call. simpl. by rewrite E. }
      rewrite Hstep.
      destruct (IH (set_trace (w_trace w ++ [ev x]) w)) as (t & Hrun & Hev & Hlog & Hall).
      exists (ev x :: t).
      split; [|split; [|split]].
      * rewrite Hrun. simpl. by rewrite <- !app_assoc.
      * intros a [->|Ha]%elem_of_cons; [by left|]. right. by apply Hev.
      * intros a e' [->|Ha]%elem_of_cons He'; [congruence|].
        right. by apply (Hlog a e' Ha).
      * constructor; [left; exists x; split; [by left|done]|].
        eapply Forall_impl; [exact Hall|]. intros y [(a & Ha & ->)|Hy]; [|by right].
        left. exists a. split; [by right|done].
Qed.

Lemma ensures_bind_val {A B C} (f : World -> B) (R : B -> result C -> B -> Prop)
    (Q : A -> Prop) (m : M A) (k : A -> M C) :
  (forall w a w', m w = (Ok a, w') -> Q a) ->
  keeps f m -> (forall v e, R v (Err e) v) -> (forall a, Q a -> ensures f R (k a)) ->
  ensures f R (bind m k).
Proof.
  intros HQ Hm Herr Hk w. unfold bind. specialize (Hm w). specialize (HQ w).
  destruct (m w) as [[a|e] w1]; simpl in *.
  - rewrite <- Hm. apply Hk. by eapply HQ.
  - rewrite Hm. apply Herr.
Qed.

Lemma LoadContainer_id id w a w' : client.LoadContainer id w = (Ok a, w') -> a = id.
Proof.
  unfold client.LoadContainer. munfold.
  destruct (w_faults w (OpLoadContainer id)); [discriminate|]. simpl.
  destruct (w_containers w !! id); [|discriminate]. by intros [= <- _].
Qed.

Lemma LoadContainer_missing id w :
  w_containers w !! id = None -> exists e, client.LoadContainer id w = (Err e, w).
Proof.
  intros H. unfold client.LoadContainer. munfold.
  destruct (w_faults w (OpLoadContainer id)); simpl; [by eauto|]. rewrite H. by eauto.
Qed.

Lemma wrapped_Ok {A} msg (m : M A) w a w' : wrapped msg m w = (Ok a, w') -> m w = (Ok a, w').
Proof. unfold wrapped. destruct (m w) as [[x|e] w1]; [done|discriminate]. Qed.


Lemma Pull_world ref w :
  exists t, snd (Pull ref w) = set_trace (w_trace w ++ t) w
            /\ forall image, fst (Pull ref w) = Ok image -> image = ref.
Proof.
  destruct (world_up_to_trace (Pull ref) w) as [t Ht].
  { unfold Pull. keeps_tac. }
  { unfold Pull. emits_tac. }
  exists t. split; [done|].
  unfold Pull, bind. destruct (withPlainRemote ref w) as [[p|e] w']; [|discriminate].
  destruct (invoke _ _ w') as [[[]|e] w'']; [|discriminate]. by intros image [= <-].
Qed.

(** ** Delete *)

Lemma client_Delete_records id how :
  ensures w_containers
    (fun v (r : result unit) v1 =>
       match r with
       | Ok _ => is_Some (v !! id) /\ v1 = delete id v
       | Err _ => v1 = v
       end)
    (client.Delete id how).
Proof.
  intros w. unfold client.Delete. mrun.
  destruct (w_faults w (OpContainerDelete id)); [done|]. simpl.
  destruct (w_containers w !! id) eqn:E; simpl; [|done]. by split; [eexists|].
Qed.

Lemma Delete_records id :
  ensures w_containers
    (fun v (r : result unit) v1 =>
       match r with
       | Ok _ => is_Some (v !! id) /\ v1 = delete id v
       | Err _ => v1 = v
       end)
    (Delete id).
Proof.
  unfold Delete. destruct (decide (id = "")); [by intros w; simpl|].
  apply (ensures_bind_val _ _ (fun a => a = id)).
  { intros w a w' H. by apply wrapped_Ok, LoadContainer_id in H. }
  { unfold client.LoadContainer. keeps_tac. }
  { by intros; simpl. }
  intros container ->.
  unfold systemd.Stop, systemd.Disable, opts.GetConfig, client.Info,
    GetNetwork, register.Deregister.
  do 6 (apply ensures_bind; [by keeps_tac|by intros; simpl|intros ?]).
  apply client_Delete_records.
Qed.

Lemma keeps_Delete {B} (f : World -> B) id :
  (forall t w, f (set_trace t w) = f w) ->
  (forall v w, f (set_containers v w) = f w) ->
  keeps f (Delete id).
Proof.
  intros Ht Hc.
  unfold Delete, client.LoadContainer, systemd.Stop, systemd.Disable, opts.GetConfig,
    client.Info, GetNetwork, register.Deregister, client.Delete.
  keeps_tac.
Qed.

(** X8.  [Delete] removes the record of the container it is asked to
    delete, and only when it succeeds: a successful [Delete] found the
    container and leaves the runtime's records without it and otherwise
    as they were; a [Delete] that fails at any step, after the unit has
    been stopped and disabled for instance, leaves every record as it
    was.  Images and content are never touched. *)
Theorem Delete_removes_that_record_only (id : string) (w w1 : World) (r : result unit) :
  Delete id w = (r, w1) ->
  (r = Ok tt ->
   is_Some (w_containers w !! id) /\ w_containers w1 = delete id (w_containers w))
  /\ (r <> Ok tt -> w_containers w1 = w_containers w)
  /\ w_images w1 = w_images w
  /\ w_content w1 = w_content w.
Proof.
  intros H. pose proof (Delete_records id w) as HR. rewrite H in HR. simpl in HR.
  pose proof (keeps_Delete w_images id (fun _ _ => eq_refl) (fun _ _ => eq_refl) w) as Hi.
  pose proof (keeps_Delete w_content id (fun _ _ => eq_refl) (fun _ _ => eq_refl) w) as Hc.
  rewrite H in Hi, Hc. simpl in Hi, Hc.
  split; [|split; [|by split]].
  - by intros ->.
  - intros Hr. by destruct r as [[]|e].
Qed.

(** Deleting [web]; and deleting [db], whose config does not decode:
    the unit is stopped and disabled, the error returned and the record
    kept. *)
Lemma Delete_removes_that_record_only_witness :
  w_containers (snd (Delete "web" webAndDbWorld)) = {[ "db" := dbRecord ]}
  /\ fst (Delete "db" webAndDbWorld)
     = Err (Wrap (ErrExternal "proto: cannot unmarshal") "load config")
  /\ w_trace (snd (Delete "db" webAndDbWorld)) = [EvStop "db"; EvDisable "db"]
  /\ w_containers (snd (Delete "db" webAndDbWorld)) = w_containers webAndDbWorld.
Proof.
  split; [|split; [|split]].
  - destruct (Delete_removes_that_record_only "web" webAndDbWorld _ _
                (surjective_pairing _)) as (Hok & _).
    destruct Hok as [_ ->]; vm_compute; reflexivity.
  - vm_compute. reflexivity.
  - vm_compute. reflexivity.
  - destruct (Delete_removes_that_record_only "db" webAndDbWorld _ _
                (surjective_pairing _)) as (_ & Herr & _).
    apply Herr. vm_compute. discriminate.
Defined.

(** X9.  [Delete] does not fail because a service cannot be de-registered.
    For a container whose record and config load, whose unit stops and
    disables and whose network is removed, [Delete] succeeds whatever
    the register answers: it asks the register to de-register every
    service of the config, logs each refusal, and deletes the record
    with revision cleanup as its last call. *)
Theorem Delete_survives_deregister_errors
    (id : string) (w : World) (c : containers.Container) (cfg : v1.Container) :
  id <> "" ->
  w_containers w !! id = Some c ->
  opts.UnmarshalConfig (opts.ext c opts.CurrentConfig) = Ok cfg ->
  v1.Network cfg ∈ [""; "none"; "host"; "cni"] ->
  w_faults w (OpLoadContainer id) = None ->
  w_faults w (OpStop id) = None ->
  w_faults w (OpDisable id) = None ->
  w_faults w (OpInfo id) = None ->
  w_faults w (OpGetNetwork (v1.Network cfg)) = None ->
  w_faults w (OpNetworkRemove id) = None ->
  w_faults w (OpContainerDelete id) = None ->
  exists t,
    Delete id w
    = (Ok tt,
       set_trace (w_trace w ++ [EvStop id; EvDisable id; EvNetworkRemove id] ++ t
                  ++ [EvContainerDelete id WithRevisionCleanup])
         (set_containers (delete id (w_containers w)) w))
    /\ (forall name, name ∈ serviceNames cfg -> EvDeregister id name ∈ t)
    /\ (forall name e,
          name ∈ serviceNames cfg -> w_faults w (OpDeregister id name) = Some e ->
          EvLogError ("de-register " +:+ id +:+ "-" +:+ name) e ∈ t).
Proof.
  intros Hid Hc Hcfg Hnet Hload Hstop Hdis Hinfo Hgn Hnr Hdel.
  set (w3 := set_trace (w_trace w ++ [EvStop id; EvDisable id]) w).
  set (w4 := set_trace (w_trace w ++ [EvStop id; EvDisable id; EvNetworkRemove id]) w).
  destruct (forM_logged_run (fun name => "de-register " +:+ id +:+ "-" +:+ name)
              (EvDeregister id) (OpDeregister id) (serviceNames cfg) w4)
    as (t & Hrun & Hev & Hlog & _).
  exists t. split; [|split; [exact Hev|exact Hlog]].
  unfold Delete. rewrite decide_False by done.
  assert (H1 : wrapped "load container" (client.LoadContainer id) w = (Ok id, w)).
  { unfold client.LoadContainer. by mrun. }
  unfold bind at 1. rewrite H1.
  assert (H2 : wrapped "stop service" (systemd.Stop id) w
               = (Ok tt, set_trace (w_trace w ++ [EvStop id]) w)).
  { unfold systemd.Stop. by mrun. }
  unfold bind at 1. rewrite H2.
  assert (H3 : wrapped "disable service" (systemd.Disable id)
                 (set_trace (w_trace w ++ [EvStop id]) w) = (Ok tt, w3)).
  { unfold systemd.Disable. mrun. unfold w3. by rewrite <- app_assoc. }
  unfold bind at 1. rewrite H3.
  assert (H4 : wrapped "load config" (opts.GetConfig id) w3 = (Ok cfg, w3)).
  { unfold opts.GetConfig, client.Info. by mrun. }
  unfold bind at 1. rewrite H4.
  assert (H5 : wrapped "get network" (GetNetwork (v1.Network cfg)) w3 = (Ok tt, w3)).
  { unfold GetNetwork. mrun. by rewrite bool_decide_true. }
  unfold bind at 1. rewrite H5.
  assert (H6 : invoke (EvNetworkRemove id) (OpNetworkRemove id) w3 = (Ok tt, w4)).
  { mrun. unfold w4. by rewrite <- app_assoc. }
  unfold bind at 1. rewrite H6.
  unfold bind at 1. unfold register.Deregister. rewrite Hrun.
  unfold client.Delete. mrun. by rewrite <- !app_assoc.
Qed.

(** Deleting [api] while the register is unreachable. *)
Lemma Delete_survives_deregister_errors_witness :
  exists w1,
    Delete "api" (apiWorld true registerDown) = (Ok tt, w1)
    /\ w_containers w1 !! "api" = None
    /\ EvLogError "de-register api-http" (ErrExternal "consul: connection refused")
       ∈ w_trace w1.
Proof.
  destruct (Delete_survives_deregister_errors "api" (apiWorld true registerDown)
              apiRecord apiConfig) as (t & Hrun & _ & Hlog); try (vm_compute; reflexivity).
  - discriminate.
  - vm_compute. apply list_elem_of_In. simpl. tauto.
  - eexists. split; [exact Hrun|]. split; [apply lookup_delete_eq|].
    simpl. rewrite !elem_of_cons, elem_of_app. do 3 right. left.
    apply (Hlog "http"); [|reflexivity].
    vm_compute. apply list_elem_of_In. simpl. tauto.
Defined.

(** ** Kill *)

(** X10.  [Kill] puts every service of the container's config into
    maintenance before it looks the task up, whatever the register
    answers.  It then sends SIGTERM, once, to the task of a running
    container and returns what the runtime answers; for a container
    that has no task it returns the not-found error, having sent no
    signal and with the services already in maintenance. *)
Theorem Kill_sets_maintenance_before_signalling
    (id : string) (w : World) (c : containers.Container) (cfg : v1.Container) :
  id <> "" ->
  w_containers w !! id = Some c ->
  opts.UnmarshalConfig (opts.ext c opts.CurrentConfig) = Ok cfg ->
  w_faults w (OpLoadContainer id) = None ->
  w_faults w (OpInfo id) = None ->
  w_faults w (OpTask id) = None ->
  exists t,
    (forall name, name ∈ serviceNames cfg -> EvMaintenance id name "manual kill" ∈ t)
    /\ (forall sig, EvKill id sig ∉ t)
    /\ match w_tasks w !! id with
       | None => Kill id w = (Err ErrNotFound, set_trace (w_trace w ++ t) w)
       | Some _ =>
           Kill id w
           = (match w_faults w (OpKill id SIGTERM) with
              | None => Ok tt
              | Some e => Err e
              end,
              set_trace (w_trace w ++ t ++ [EvKill id SIGTERM]) w)
       end.
Proof.
  intros Hid Hc Hcfg Hload Hinfo Htask.
  destruct (forM_logged_run (fun name => "enable maintaince " +:+ id +:+ "-" +:+ name)
              (fun name => EvMaintenance id name "manual kill")
              (OpMaintenance id) (serviceNames cfg) w)
    as (t & Hrun & Hev & _ & Hall).
  exists t. split; [exact Hev|]. split.
  { intros sig Hin. rewrite Forall_forall in Hall.
    destruct (Hall _ Hin) as [(a & _ & [=])|(a & e & [=])]. }
  assert (Hstart : Kill id w
                   = (let* _ := client.Task id in client.Kill id SIGTERM)
                       (set_trace (w_trace w ++ t) w)).
  { unfold Kill. rewrite decide_False by done.
    assert (H1 : client.LoadContainer id w = (Ok id, w)).
    { unfold client.LoadContainer. by mrun. }
    unfold bind at 1. rewrite H1.
    assert (H2 : opts.GetConfig id w = (Ok cfg, w)).
    { unfold opts.GetConfig, client.Info. by mrun. }
    unfold bind at 1. rewrite H2.
    unfold bind at 1. unfold register.EnableMaintainance. by rewrite Hrun. }
  rewrite Hstart. unfold client.Task, client.Kill. mrun.
  destruct (w_tasks w !! id); simpl; [|done].
  rewrite <- app_assoc. by destruct (w_faults w (OpKill id SIGTERM)).
Qed.

(** Killing [api] when it has no task and the register is
    unreachable. *)
Lemma Kill_sets_maintenance_before_signalling_witness :
  exists w1,
    Kill "api" (apiWorld false registerDown) = (Err ErrNotFound, w1)
    /\ EvMaintenance "api" "http" "manual kill" ∈ w_trace w1
    /\ EvMaintenance "api" "metrics" "manual kill" ∈ w_trace w1.
Proof.
  destruct (Kill_sets_maintenance_before_signalling "api" (apiWorld false registerDown)
              apiRecord apiConfig) as (t & Hev & _ & Hrun); try (vm_compute; reflexivity).
  - discriminate.
  - change (w_tasks (apiWorld false registerDown) !! "api") with (@None task) in Hrun.
    eexists. split; [exact Hrun|]. simpl.
    split; apply Hev; vm_compute; apply list_elem_of_In; simpl; tauto.
Defined.

(** ** Create *)

(** Every way [Create] can end for an id the runtime does not hold. *)
Lemma Create_fresh (container : v1.Container) (update : bool) (w w1 : World)
    (r : result unit) :
  let id := v1.ID container in
  w_containers w !! id = None ->
  Create container update w = (r, w1) ->
  exists rec t,
    containers.ID rec = id
    /\ opts.ext rec opts.CurrentConfig = opts.marshal container
    /\ w_trace w1 = w_trace w ++ t
    /\ match r with
       | Ok _ =>
           w_containers w1 = <[id := rec]> (w_containers w)
           /\ exists t', t = t' ++ [EvStoreWrite id; EvEnable id; EvStart id]
       | Err e =>
           w_containers w1 = w_containers w
           \/ (w_containers w1 = <[id := rec]> (w_containers w)
               /\ ((w_faults w (OpStoreWrite id) = None
                    /\ (w_faults w (OpEnable id) = Some e
                        \/ w_faults w (OpStart id) = Some e))
                   \/ (w_faults w (OpStoreWrite id) = Some e
                       /\ is_Some (w_faults w (OpContainerDelete id)))))
       end.
Proof.
  intros id Hnone H. unfold Create in H. fold id in H. unfold bind at 1 in H.
  destruct (Pull_world (v1.Image container) w) as (t0 & Hw & Himg).
  destruct (Pull (v1.Image container) w) as [[image|e] wp]; simpl in Hw, Himg; subst wp.
  2: { injection H as <- <-.
       exists {| containers.ID := id; containers.Image := v1.Image container;
                 containers.Labels := ∅; containers.Snapshotter := "";
                 containers.SnapshotKey := id;
                 containers.Extensions := <[opts.CurrentConfig := opts.marshal container]> ∅;
                 containers.Checkpoint := None |}, t0.
       repeat split; try done. by left. }
  rewrite (Himg image eq_refl) in H. clear Himg image.
  destruct (LoadContainer_missing id (set_trace (w_trace w ++ t0) w)) as [e0 Hl]; [done|].
  rewrite Hl in H. clear Hl.
  unfold volumeRoot, doLocal, conn_Do, client.NewContainer, store_Write, client.Delete,
    systemd.Enable, systemd.Start in H.
  cbn [client.applyOpts] in H.
  unfold flux.WithNewSnapshot, opts.WithBossConfig, opts.WithContainerExtension in H.
  munfold_in H. fold id in H.
  run_in H; injection H as <- <-; simpl in *.
  all: exists {| containers.ID := id; containers.Image := v1.Image container;
                 containers.Labels := ∅; containers.Snapshotter := "";
                 containers.SnapshotKey := id;
                 containers.Extensions := <[opts.CurrentConfig := opts.marshal container]> ∅;
                 containers.Checkpoint := None |}.
  all: eexists; split; [reflexivity|]; split; [reflexivity|].
  all: split; [rewrite <- ?app_assoc; reflexivity|]; simpl.
  all: rewrite ?lookup_insert_eq in *; rewrite ?delete_insert_id by done.
  all: try (by left).
  all: try (split; [reflexivity|]; eexists (t0 ++ [_]); by rewrite <- !app_assoc).
  all: right; split; [reflexivity|].
  all: first [ by left; split; [|left] | by left; split; [|right]
             | by right; split; [|eexists] ].
Qed.

(** X11.  A container that [Create] has made is the one asked for: the
    runtime holds a record under the id, every other record is as it
    was, and [GetConfig] on the new container gives back the config
    that was passed in.  The config has been persisted and the unit
    enabled and started, in that order, as the last three calls. *)
Theorem Create_then_GetConfig (container : v1.Container) (update : bool) (w w1 : World) :
  let id := v1.ID container in
  w_containers w !! id = None ->
  Create container update w = (Ok tt, w1) ->
  (exists rec, w_containers w1 = <[id := rec]> (w_containers w) /\ containers.ID rec = id)
  /\ (exists t, w_trace w1 = w_trace w ++ t ++ [EvStoreWrite id; EvEnable id; EvStart id])
  /\ (w_faults w1 (OpInfo id) = None -> opts.GetConfig id w1 = (Ok container, w1)).
Proof.
  intros id Hnone H.
  destruct (Create_fresh container update w w1 (Ok tt) Hnone H)
    as (rec & t & Hid & Hext & Ht & Hc & t' & ->).
  fold id in Hc. split; [by eauto|]. split; [by eauto|].
  intros Hinfo. unfold opts.GetConfig, client.Info. mrun.
  rewrite lookup_insert_eq. simpl. by rewrite Hext.
Qed.

(** [web] is created on an empty node. *)
Lemma Create_then_GetConfig_witness :
  let w1 := snd (Create webConfig false bareWorld) in
  opts.GetConfig "web" w1 = (Ok webConfig, w1)
  /\ w_trace w1 = [EvPull "r/nginx:1" false; EvNewSpec "web" "";
                   EvStoreWrite "web"; EvEnable "web"; EvStart "web"].
Proof.
  intros w1. split.
  - apply (Create_then_GetConfig webConfig false bareWorld w1).
    + reflexivity.
    + vm_compute. reflexivity.
    + vm_compute. reflexivity.
  - vm_compute. reflexivity.
Defined.

(** X12.  A [Create] that fails for an id the runtime does not hold cleans
    up after itself only when persisting the config is what failed.
    The runtime's records are as before the call, except in two cases
    in which the new record stays behind: enabling or starting the unit
    failed (the error returned is that of the unit manager), or
    persisting the config failed and so did the delete that was to undo
    the creation. *)
Theorem Create_failure_leaves_record_unless_store_write_failed
    (container : v1.Container) (update : bool) (w w1 : World) (e : error) :
  let id := v1.ID container in
  w_containers w !! id = None ->
  Create container update w = (Err e, w1) ->
  w_containers w1 = w_containers w
  \/ ((exists rec, w_containers w1 = <[id := rec]> (w_containers w))
      /\ ((w_faults w (OpStoreWrite id) = None
           /\ (w_faults w (OpEnable id) = Some e \/ w_faults w (OpStart id) = Some e))
          \/ (w_faults w (OpStoreWrite id) = Some e
              /\ is_Some (w_faults w (OpContainerDelete id))))).
Proof.
  intros id Hnone H.
  destruct (Create_fresh container update w w1 (Err e) Hnone H)
    as (rec & t & _ & _ & _ & [Hsame|[Hrec Hwhy]]); [by left|].
  right. split; [by exists rec|exact Hwhy].
Qed.

(** Creating [web] where the config store is down, and where the unit
    cannot be enabled. *)
Lemma Create_failure_leaves_record_unless_store_write_failed_witness :
  w_containers (snd (Create webConfig false (set_faults storeWriteFails bareWorld))) = ∅
  /\ is_Some (w_containers (snd (Create webConfig false (set_faults enableFails bareWorld)))
              !! "web").
Proof.
  split.
  - destruct (Create_failure_leaves_record_unless_store_write_failed webConfig false
                (set_faults storeWriteFails bareWorld)
                (snd (Create webConfig false (set_faults storeWriteFails bareWorld)))
                (ErrExternal "consul: no leader"))
      as [Hsame|[_ [[Hno _]|[_ Hdel]]]].
    + vm_compute. reflexivity.
    + vm_compute. reflexivity.
    + exact Hsame.
    + vm_compute in Hno. discriminate Hno.
    + vm_compute in Hdel. by destruct Hdel.
  - destruct (Create_failure_leaves_record_unless_store_write_failed webConfig false
                (set_faults enableFails bareWorld)
                (snd (Create webConfig false (set_faults enableFails bareWorld)))
                (ErrExternal "systemd: no such unit"))
      as [Hsame|[[rec Hrec] _]].
    + vm_compute. reflexivity.
    + vm_compute. reflexivity.
    + vm_compute in Hsame. discriminate Hsame.
    + rewrite Hrec. simpl. rewrite lookup_insert_eq. by eexists.
Defined.




(** ** Queries *)

Lemma emits_walkSnapshots P id sis : forall ss, emits P (walkSnapshots id sis ss).
Proof.
  induction sis as [|si sis IH]; intros ss; simpl; [apply emits_ret|].
  destruct (decide _); [apply IH|].
  unfold client.Usage. emits_tac. apply IH.
Qed.

Lemma emits_bindSizesLoop ms : forall size, emits isLog (bindSizesLoop ms size).
Proof.
  induction ms as [|m ms IH]; intros size; simpl; [apply emits_ret|].
  intros w. destruct (os_Open (v1.Source m) w) as [err|].
  { destruct (IH size (set_trace (w_trace w ++
                [EvLogWarn ("unable to open bind for size " +:+ v1.Source m) err]) w))
      as (t & Ht & HP).
    exists (EvLogWarn ("unable to open bind for size " +:+ v1.Source m) err :: t).
    split; [by rewrite Ht; simpl; rewrite <- app_assoc|]. by constructor. }
  destruct (f_Stat (v1.Source m) w) as [[[] sz]|e].
  - destruct (walk _ size); [apply IH|]. exists []. by rewrite app_nil_r.
  - apply IH.
  - exists []. by rewrite app_nil_r.
Qed.

Lemma emits_info id : emits isLog (info id).
Proof.
  unfold info, client.Info, client.Usage.
  do 7 (apply emits_bind; [by first [apply emits_walkSnapshots | apply emits_bindSizesLoop
                                    | emits_tac]|intros ?]).
  intros w. destruct (emits_Task isLog id w) as (t & Ht & HP).
  destruct (client.Task id w) as [[task|err] w1]; simpl in *.
  - exists t. split; [|done]. rewrite <- Ht. unfold bind, call, ret.
    destruct (w_faults w1 (OpTaskStatus id)); [done|].
    by destruct (w_faults w1 (OpMetrics id)).
  - exists t. split; [|done]. by destruct (IsNotFound err).
Qed.

Lemma keeps_info id : keeps (set_trace []) (info id).
Proof. intros w. apply (tb_info id w). Qed.

Lemma readOnly_listLoop cs : forall resp, readOnly (listLoop cs resp).
Proof.
  induction cs as [|c cs IH]; intros resp; simpl.
  { split; [apply keeps_ret|apply emits_ret]. }
  split.
  - intros w. pose proof (keeps_info c w) as Hk.
    destruct (info c w) as [[l|err] w1]; simpl in *.
    + by rewrite (proj1 (IH _) w1).
    + by rewrite (proj1 (IH _) _).
  - intros w. destruct (emits_info c w) as (t & Ht & HP).
    destruct (info c w) as [[l|err] w1]; simpl in *.
    + destruct (proj2 (IH (resp ++ [l])) w1) as (t1 & Ht1 & HP1).
      exists (t ++ t1). split; [by rewrite Ht1, Ht, app_assoc|]. by apply Forall_app.
    + destruct (proj2 (IH (resp ++ [listError c]))
                  (set_trace (w_trace w1 ++ [EvLogError "info container" err]) w1))
        as (t1 & Ht1 & HP1).
      exists (t ++ EvLogError "info container" err :: t1).
      split; [by rewrite Ht1; simpl; rewrite Ht, <- !app_assoc|].
      apply Forall_app. split; [done|]. by constructor.
Qed.

(** X14.  [Get], [List] and [Nodes] only look.  Whatever they return, the
    membership, the store, the files, the runtime's containers, tasks,
    snapshots, images and content and the registry are as before; the
    only traces they leave are log lines: the warning for a bind-mount
    source that does not open, and the error of a container whose info
    [List] could not get. *)
Theorem queries_only_look :
  (forall id, readOnly (Get id)) /\ readOnly List /\ readOnly Nodes.
Proof.
  split; [|split].
  - intros id. unfold Get. destruct (decide (id = "")).
    { split; [apply keeps_fail|apply emits_fail]. }
    split.
    + apply keeps_bind; [unfold client.LoadContainer; keeps_tac|].
      intros c. apply keeps_info.
    + apply emits_bind; [unfold client.LoadContainer; emits_tac|].
      intros c. apply emits_info.
  - unfold List, client.Containers. split.
    + apply keeps_bind; [keeps_tac|]. intros cs. apply readOnly_listLoop.
    + apply emits_bind; [emits_tac|]. intros cs. apply readOnly_listLoop.
  - unfold Nodes, node_LocalNode, node_Peers. split; [keeps_tac|emits_tac].
Qed.

(** ** Starting the agent on the master node *)

(** Either every address of a list of peers splits, or there is a first
    one that does not. *)
Lemma hosts_or_bad_address (peers : list element.PeerAgent) :
  (exists hosts, Forall2 hostOf peers hosts)
  \/ (exists pre p post hosts e,
        peers = pre ++ p :: post /\ Forall2 hostOf pre hosts
        /\ net.SplitHostPort (element.Addr p) = Err e).
Proof.
  induction peers as [|p ps IH].
  - left. by exists [].
  - destruct (net.SplitHostPort (element.Addr p)) as [[h port]|e] eqn:E.
    + destruct IH as [[hosts Hh]|(pre & q & post & hosts & e & -> & Hh & Hq)].
      * left. exists (h :: hosts). constructor; [by exists port|done].
      * right. exists (p :: pre), q, post, (h :: hosts), e.
        split; [done|]. split; [|done]. constructor; [by exists port|done].
    + right. exists [], p, ps, [], e. by repeat split.
Qed.

(** A [writeResolvConf] that succeeds has split every address and left
    the file with one line per peer. *)
Lemma writeResolvConf_Ok (peers : list element.PeerAgent) (w w1 : World) :
  peers <> [] ->
  writeResolvConf peers w = (Ok tt, w1) ->
  exists hosts,
    Forall2 hostOf peers hosts
    /\ w1 = set_files (<[filepath_Join (w_Root w) "resolv.conf" := nameserverLines hosts]>
                         (w_files w)) w.
Proof.
  intros Hne H.
  pose (path := filepath_Join (w_Root w) "resolv.conf").
  unfold writeResolvConf in H.
  unfold bind at 1 in H. unfold get at 1 in H.
  unfold bind at 1 in H. unfold call at 1 in H.
  destruct (w_faults w (OpOpenFile path)) as [e|] eqn:Ho; subst path; rewrite Ho in H;
    [discriminate|].
  unfold bind at 1 in H. unfold modify at 1 in H.
  pose (path := filepath_Join (w_Root w) "resolv.conf"). fold path in H, Ho.
  destruct (w_faults w (OpWriteString path)) as [e|] eqn:Hw.
  { destruct peers as [|p ps]; [done|].
    simpl in H. unfold bind, call, lift in H. simpl in H.
    destruct (net.SplitHostPort (element.Addr p)) as [[h port]|e']; [|discriminate].
    change (w_faults (set_files _ w)) with (w_faults w) in H.
    rewrite Hw in H. discriminate. }
  destruct (hosts_or_bad_address peers)
    as [[hosts Hh]|(pre & p & post & hosts & e & -> & Hh & Hp)].
  - exists hosts. split; [done|].
    rewrite <- (app_nil_r peers) in H.
    rewrite (writeResolvConf_loop path peers hosts [] "") in H;
      [|done|done|apply lookup_insert_eq].
    simpl in H. rewrite insert_insert_eq in H. by injection H as <-.
  - rewrite (writeResolvConf_loop path pre hosts (p :: post) "") in H;
      [|done|done|apply lookup_insert_eq].
    simpl in H. unfold bind, lift in H. by rewrite Hp in H.
Qed.

(** X15.  On the master node [New] looks for no master and attaches the
    local store to nobody: it issues no SLAVEOF, the master pool and the
    local pool both dial the local store on the store port, and the
    only call that leaves the process is the subscription to membership
    events.  When it succeeds, every address of the peers and of the
    node itself has split, and resolv.conf lists the peers' hosts in
    enumeration order followed by the node's own. *)
Theorem New_on_master (c0 : config.Config) (storePort : Z) (w w1 : World)
    (a : Agent) (loop : M unit) :
  config.Master (config.agent c0) = true ->
  New c0 storePort w = (Ok (a, loop), w1) ->
  master a = "127.0.0.1:" +:+ pretty storePort
  /\ local a = master a
  /\ w_trace w1 = w_trace w ++ [EvSubscribe]
  /\ exists hosts,
       Forall2 hostOf (w_peers w ++ [w_me w]) hosts
       /\ w_files w1
          = <[filepath_Join (w_Root w) "resolv.conf" := nameserverLines hosts]> (w_files w).
Proof.
  intros Hm H. unfold New, newLocalStore in H. rewrite Hm in H. simpl in H.
  unfold bind at 1 in H. unfold call at 1 in H.
  destruct (w_faults w OpGetRegister); [discriminate|].
  unfold bind at 1 in H. unfold call at 1 in H.
  destruct (w_faults w OpNewLocalStore); [discriminate|].
  unfold bind at 1 in H. unfold ret at 1 in H.
  unfold bind at 1 in H. unfold ret at 1 in H.
  unfold bind at 1 in H.
  unfold handleResolvConf, node_Peers, node_LocalNode in H.
  unfold bind at 1 in H. unfold bind at 1 in H. unfold call at 1 in H.
  destruct (w_faults w OpPeers); [discriminate|]. unfold get at 1 in H.
  unfold bind at 1 in H. unfold bind at 1 in H. unfold call at 1 in H.
  destruct (w_faults w OpLocalNode); [discriminate|]. unfold get at 1 in H.
  unfold bind at 1 in H.
  destruct (writeResolvConf (w_peers w ++ [w_me w]) w) as [[[]|e] w'] eqn:E;
    [|discriminate].
  apply writeResolvConf_Ok in E as (hosts & Hh & ->); [|by destruct (w_peers w)].
  unfold bind, emit, modify, ret in H. simpl in H.
  injection H as <- _ <-. simpl. repeat split; try done. by exists hosts.
Qed.

(** A master with one peer. *)
Lemma New_on_master_witness :
  let c0 := {| config.ID := "node0";
               config.agent := {| config.Peers := []; config.Master := true |} |} in
  match New c0 6379 (set_peers [plainPeer] bareWorld) with
  | (Ok (a, _), w1) =>
      master a = "127.0.0.1:6379" /\ local a = "127.0.0.1:6379"
      /\ w_trace w1 = [EvSubscribe]
      /\ w_files w1 !! "/var/lib/boss/resolv.conf"
         = Some (nameserverLines ["10.0.0.3"; "10.0.0.1"])
  | (Err _, _) => False
  end.
Proof.
  intros c0.
  assert (Hok : is_ok (fst (New c0 6379 (set_peers [plainPeer] bareWorld))) = true)
    by (vm_compute; reflexivity).
  destruct (New c0 6379 (set_peers [plainPeer] bareWorld)) as [[[a loop]|e] w1] eqn:E;
    [|discriminate Hok].
  destruct (New_on_master c0 6379 _ w1 a loop eq_refl E) as (Hma & Hl & Ht & hosts & Hh & Hf).
  split; [exact Hma|]. split; [by rewrite Hl, Hma|]. split; [exact Ht|].
  rewrite Hf. simpl. rewrite lookup_insert_eq. f_equal. f_equal.
  apply Forall2_cons_inv_l in Hh as (h1 & hs & [p1 H1] & Hh & ->).
  apply Forall2_cons_inv_l in Hh as (h2 & hs' & [p2 H2] & Hh & ->).
  apply Forall2_nil_inv_l in Hh as ->.
  vm_compute in H1, H2. by injection H1 as <- _; injection H2 as <- _.
Defined.

(** ** Migration, step by step *)

Lemma keeps_Checkpoint {B} (f : World -> B) req :
  (forall t w, f (set_trace t w) = f w) ->
  (forall v w, f (set_content v w) = f w) ->
  (forall v w, f (set_images v w) = f w) ->
  keeps f (Checkpoint req).
Proof.
  intros Ht Hc Hi.
  unfold Checkpoint, client.WithLease, client.done, client.LoadContainer, client.Info,
    writeIndex, writeContent, CreateDiff, TaskCheckpoint, client.ImageCreate,
    systemd.Stop, json_Marshal.
  keeps_tac.
Qed.

Lemma keeps_Push {B} (f : World -> B) ref :
  (forall t w, f (set_trace t w) = f w) ->
  (forall v w, f (set_registry v w) = f w) ->
  keeps f (Push ref).
Proof.
  intros Ht Hr. unfold Push, client.GetImage, client_Push. keeps_tac.
Qed.

Lemma keeps_ImageDelete {B} (f : World -> B) ref :
  (forall t w, f (set_trace t w) = f w) ->
  (forall v w, f (set_images v w) = f w) ->
  keeps f (client.ImageDelete ref).
Proof.
  intros Ht Hi. unfold client.ImageDelete. keeps_tac.
Qed.

(** What a successful [Push] has put in the registry. *)
Lemma Push_Ok ref w w1 :
  Push ref w = (Ok tt, w1) ->
  exists d, w_images w !! ref = Some d /\ w_registry w1 = <[ref := d]> (w_registry w).
Proof.
  intros H. unfold Push in H. destruct (decide (ref = "")); [discriminate|].
  unfold client.GetImage in H.
  unfold bind at 1 in H. unfold bind at 1 in H. unfold call at 1 in H.
  destruct (w_faults w (OpGetImage ref)); [discriminate|].
  unfold lookupM at 1 in H.
  destruct (w_images w !! ref) as [d|] eqn:E; [|discriminate].
  exists d. split; [done|].
  unfold client_Push in H. unfold bind at 1 in H.
  pose proof (keeps_withPlainRemote w_registry (fun _ _ => eq_refl) ref w) as Hk.
  destruct (withPlainRemote ref w) as [[plain|e] w']; [|discriminate]. simpl in Hk.
  unfold invoke, emit in H. munfold_in H. simpl in H.
  destruct (w_faults w' (OpPush ref)); [discriminate|].
  injection H as <-. simpl. by rewrite Hk.
Qed.

(** What the deferred image delete of [Migrate] leaves of the image
    store. *)
Lemma ImageDelete_images ref w :
  w_images (snd (client.ImageDelete ref w))
  = match w_faults w (OpImageDelete ref) with
    | None => delete ref (w_images w)
    | Some _ => w_images w
    end.
Proof.
  unfold client.ImageDelete. mrun.
  destruct (w_faults w (OpImageDelete ref)); [done|]. simpl.
  destruct (w_images w !! ref) eqn:E; simpl; [done|].
  by rewrite delete_id.
Qed.

Theorem Migrate_deletes_local_image_on_every_path
    (req : MigrateRequest) (w w1 : World) (e : error) :
  mg_ID req <> "" ->
  w_faults w (OpRemoteDial (mg_To req)) = None ->
  w_faults w (OpRemoteGet (mg_To req) (mg_ID req)) = Some e ->
  Checkpoint {| ck_ID := mg_ID req; ck_Live := mg_Live req; ck_Ref := mg_Ref req;
                ck_Exit := mg_Stop req || mg_Delete req |} w = (Ok tt, w1) ->
  exists r w' t d,
    Migrate req w = (r, w')
    /\ r = fst ((let* _ := Push (mg_Ref req) in
                 let* _ := invoke (EvRemoteRestore (mg_To req) (mg_Ref req) (mg_Live req))
                             (OpRemoteRestore (mg_To req) (mg_Ref req)) in
                 if mg_Delete req then Delete (mg_ID req) else ret tt) w1)
    /\ w_trace w' = w_trace w1 ++ t ++ [EvImageDelete (mg_Ref req); EvRemoteClose (mg_To req)]
    /\ w_images w1 !! mg_Ref req = Some d
    /\ (w_faults w (OpImageDelete (mg_Ref req)) = None -> w_images w' !! mg_Ref req = None)
    /\ (is_Some (w_faults w (OpImageDelete (mg_Ref req))) ->
        w_images w' !! mg_Ref req = Some d).
Proof.
  intros Hid Hdial Hget Hck.
  set (body := let* _ := Push (mg_Ref req) in
               let* _ := invoke (EvRemoteRestore (mg_To req) (mg_Ref req) (mg_Live req))
                           (OpRemoteRestore (mg_To req) (mg_Ref req)) in
               if mg_Delete req then Delete (mg_ID req) else ret tt).
  assert (Hbody : steady body).
  { unfold body. apply steady_bind; [apply steady_Push|]. intros _.
    apply steady_bind; [apply steady_invoke|]. intros _.
    destruct (mg_Delete req); [apply steady_Delete|apply steady_ret]. }
  assert (Hkeep : keeps w_images body).
  { unfold body. apply keeps_bind; [by apply keeps_Push|]. intros _.
    apply keeps_bind; [by apply keeps_invoke|]. intros _.
    destruct (mg_Delete req); [by apply keeps_Delete|apply keeps_ret]. }
  destruct (deferred_ImageDelete (mg_Ref req) body w1 Hbody) as (t & Ht & Hf & Hr & Himg).
  destruct (steady_Checkpoint
              {| ck_ID := mg_ID req; ck_Live := mg_Live req; ck_Ref := mg_Ref req;
                 ck_Exit := mg_Stop req || mg_Delete req |} w) as [Hf1 _].
  rewrite Hck in Hf1. simpl in Hf1.
  destruct (Checkpoint_success _ w w1 Hck) as (c0 & ds & _ & _ & _ & _ & Himgs).
  simpl in Himgs.
  assert (Hafter : w_images (snd (defer_ (ignore_ (client.ImageDelete (mg_Ref req))) body w1))
                   = match w_faults w (OpImageDelete (mg_Ref req)) with
                     | None => delete (mg_Ref req) (w_images w1)
                     | Some _ => w_images w1
                     end).
  { unfold defer_. specialize (Hkeep w1). destruct (Hbody w1) as [Hfb _].
    destruct (body w1) as [rb wb]. simpl in *.
    unfold ignore_. rewrite ImageDelete_images, Hfb, Hf1, Hkeep. done. }
  unfold Migrate. destruct (decide (mg_ID req = "")) as [|_]; [done|].
  unfold bind at 1. unfold call at 1. rewrite Hdial.
  unfold defer_ at 1. unfold bind at 1. unfold targetFree at 1. rewrite Hget.
  unfold bind at 1. rewrite Hck. fold body.
  destruct (defer_ (ignore_ (client.ImageDelete (mg_Ref req))) body w1) as [r wd] eqn:E.
  simpl in *.
  exists r, (set_trace (w_trace wd ++ [EvRemoteClose (mg_To req)]) wd), t.
  eexists.
  split; [reflexivity|]. split; [by rewrite <- Hr|]. split; [|split; [|split]].
  - simpl. by rewrite Ht, <- !app_assoc.
  - rewrite Himgs. apply lookup_insert_eq.
  - intros Hdel. simpl. apply Himg. by rewrite Hf1.
  - intros [e' He']. simpl. rewrite Hafter, He', Himgs. apply lookup_insert_eq.
Qed.

(** Migration of [web] with delete: when all goes well, when the push
    fails, when the restore on the target fails, and when the image
    service refuses the delete. *)
Lemma Migrate_deletes_local_image_on_every_path_witness :
  (exists w', Migrate (migrateWeb true) (migrateWorld targetIsFree) = (Ok tt, w')
              /\ w_images w' !! "r/ck/web:1" = None)
  /\ (exists w', Migrate (migrateWeb true) (migrateWorld pushFails)
                 = (Err (ErrExternal "push: connection reset"), w')
                 /\ w_images w' !! "r/ck/web:1" = None)
  /\ (exists w', Migrate (migrateWeb true) (migrateWorld remoteRestoreFails)
                 = (Err errMediaTypeNotFound, w')
                 /\ w_images w' !! "r/ck/web:1" = None)
  /\ (exists w', Migrate (migrateWeb true) (migrateWorld imageDeleteFails) = (Ok tt, w')
                 /\ is_Some (w_images w' !! "r/ck/web:1")).
Proof.
  assert (H : forall faults r,
             faults (OpRemoteDial "10.0.0.3:1234") = None ->
             faults (OpRemoteGet "10.0.0.3:1234" "web") = Some ErrNotFound ->
             fst (Checkpoint {| ck_ID := "web"; ck_Live := false; ck_Ref := "r/ck/web:1";
                                ck_Exit := true |} (migrateWorld faults)) = Ok tt ->
             fst (Migrate (migrateWeb true) (migrateWorld faults)) = r ->
             exists w', Migrate (migrateWeb true) (migrateWorld faults) = (r, w')
                        /\ (faults (OpImageDelete "r/ck/web:1") = None ->
                            w_images w' !! "r/ck/web:1" = None)
                        /\ (is_Some (faults (OpImageDelete "r/ck/web:1")) ->
                            is_Some (w_images w' !! "r/ck/web:1"))).
  { intros faults r Hd Hg Hck Hr.
    destruct (Checkpoint {| ck_ID := "web"; ck_Live := false; ck_Ref := "r/ck/web:1";
                            ck_Exit := true |} (migrateWorld faults)) as [rc w1] eqn:Eck.
    simpl in Hck. subst rc.
    destruct (Migrate_deletes_local_image_on_every_path (migrateWeb true)
                (migrateWorld faults) w1 ErrNotFound)
      as (r' & w' & t & d & Hm & _ & _ & _ & Hgone & Hstays); try done.
    rewrite Hm in Hr. simpl in Hr. subst r'.
    exists w'. split; [exact Hm|]. split; [exact Hgone|].
    intros Hs. pose proof (Hstays Hs) as Himg. simpl in Himg. by rewrite Himg. }
  split; [|split; [|split]].
  - destruct (H targetIsFree (Ok tt)) as (w' & Hm & Hg & _); try (vm_compute; reflexivity).
    exists w'. split; [exact Hm|]. by apply Hg.
  - destruct (H pushFails (Err (ErrExternal "push: connection reset")))
      as (w' & Hm & Hg & _); try (vm_compute; reflexivity).
    exists w'. split; [exact Hm|]. by apply Hg.
  - destruct (H remoteRestoreFails (Err errMediaTypeNotFound))
      as (w' & Hm & Hg & _); try (vm_compute; reflexivity).
    exists w'. split; [exact Hm|]. by apply Hg.
  - destruct (H imageDeleteFails (Ok tt)) as (w' & Hm & _ & Hs); try (vm_compute; reflexivity).
    exists w'. split; [exact Hm|]. apply Hs. by eexists.
Defined.

(** C10 as stated fails: the error of the deferred delete is dropped.
    When the image service refuses the delete, [Migrate] returns as if
    nothing had happened and the checkpoint image stays in the local
    image store, after a migration that succeeded as after one whose
    push failed. *)
Lemma Migrate_leaves_image_when_delete_fails :
  (exists w' d, Migrate (migrateWeb true) (migrateWorld imageDeleteFails) = (Ok tt, w')
                /\ w_images w' !! "r/ck/web:1" = Some d)
  /\ (exists w' d, Migrate (migrateWeb true) (migrateWorld pushAndImageDeleteFail)
                   = (Err (ErrExternal "push: connection reset"), w')
                   /\ w_images w' !! "r/ck/web:1" = Some d).
Proof.
  split.
  - destruct (Migrate (migrateWeb true) (migrateWorld imageDeleteFails)) as [r w'] eqn:E.
    vm_compute in E. injection E as <- <-. do 2 eexists. split; [reflexivity|].
    vm_compute. reflexivity.
  - destruct (Migrate (migrateWeb true) (migrateWorld pushAndImageDeleteFail)) as [r w'] eqn:E.
    vm_compute in E. injection E as <- <-. do 2 eexists. split; [reflexivity|].
    vm_compute. reflexivity.
Qed.

(** X16.  A successful [Migrate]: the target did not host the container; the
    ref named no local image before; the registry holds the checkpoint
    index under the ref; the local image store is as it was before the
    migration, provided the image service carried out the delete; and
    the local container is gone exactly when the request asked for it
    to be deleted. *)
Theorem Migrate_success (req : MigrateRequest) (w w1 : World) :
  Migrate req w = (Ok tt, w1) ->
  is_Some (w_faults w (OpRemoteGet (mg_To req) (mg_ID req)))
  /\ is_Some (w_containers w !! mg_ID req)
  /\ w_images w !! mg_Ref req = None
  /\ (exists d, w_registry w1 = <[mg_Ref req := d]> (w_registry w)
                /\ ispec.MediaType d = ispec.MediaTypeImageIndex)
  /\ (w_faults w (OpImageDelete (mg_Ref req)) = None -> w_images w1 = w_images w)
  /\ w_containers w1
     = (if mg_Delete req then delete (mg_ID req) (w_containers w) else w_containers w).
Proof.
  intros H. unfold Migrate in H.
  destruct (decide (mg_ID req = "")); [discriminate|].
  unfold bind at 1 in H. unfold call at 1 in H.
  destruct (w_faults w (OpRemoteDial (mg_To req))); [discriminate|].
  unfold defer_ at 1 in H.
  match type of H with
  | (let (r, w') := ?body w in _) = _ => destruct (body w) as [r wb] eqn:Hb
  end.
  injection H as -> <-.
  unfold bind at 1 in Hb. unfold targetFree at 1 in Hb.
  destruct (w_faults w (OpRemoteGet (mg_To req) (mg_ID req))) as [e0|] eqn:Hget;
    [|discriminate].
  unfold bind at 1 in Hb.
  set (ck := {| ck_ID := mg_ID req; ck_Ref := mg_Ref req; ck_Live := mg_Live req;
                ck_Exit := mg_Stop req || mg_Delete req |}) in *.
  pose proof (keeps_Checkpoint w_containers ck
                (fun _ _ => eq_refl) (fun _ _ => eq_refl) (fun _ _ => eq_refl) w) as Kc.
  pose proof (keeps_Checkpoint w_registry ck
                (fun _ _ => eq_refl) (fun _ _ => eq_refl) (fun _ _ => eq_refl) w) as Kr.
  pose proof (keeps_Checkpoint w_faults ck
                (fun _ _ => eq_refl) (fun _ _ => eq_refl) (fun _ _ => eq_refl) w) as Kf.
  destruct (Checkpoint ck w) as [[[]|e] wc] eqn:Hck; [|discriminate].
  simpl in Kc, Kr, Kf.
  destruct (Checkpoint_success ck w wc Hck) as (c & ds & Hc & Hfree & _ & _ & Hi).
  simpl in Hc, Hfree, Hi.
  unfold defer_ at 1 in Hb.
  match type of Hb with
  | (let (r, w') := ?body wc in _) = _ => destruct (body wc) as [r wi] eqn:Hi2
  end.
  injection Hb as -> <-.
  unfold bind at 1 in Hi2.
  pose proof (keeps_Push w_containers (mg_Ref req)
                (fun _ _ => eq_refl) (fun _ _ => eq_refl) wc) as Pc.
  pose proof (keeps_Push w_images (mg_Ref req)
                (fun _ _ => eq_refl) (fun _ _ => eq_refl) wc) as Pi.
  pose proof (keeps_Push w_faults (mg_Ref req)
                (fun _ _ => eq_refl) (fun _ _ => eq_refl) wc) as Pf.
  destruct (Push (mg_Ref req) wc) as [[[]|e] wp] eqn:Hp; [|discriminate].
  simpl in Pc, Pi, Pf.
  destruct (Push_Ok _ _ _ Hp) as (d & Hd & Hreg).
  unfold bind at 1 in Hi2. unfold invoke, emit in Hi2. munfold_in Hi2. simpl in Hi2.
  destruct (w_faults wp (OpRemoteRestore (mg_To req) (mg_Ref req))); [discriminate|].
  set (wr := set_trace _ wp) in Hi2.
  assert (Hfin : w_containers wi
                 = (if mg_Delete req then delete (mg_ID req) (w_containers w)
                    else w_containers w)
                 /\ w_registry wi = w_registry wp /\ w_images wi = w_images wp
                 /\ w_faults wi = w_faults wp).
  { destruct (mg_Delete req).
    - pose proof (Delete_records (mg_ID req) wr) as HD.
      pose proof (keeps_Delete w_registry (mg_ID req)
                    (fun _ _ => eq_refl) (fun _ _ => eq_refl) wr) as Dr.
      pose proof (keeps_Delete w_images (mg_ID req)
                    (fun _ _ => eq_refl) (fun _ _ => eq_refl) wr) as Di.
      pose proof (keeps_Delete w_faults (mg_ID req)
                    (fun _ _ => eq_refl) (fun _ _ => eq_refl) wr) as Df.
      rewrite Hi2 in HD, Dr, Di, Df. simpl in HD, Dr, Di, Df.
      destruct HD as [_ HD]. rewrite HD. simpl. by rewrite Pc, Kc.
    - injection Hi2 as <-. simpl. by rewrite Pc, Kc. }
  destruct Hfin as (Fc & Fr & Fi & Ff).
  split; [by eexists|]. split; [by eexists|]. split; [done|].
  simpl. unfold ignore_. simpl.
  split; [|split].
  - exists d. split.
    + rewrite (keeps_ImageDelete w_registry (mg_Ref req)
                 (fun _ _ => eq_refl) (fun _ _ => eq_refl) wi).
      by rewrite Fr, Hreg, Kr.
    + rewrite Hi, lookup_insert_eq in Hd. by injection Hd as <-.
  - intros Hdel. rewrite ImageDelete_images.
    rewrite Ff, Pf, Kf, Hdel, Fi, Pi, Hi. by apply delete_insert_id.
  - rewrite (keeps_ImageDelete w_containers (mg_Ref req)
               (fun _ _ => eq_refl) (fun _ _ => eq_refl) wi).
    exact Fc.
Qed.

(** Migrating [web] with and without deleting it here. *)
Lemma Migrate_success_witness :
  let w := migrateWorld targetIsFree in
  w_containers (snd (Migrate (migrateWeb true) w)) = ∅
  /\ w_containers (snd (Migrate (migrateWeb false) w)) = w_containers w
  /\ is_Some (w_registry (snd (Migrate (migrateWeb true) w)) !! "r/ck/web:1")
  /\ w_images (snd (Migrate (migrateWeb true) w)) = w_images w.
Proof.
  intros w.
  destruct (Migrate_success (migrateWeb true) w (snd (Migrate (migrateWeb true) w)))
    as (_ & _ & _ & (d & Hreg & _) & Himg & Hc); [vm_compute; reflexivity|].
  destruct (Migrate_success (migrateWeb false) w (snd (Migrate (migrateWeb false) w)))
    as (_ & _ & _ & _ & _ & Hc'); [vm_compute; reflexivity|].
  split; [rewrite Hc; vm_compute; reflexivity|].
  split; [exact Hc'|].
  split; [rewrite Hreg; simpl; rewrite lookup_insert_eq; by eexists|].
  apply Himg. reflexivity.
Defined.

(** X17.  When the local [Checkpoint] of a migration fails, [Migrate] returns
    its error and makes no further call but closing the channel to the
    target: nothing is pushed, restored or deleted.  The delete of the
    checkpoint image is not yet deferred at that point, so when the
    [Checkpoint] failed only at stopping the unit, the image it created
    stays in the local image store. *)
Theorem Migrate_after_failed_checkpoint
    (req : MigrateRequest) (w w1 : World) (e e0 : error) :
  mg_ID req <> "" ->
  w_faults w (OpRemoteDial (mg_To req)) = None ->
  w_faults w (OpRemoteGet (mg_To req) (mg_ID req)) = Some e0 ->
  Checkpoint {| ck_ID := mg_ID req; ck_Live := mg_Live req; ck_Ref := mg_Ref req;
                ck_Exit := mg_Stop req || mg_Delete req |} w = (Err e, w1) ->
  Migrate req w = (Err e, set_trace (w_trace w1 ++ [EvRemoteClose (mg_To req)]) w1)
  /\ (w_images w1 = w_images w
      \/ (mg_Stop req || mg_Delete req = true
          /\ is_Some (w_images w1 !! mg_Ref req)
          /\ exists e', w_faults w (OpStop (mg_ID req)) = Some e'
                        /\ e = Wrap e' "stop service")).
Proof.
  intros Hid Hdial Hget Hck. split.
  - unfold Migrate. rewrite decide_False by done.
    unfold bind at 1. unfold call at 1. rewrite Hdial.
    unfold defer_ at 1. unfold bind at 1. unfold targetFree at 1. rewrite Hget.
    unfold bind at 1. by rewrite Hck.
  - destruct (Checkpoint_failure _ w w1 e Hck) as [Hsame|(Hexit & _ & [d Hd] & He)];
      [by left|].
    right. simpl in *. split; [done|]. split; [|done].
    rewrite Hd, lookup_insert_eq. by eexists.
Qed.

(** Migrating [web] with delete where the unit cannot be stopped. *)
Lemma Migrate_after_failed_checkpoint_witness :
  match Migrate (migrateWeb true) (migrateWorld targetIsFreeStopFails) with
  | (r, w1) =>
      r = Err (Wrap (ErrExternal "systemd: unit busy") "stop service")
      /\ is_Some (w_images w1 !! "r/ck/web:1")
      /\ EvImageDelete "r/ck/web:1" ∉ w_trace w1
  end.
Proof.
  set (w := migrateWorld targetIsFreeStopFails).
  set (ck := {| ck_ID := "web"; ck_Live := false; ck_Ref := "r/ck/web:1";
                ck_Exit := true |}).
  destruct (Migrate_after_failed_checkpoint (migrateWeb true) w (snd (Checkpoint ck w))
              (Wrap (ErrExternal "systemd: unit busy") "stop service") ErrNotFound)
    as [Hrun _]; try (vm_compute; reflexivity).
  - discriminate.
  - rewrite Hrun. split; [done|]. split.
    + vm_compute. by eexists.
    + vm_compute. intros Hin. apply list_elem_of_In in Hin. simpl in Hin.
      repeat (destruct Hin as [Hin|Hin]; [discriminate Hin|]). exact Hin.
Defined.

(** ** Rolling back a container that is not running *)

(** X18.  [Rollback] of a container that has no task still rolls the record
    back: the body passed to [pauseAndRun] (which pauses nothing when
    there is no task) updates the container first and looks the task up
    afterwards, so the not-found error of that lookup is returned with
    the last config already installed as the current one.  No signal is
    sent, and the lease is released. *)
Theorem Rollback_without_task_rolls_back_then_fails
    (id : string) (w : World) (c0 : containers.Container) :
  id <> "" ->
  w_containers w !! id = Some c0 ->
  containers.ID c0 = id ->
  w_tasks w !! id = None ->
  w_faults w OpLease = None ->
  w_faults w (OpLoadContainer id) = None ->
  w_faults w (OpTask id) = None ->
  w_faults w (OpFluxRollback id) = None ->
  w_faults w (OpContainerUpdate id) = None ->
  exists c1,
    opts.WithRollback c0 w = (Ok c1, w)
    /\ (types.Value (opts.ext c0 opts.LastConfig) <> None ->
        opts.ext c1 opts.CurrentConfig = opts.ext c0 opts.LastConfig)
    /\ Rollback id w
       = (Err ErrNotFound,
          set_trace (w_trace w ++ [EvFluxRollback id; EvLeaseDone])
            (set_containers (<[id := c1]> (w_containers w)) w)).
Proof.
  intros Hid Hc HID Ht HL HLoad HTask HFlux HUpd.
  destruct (WithRollback_result c0 w) as (c1 & Hr & _ & _ & Hcur).
  exists c1. split; [exact Hr|]. split; [exact Hcur|].
  unfold Rollback. destruct (decide (id = "")) as [|_]; [done|].
  unfold client.WithLease, client.LoadContainer, pauseAndRun, client.Task,
    client.Update, client.Kill, client.applyOpts, flux.WithRollback, client.done.
  unfold opts.WithRollback in *.
  destruct (types.Value (opts.ext c0 opts.LastConfig)) eqn:EV;
    injection Hr as <-; mrun; by rewrite <- !app_assoc.
Qed.

(** [web] after an update, stopped. *)
Lemma Rollback_without_task_rolls_back_then_fails_witness :
  let w := nodeWorld {[ "web" := updatedWebRecord ]} ∅ noFaults TaskExited in
  match Rollback "web" w with
  | (r, w1) =>
      r = Err ErrNotFound
      /\ fst (opts.GetConfig "web" w1) = Ok webConfig
      /\ w_trace w1 = [EvFluxRollback "web"; EvLeaseDone]
  end.
Proof.
  intros w.
  destruct (Rollback_without_task_rolls_back_then_fails "web" w updatedWebRecord)
    as (c1 & Hc1 & _ & Hrun); try (vm_compute; reflexivity).
  - discriminate.
  - rewrite Hrun. split; [done|]. split; [|done].
    vm_compute in Hc1. injection Hc1 as <-. vm_compute. reflexivity.
Defined.

(** ** Container info *)

Lemma keeps_of_traceBlind {A B} (f : World -> B) (m : M A) :
  (forall t w, f (set_trace t w) = f w) -> traceBlind m -> keeps f m.
Proof.
  intros Hf Hm w. destruct (Hm w) as [Hs _].
  rewrite <- (Hf [] (snd (m w))), <- (Hf [] w). by rewrite Hs.
Qed.

(** As [ensures_bind], with what the first step returns related to
    what [f] read before it. *)
Lemma ensures_bind_dep {A B C} (f : World -> B) (R : B -> result C -> B -> Prop)
    (Q : B -> A -> Prop) (m : M A) (k : A -> M C) :
  (forall w a w', m w = (Ok a, w') -> Q (f w) a) ->
  keeps f m -> (forall v e, R v (Err e) v) ->
  (forall a, ensures f (fun v r v' => Q v a -> R v r v') (k a)) ->
  ensures f R (bind m k).
Proof.
  intros HQ Hm Herr Hk w. unfold bind. specialize (Hm w). specialize (HQ w).
  destruct (m w) as [[a|e] w1]; simpl in *.
  - specialize (Hk a w1). simpl in Hk. rewrite Hm in Hk. apply Hk. by eapply HQ.
  - rewrite Hm. apply Herr.
Qed.

(** What [info] reports of the task: for a container without a task
    the status "stopped" and no IP; for one with a task the status of
    the task and the IP label of the record. *)
Lemma info_task (id : string) :
  ensures (fun w => (w_containers w !! id, w_tasks w !! id, w_faults w (OpTask id)))
    (fun v (r : result v1.ContainerInfo) _ =>
       match r with
       | Err _ => True
       | Ok i =>
           exists c, v.1.1 = Some c
           /\ (v.1.2 = None -> v1.IP i = "" /\ v1.Status i = "stopped")
           /\ (forall t, v.1.2 = Some t -> v.2 = None ->
                 v1.IP i = label (containers.Labels c) opts.IPLabel
                 /\ v1.Status i = t_status t)
       end)
    (info id).
Proof.
  unfold info.
  apply (ensures_bind_dep _ _ (fun v c => v.1.1 = Some c)).
  { intros w c w' H. unfold client.Info in H. munfold_in H.
    destruct (w_faults w (OpInfo id)); [discriminate|]. simpl in *.
    destruct (w_containers w !! id); [|discriminate]. by injection H as <- _. }
  { unfold client.Info. keeps_tac. }
  { done. }
  intros c.
  apply ensures_bind; [keeps_tac|done|intros cfg].
  apply ensures_bind; [unfold client.Usage; keeps_tac|done|intros usage].
  apply ensures_bind; [keeps_tac|done|intros _].
  apply ensures_bind; [keeps_tac|done|intros sis].
  apply ensures_bind; [by apply keeps_of_traceBlind, tb_walkSnapshots|done|intros ss].
  apply ensures_bind; [by apply keeps_of_traceBlind, tb_bindSizesLoop|done|intros sizes].
  intros w. unfold client.Task. munfold. simpl.
  destruct (w_faults w (OpTask id)) as [e|] eqn:F; simpl.
  - destruct (IsNotFound e); [|done]. simpl. intros Hc. exists c.
    split; [done|]. split; [done|]. intros t _ [=].
  - destruct (w_tasks w !! id) as [t|] eqn:T; simpl.
    + destruct (w_faults w (OpTaskStatus id)); [done|]. simpl.
      destruct (w_faults w (OpMetrics id)); [done|]. simpl.
      intros Hc. exists c. split; [done|]. split; [done|].
      by intros t' [= <-] _.
    + intros Hc. exists c. split; [done|]. split; [done|]. by intros t' [=].
Qed.

(** X19.  The IP that [WithIP] puts on a container record is the IP that
    [info], and so [Get] and [List], report for the container while it
    has a task; for a container without a task [info] reports no IP,
    whatever IP the record carries.  [WithIP] changes the IP label of
    that record and nothing else. *)
Theorem WithIP_then_info (id ip : string) (w w1 w2 : World) (i : v1.ContainerInfo) :
  client.Update id [opts.WithIP ip] w = (Ok tt, w1) ->
  info id w1 = (Ok i, w2) ->
  (exists c, w_containers w !! id = Some c
             /\ w_containers w1
                = <[id := opts.set_Labels (<[opts.IPLabel := ip]> (containers.Labels c)) c]>
                    (w_containers w))
  /\ (w_tasks w !! id = None -> v1.IP i = "")
  /\ (is_Some (w_tasks w !! id) -> w_faults w (OpTask id) = None -> v1.IP i = ip).
Proof.
  intros HU HI.
  unfold client.Update in HU. cbn [client.applyOpts] in HU. unfold opts.WithIP in HU.
  munfold_in HU. simpl in HU.
  destruct (w_containers w !! id) as [c|] eqn:Hc; [|discriminate]. simpl in HU.
  destruct (w_faults w (OpContainerUpdate id)); [discriminate|].
  injection HU as <-.
  split; [by exists c|].
  pose proof (info_task id (set_containers
                (<[id := opts.set_Labels (<[opts.IPLabel := ip]> (containers.Labels c)) c]>
                   (w_containers w)) w)) as H.
  rewrite HI in H. simpl in H. rewrite lookup_insert_eq in H.
  destruct H as (c' & [= <-] & Hnone & Hsome).
  split.
  - intros Ht. by apply Hnone.
  - intros [t Ht] Hf. destruct (Hsome t Ht Hf) as [-> _].
    unfold label. simpl. by rewrite lookup_insert_eq.
Qed.

(** [web] gets an IP while it runs; and while it is stopped. *)
Lemma WithIP_then_info_witness :
  let stopped := nodeWorld {[ "web" := webRecord ]} ∅ noFaults TaskExited in
  let ipOf w :=
    match (let* _ := client.Update "web" [opts.WithIP "10.1.0.7"] in info "web") w with
    | (Ok i, _) => Some (v1.IP i)
    | (Err _, _) => None
    end in
  ipOf webWorld = Some "10.1.0.7" /\ ipOf stopped = Some "".
Proof.
  intros stopped ipOf.
  assert (H : forall w,
             is_ok (fst (client.Update "web" [opts.WithIP "10.1.0.7"] w)) = true ->
             is_ok (fst (info "web" (snd (client.Update "web" [opts.WithIP "10.1.0.7"] w))))
             = true ->
             w_faults w (OpTask "web") = None ->
             ipOf w = Some (match w_tasks w !! "web" with
                            | Some _ => "10.1.0.7"
                            | None => ""
                            end)).
  { intros w H1 H2 Hf. unfold ipOf, bind.
    destruct (client.Update "web" [opts.WithIP "10.1.0.7"] w) as [[[]|e] w1] eqn:HU;
      [|discriminate H1].
    simpl in H2. destruct (info "web" w1) as [[i|e] w2] eqn:HI; [|discriminate H2].
    destruct (WithIP_then_info "web" "10.1.0.7" w w1 w2 i HU HI) as (_ & Hn & Hs).
    f_equal. destruct (w_tasks w !! "web") eqn:T.
    - by apply Hs.
    - by apply Hn. }
  split; rewrite H; vm_compute; reflexivity.
Defined.

Lemma bind_Ok_inv {A B} (m : M A) (k : A -> M B) w b w' :
  bind m k w = (Ok b, w') -> exists a w1, m w = (Ok a, w1) /\ k a w1 = (Ok b, w').
Proof.
  unfold bind. destruct (m w) as [[a|e] w1]; [|discriminate]. by eauto.
Qed.

Lemma snapshotByName_unique (l : list snapshotInfo) (si : snapshotInfo) (w : World) :
  w_snapshots w = l -> NoDup (si_Name <$> l) -> si ∈ l ->
  client.snapshotByName (si_Name si) w = Some si.
Proof.
  intros Hl Hnd Hin. unfold client.snapshotByName. rewrite Hl. clear Hl.
  induction l as [|x l IH]; [by apply elem_of_nil in Hin|].
  simpl in *. apply NoDup_cons in Hnd as [Hx Hnd].
  destruct (decide (si_Name x = si_Name si)) as [E|E]; simpl.
  - apply elem_of_cons in Hin as [->|Hin]; [done|].
    exfalso. apply Hx. rewrite E. apply list_elem_of_fmap. by exists si.
  - apply elem_of_cons in Hin as [->|Hin]; [done|].
    specialize (IH Hnd Hin).
    destruct (list_find _ l) as [[j y]|]; simpl in *; [done|discriminate].
Qed.

Lemma walkSnapshots_Ok (id : string) (sis : list snapshotInfo) :
  forall ss w r w',
    (forall si, si ∈ sis -> client.snapshotByName (si_Name si) w = Some si) ->
    walkSnapshots id sis ss w = (Ok r, w') ->
    w' = w
    /\ r = ss ++ (snapshotEntry <$>
                    filter (fun si => label (si_Labels si) flux.ContainerIDLabel = id) sis).
Proof.
  induction sis as [|si sis IH]; intros ss w r w' Hby H; simpl in H.
  - injection H as <- <-. by rewrite app_nil_r.
  - destruct (decide (label (si_Labels si) flux.ContainerIDLabel ≠ id)) as [Hne|He].
    + rewrite filter_cons_False by done.
      apply (IH ss w r w'); [|done]. intros x Hx. apply Hby. by right.
    + apply dec_stable in He. rewrite filter_cons_True by done.
      apply bind_Ok_inv in H as (usage & w1 & HU & H).
      unfold client.Usage in HU. munfold_in HU.
      destruct (w_faults w (OpUsage (si_Name si))); [discriminate|]. simpl in HU.
      rewrite (Hby si) in HU by (by left). injection HU as <- <-.
      apply IH in H as [-> ->]; [|intros x Hx; apply Hby; by right].
      split; [done|]. by rewrite <- app_assoc.
Qed.

(** X20.  The snapshots that [info] reports for a container are those the
    snapshot service enumerates with the container's id in their
    container-id label, in the order of the enumeration and no others,
    each with its name, creation time, previous-snapshot label and
    usage.  Snapshot names are taken to be unique, as the service keeps
    them. *)
Theorem info_lists_the_snapshots_of_the_container
    (id : string) (w w' : World) (i : v1.ContainerInfo) :
  NoDup (si_Name <$> w_snapshots w) ->
  info id w = (Ok i, w') ->
  v1.Snapshots i
  = snapshotEntry <$>
      filter (fun si => label (si_Labels si) flux.ContainerIDLabel = id) (w_snapshots w).
Proof.
  intros Hnd H. unfold info in H.
  apply bind_Ok_inv in H as (c & w1 & H1 & H).
  assert (w1 = w) as ->.
  { pose proof (ltac:(unfold client.Info; keeps_tac) :
                  keeps (fun v => v) (client.Info id)) as K.
    specialize (K w). by rewrite H1 in K. }
  apply bind_Ok_inv in H as (cfg & w1 & H2 & H).
  assert (w1 = w) as -> by (unfold lift in H2; by injection H2).
  apply bind_Ok_inv in H as (usage & w1 & H3 & H).
  assert (w1 = w) as ->.
  { pose proof (ltac:(unfold client.Usage; keeps_tac) :
                  keeps (fun v => v) (client.Usage (containers.SnapshotKey c))) as K.
    specialize (K w). by rewrite H3 in K. }
  apply bind_Ok_inv in H as ([] & w1 & H4 & H).
  assert (w1 = w) as ->.
  { pose proof (keeps_call (fun v => v) OpWalk w) as K. by rewrite H4 in K. }
  apply bind_Ok_inv in H as (sis & w1 & H5 & H).
  unfold get in H5. injection H5 as <- <-.
  apply bind_Ok_inv in H as (ss & w1 & H6 & H).
  apply walkSnapshots_Ok in H6 as [-> ->].
  2: { intros si Hsi. by apply (snapshotByName_unique (w_snapshots w)). }
  apply bind_Ok_inv in H as (sizes & w1 & H7 & H).
  destruct (client.Task id w1) as [[t|e] w2].
  - apply bind_Ok_inv in H as ([] & w3 & _ & H).
    apply bind_Ok_inv in H as ([] & w4 & _ & H).
    unfold ret in H. by injection H as <- _.
  - destruct (IsNotFound e); [|discriminate]. by injection H as <- _.
Qed.

(** The node of [webWorld] keeps a snapshot for [web] and one for
    [db]. *)
Lemma info_lists_the_snapshots_of_the_container_witness :
  match info "web" webWorld with
  | (Ok i, _) =>
      v1.Snapshots i = [{| v1.snap_ID := "web"; v1.Created := 0; v1.Previous := "";
                           v1.snap_FsSize := 4096 |}]
  | (Err _, _) => False
  end.
Proof.
  assert (Hok : is_ok (fst (info "web" webWorld)) = true) by (vm_compute; reflexivity).
  destruct (info "web" webWorld) as [[i|e] w'] eqn:E; [|discriminate Hok].
  rewrite (info_lists_the_snapshots_of_the_container "web" webWorld w' i); [|..|exact E].
  - vm_compute. reflexivity.
  - apply (bool_decide_unpack _). vm_compute. reflexivity.
Defined.

(** ** Environment entries as a map *)

Lemma substring_0_app (k s : string) : String.substring 0 (String.length k) (k +:+ s) = k.
Proof.
  induction k as [|a k IH]; simpl; [by destruct s|]. by rewrite IH.
Qed.

Lemma substring_all (s : string) : String.substring 0 (String.length s) s = s.
Proof. induction s as [|a s IH]; simpl; [done|]. by rewrite IH. Qed.

Lemma substring_skip (k s : string) (c : ascii) (n : nat) :
  String.substring (S (String.length k)) n (k +:+ String c s) = String.substring 0 n s.
Proof. induction k as [|a k IH]; simpl; [done|]. exact IH. Qed.

Lemma string_length_app (a b : string) :
  String.length (a +:+ b) = (String.length a + String.length b)%nat.
Proof. induction a as [|x a IH]; simpl; [done|]. by rewrite IH. Qed.

(** Where the first [c] of a string is, the string splits around it. *)
Lemma IndexByteString_Some (s : string) (c : ascii) (i : nat) :
  net.IndexByteString s c = Some i ->
  s = net.slice s 0 i +:+ String c (net.from s (S i))
  /\ net.IndexByteString (net.slice s 0 i) c = None.
Proof.
  unfold net.slice, net.from. revert i.
  induction s as [|a s IH]; intros i H; simpl in H; [discriminate|].
  destruct (decide (a = c)) as [->|Hne].
  - injection H as <-. simpl. by rewrite Nat.sub_0_r, substring_all.
  - destruct (net.IndexByteString s c) as [j|] eqn:E; [|discriminate].
    injection H as <-. destruct (IH j eq_refl) as [Hs Hn].
    simpl. rewrite Nat.sub_0_r in *. split.
    + rewrite string_app_cons. by f_equal.
    + by rewrite decide_False, Hn.
Qed.

Lemma IndexByteString_app (k v : string) (c : ascii) :
  net.IndexByteString k c = None ->
  net.IndexByteString (k +:+ String c v) c = Some (String.length k).
Proof.
  induction k as [|a k IH]; simpl; intros H.
  - by rewrite decide_True.
  - destruct (decide (a = c)); [discriminate|].
    destruct (net.IndexByteString k c); [discriminate|].
    by rewrite (IH eq_refl).
Qed.

Lemma SplitN2_entry (k v : string) :
  net.IndexByteString k "=" = None -> opts.SplitN2 (k +:+ "=" +:+ v) = [k; v].
Proof.
  intros H. unfold opts.SplitN2.
  change (k +:+ "=" +:+ v) with (k +:+ String "=" v).
  rewrite (IndexByteString_app k v _ H). unfold net.slice, net.from.
  rewrite Nat.sub_0_r, substring_0_app. f_equal. f_equal.
  rewrite string_length_app. simpl.
  replace (String.length k + S (String.length v) - S (String.length k))%nat
    with (String.length v) by lia.
  by rewrite substring_skip, substring_all.
Qed.

Lemma toStringsLoop_app (ss : list string) (s : string) : forall m0,
  opts.toStringsLoop (ss ++ [s]) m0
  = opts.toStringsLoop ss m0 ≫= opts.toStringsLoop [s].
Proof.
  induction ss as [|x ss IH]; intros m0; simpl; [done|].
  destruct (opts.SplitN2 x !! 0%nat), (opts.SplitN2 x !! 1%nat); done.
Qed.

Lemma toStringsLoop_None (ss : list string) : forall m0,
  opts.toStringsLoop ss m0 = None
  <-> exists s, s ∈ ss /\ net.IndexByteString s "=" = None.
Proof.
  induction ss as [|x ss IH]; intros m0; simpl.
  - split; [done|]. intros (s & Hs & _). by apply elem_of_nil in Hs.
  - unfold opts.SplitN2 at 1 2.
    destruct (net.IndexByteString x "=") as [i|] eqn:E; simpl.
    + rewrite IH. split.
      * intros (s & Hs & Hn). exists s. split; [by right|done].
      * intros (s & [->|Hs]%elem_of_cons & Hn); [congruence|]. by exists s.
    + split; [|done]. intros _. exists x. split; [by left|done].
Qed.

Lemma toStringsLoop_Some (ss : list string) : forall m0 m k v,
  opts.toStringsLoop ss m0 = Some m -> m !! k = Some v ->
  m0 !! k = Some v \/ (k +:+ "=" +:+ v) ∈ ss.
Proof.
  induction ss as [|x ss IH]; intros m0 m k v H Hk; simpl in H.
  - injection H as <-. by left.
  - unfold opts.SplitN2 in H.
    destruct (net.IndexByteString x "=") as [i|] eqn:E; simpl in H; [|discriminate].
    destruct (IH _ m k v H Hk) as [H0|Hin]; [|right; by right].
    destruct (decide (net.slice x 0 i = k)) as [<-|Hne].
    + rewrite lookup_insert_eq in H0. injection H0 as <-.
      right. destruct (IndexByteString_Some x "=" i E) as [Hx _].
      rewrite Hx at 3. by left.
    + rewrite lookup_insert_ne in H0 by done. by left.
Qed.

(** X21.  [toStrings] turns entries of the form key=value into a map.  It
    panics (an index out of range) exactly when an entry holds no "=";
    otherwise every binding of the map comes from an entry of the list,
    split at its first "=", so that a value may itself hold "="; and of
    several entries with the same key the last one wins. *)
Theorem toStrings_splits_at_first_equals (ss : list string) :
  (opts.toStrings ss = None <-> exists s, s ∈ ss /\ net.IndexByteString s "=" = None)
  /\ (forall m k v,
        opts.toStrings ss = Some m -> m !! k = Some v -> (k +:+ "=" +:+ v) ∈ ss)
  /\ (forall m k v,
        net.IndexByteString k "=" = None ->
        opts.toStrings (ss ++ [k +:+ "=" +:+ v]) = Some m -> m !! k = Some v).
Proof.
  unfold opts.toStrings. split; [apply toStringsLoop_None|]. split.
  - intros m k v H Hk.
    destruct (toStringsLoop_Some ss ∅ m k v H Hk) as [H0|Hin]; [|done].
    by rewrite lookup_empty in H0.
  - intros m k v Hk H. rewrite toStringsLoop_app in H.
    destruct (opts.toStringsLoop ss ∅) as [m1|]; [|discriminate]. simpl in H.
    rewrite (SplitN2_entry k v Hk) in H. simpl in H. injection H as <-.
    apply lookup_insert_eq.
Qed.

Lemma toStrings_splits_at_first_equals_witness :
  opts.toStrings ["PATH=/bin"; "DEBUG"] = None
  /\ (forall m, opts.toStrings ["PATH=/bin"; "OPTS=a=b"; "PATH=/usr/bin"] = Some m ->
                m !! "PATH" = Some "/usr/bin").
Proof.
  split.
  - apply (proj1 (toStrings_splits_at_first_equals ["PATH=/bin"; "DEBUG"])).
    exists "DEBUG". split; [|reflexivity]. right. by left.
  - intros m.
    apply (proj2 (proj2 (toStrings_splits_at_first_equals ["PATH=/bin"; "OPTS=a=b"]))
             m "PATH" "/usr/bin").
    reflexivity.
Defined.

(** ** Restore *)

(** X22.  What a [Restore] that succeeds has done.  The checkpoint came from
    the local image store, or from the registry when the local store
    did not have it; its index decoded and named a container-info blob
    and a gzip layer; the config held by that blob is the config of the
    container that now exists: no container had its id before, the
    runtime holds a record under it afterwards, and [UnmarshalConfig]
    on that record's current-config extension gives the checkpointed
    config back.  The layer was applied to the new container's
    snapshot, and a live restore found a task checkpoint in the
    index.  The blob is read with [GetConfigFromInfo], which is not
    among the sources and is taken to decode the blob's current-config
    extension. *)
Theorem Restore_recreates_the_checkpointed_config
    (req : RestoreRequest) (w w1 : World) :
  Restore req w = (Ok tt, w1) ->
  exists image index configDesc c config rw rec,
    (w_images w !! rs_Ref req = Some image \/ w_registry w !! rs_Ref req = Some image)
    /\ w_content w !! ispec.Digest image = Some (BIndex index)
    /\ getByMediaType index MediaTypeContainerInfo = Ok configDesc
    /\ w_content w !! ispec.Digest configDesc = Some (BContainerInfo c)
    /\ opts.GetConfigFromInfo c = Ok config
    /\ getByMediaType index ispec.MediaTypeImageLayerGzip = Ok rw
    /\ w_containers w !! v1.ID config = None
    /\ w_containers w1 = <[v1.ID config := rec]> (w_containers w)
    /\ opts.UnmarshalConfig (opts.ext rec opts.CurrentConfig) = Ok config
    /\ (rs_Live req = true ->
        exists desc, getByMediaType index images.MediaTypeContainerd1Checkpoint = Ok desc)
    /\ EvDiffApply rw (containers.SnapshotKey rec) ∈ w_trace w1.
Proof.
  intros H. unfold Restore in H.
  destruct (decide (rs_Ref req = "")); [discriminate|].
  repeat (progress unfold client.GetImage, Fetch, decodeIndex, client.ReadBlob,
            opts.GetConfigFromInfo, Pull, withPlainRemote, volumeRoot, doLocal, conn_Do,
            client.NewContainer, client.applyOpts, flux.WithNewSnapshot,
            opts.WithBossConfig, opts.WithContainerExtension, opts.WithRestore,
            client.Info, client.Mounts, client.DiffApply, store_Write, client.Delete,
            systemd.Enable, systemd.Start in H).
  munfold_in H.
  destruct (rs_Live req); run_in H; injection H as <-.
  all: repeat match goal with
              | HL : <[_ := _]> _ !! _ = Some _ |- _ =>
                  rewrite lookup_insert_eq in HL; injection HL as <-
              end.
  all: match goal with
       | Hi : w_content ?w0 !! ispec.Digest ?d = Some (BIndex ?i),
         Hc : getByMediaType ?i MediaTypeContainerInfo = Ok ?a,
         Hb : w_content ?w0 !! ispec.Digest ?a = Some (BContainerInfo ?c),
         Hu : opts.UnmarshalConfig (opts.ext ?c opts.CurrentConfig) = Ok ?cfg,
         Hg : getByMediaType ?i ispec.MediaTypeImageLayerGzip = Ok ?rw |- _ =>
           exists d, i, a, c, cfg, rw; eexists;
           split; [first [by left | by right]|];
           do 5 (split; [assumption|])
       end.
  all: split; [assumption|]; split; [reflexivity|].
  all: split; [unfold opts.ext; simpl; by rewrite lookup_insert_eq|].
  all: split; [first [discriminate | intros _; eexists; eassumption]|].
  all: simpl; rewrite !elem_of_app, !elem_of_cons.
  all: left; left; left; right; by left.
Qed.

(** Restoring [web] from the hand-made checkpoint with a gzip layer. *)
Lemma Restore_recreates_the_checkpointed_config_witness :
  let w1 := snd (Restore restoreWeb (gzipCheckpointWorld noFaults)) in
  exists rec,
    w_containers w1 = {[ "web" := rec ]}
    /\ opts.UnmarshalConfig (opts.ext rec opts.CurrentConfig) = Ok webConfig.
Proof.
  intros w1.
  destruct (Restore_recreates_the_checkpointed_config restoreWeb
              (gzipCheckpointWorld noFaults) w1)
    as (image & index & configDesc & c & config & rw & rec & Himg & Hidx & Hdesc & Hc
        & Hconfig & _ & _ & Hrec & Hcfg & _); [vm_compute; reflexivity|].
  destruct Himg as [Himg|Himg]; vm_compute in Himg; [|discriminate Himg].
  injection Himg as <-.
  vm_compute in Hidx. injection Hidx as <-.
  vm_compute in Hdesc. injection Hdesc as <-.
  vm_compute in Hc. injection Hc as <-.
  vm_compute in Hconfig. injection Hconfig as <-.
  exists rec. split; [exact Hrec|exact Hcfg].
Defined.

(** ** A migration that fails *)

(** A [Checkpoint] that is asked to stop the unit and succeeds has
    stopped it. *)
Lemma Checkpoint_stops_the_unit (req : CheckpointRequest) (w w1 : World) :
  ck_Exit req = true ->
  Checkpoint req w = (Ok tt, w1) ->
  exists t, w_trace w1 = w_trace w ++ t /\ EvStop (ck_ID req) ∈ t.
Proof.
  intros Hexit H. unfold Checkpoint in H. rewrite Hexit in H.
  destruct (decide (ck_ID req = "")); [discriminate|].
  repeat (progress unfold client.WithLease, client.LoadContainer, client.Info, json_Marshal,
            writeContent, pauseAndRun, client.Task, CreateDiff, TaskCheckpoint, writeIndex,
            client.ImageCreate, systemd.Stop, client.done, withPlatform in H).
  munfold_in H.
  destruct (ck_Live req); run_in H; injection H as <-; simpl.
  all: eexists; split; [rewrite <- ?app_assoc; reflexivity|]; simpl.
  all: apply list_elem_of_In; simpl; repeat first [left; reflexivity | right].
Qed.

(** X23.  A [Migrate] that fails has not removed the local container, and
    it never starts a unit: when the local [Checkpoint] succeeded for a
    request that stops or deletes the container, the unit has been
    stopped by the time the push, the restore on the target or the
    local delete fails, and it is left stopped. *)
Theorem Migrate_failure_leaves_container_and_stopped_unit
    (req : MigrateRequest) (w w1 : World) (e : error) :
  Migrate req w = (Err e, w1) ->
  w_containers w1 = w_containers w
  /\ exists t,
       w_trace w1 = w_trace w ++ t
       /\ (forall id, EvStart id ∉ t)
       /\ (mg_Stop req || mg_Delete req = true ->
           w_faults w (OpRemoteDial (mg_To req)) = None ->
           is_Some (w_faults w (OpRemoteGet (mg_To req) (mg_ID req))) ->
           is_ok (fst (Checkpoint {| ck_ID := mg_ID req; ck_Live := mg_Live req;
                                     ck_Ref := mg_Ref req;
                                     ck_Exit := mg_Stop req || mg_Delete req |} w)) = true ->
           EvStop (mg_ID req) ∈ t).
Proof.
  intros H.
  set (ck := {| ck_ID := mg_ID req; ck_Live := mg_Live req; ck_Ref := mg_Ref req;
                ck_Exit := mg_Stop req || mg_Delete req |}).
  set (P := fun ev : Event => forall x, ev <> EvStart x).
  set (rest := defer_ (ignore_ (client.ImageDelete (mg_Ref req)))
                 (let* _ := Push (mg_Ref req) in
                  let* _ := invoke (EvRemoteRestore (mg_To req) (mg_Ref req) (mg_Live req))
                              (OpRemoteRestore (mg_To req) (mg_Ref req)) in
                  if mg_Delete req then Delete (mg_ID req) else ret tt)).
  assert (HP : emits P (Migrate req)).
  { unfold Migrate, P.
    repeat (progress unfold Checkpoint, client.WithLease, client.done,
              client.LoadContainer, client.Info, writeIndex, writeContent, CreateDiff,
              TaskCheckpoint, client.ImageCreate, systemd.Stop, json_Marshal, Push,
              client.GetImage, client_Push, client.ImageDelete, Delete, systemd.Disable,
              opts.GetConfig, GetNetwork, register.Deregister, client.Delete).
    destruct (decide (mg_ID req = "")); [apply emits_fail|].
    apply emits_bind; [emits_tac|]. intros _.
    apply emits_defer; [emits_tac|].
    apply emits_bind.
    { intros w0. exists []. rewrite app_nil_r. unfold targetFree.
      by destruct (w_faults w0 (OpRemoteGet (mg_To req) (mg_ID req))). }
    intros _. emits_tac. }
  assert (Hrest : forall wc r wi, rest wc = (r, wi) ->
                    r <> Ok tt -> w_containers wi = w_containers wc).
  { intros wc r wi Hr Hne. unfold rest, defer_ in Hr.
    match type of Hr with
    | (let (_, _) := ?body wc in _) = _ => destruct (body wc) as [r' wb] eqn:Hb
    end.
    injection Hr as -> <-.
    rewrite (keeps_ImageDelete w_containers (mg_Ref req)
               (fun _ _ => eq_refl) (fun _ _ => eq_refl) wb).
    unfold bind at 1 in Hb.
    pose proof (keeps_Push w_containers (mg_Ref req)
                  (fun _ _ => eq_refl) (fun _ _ => eq_refl) wc) as Pc.
    destruct (Push (mg_Ref req) wc) as [[[]|e1] wp]; simpl in Pc;
      [|by injection Hb as _ <-].
    unfold bind at 1 in Hb. unfold invoke, emit in Hb. munfold_in Hb. simpl in Hb.
    destruct (w_faults wp (OpRemoteRestore (mg_To req) (mg_Ref req)));
      [by injection Hb as _ <-|].
    destruct (mg_Delete req); [|by injection Hb as <- _].
    pose proof (Delete_records (mg_ID req)
                  (set_trace (w_trace wp ++ [EvRemoteRestore (mg_To req) (mg_Ref req)
                                               (mg_Live req)]) wp)) as HD.
    rewrite Hb in HD. simpl in HD. destruct r as [[]|e2]; [done|]. by rewrite HD. }
  destruct (HP w) as (t & Ht & HPt). rewrite H in Ht. simpl in Ht.
  assert (Hrun : Migrate req w = (Err e, w1)) by exact H.
  unfold Migrate in H.
  destruct (decide (mg_ID req = "")) as [|Hid].
  { injection H as _ <-. split; [done|]. exists []. rewrite app_nil_r.
    split; [done|]. split; [by intros id Hin; apply elem_of_nil in Hin|].
    intros _ _ _ Hck. exfalso. unfold Checkpoint in Hck. simpl in Hck.
    by rewrite decide_True in Hck. }
  split.
  - unfold bind at 1 in H. unfold call at 1 in H.
    destruct (w_faults w (OpRemoteDial (mg_To req))); [by injection H as _ <-|].
    unfold defer_ at 1 in H.
    match type of H with
    | (let (_, _) := ?body w in _) = _ => destruct (body w) as [r wb] eqn:Hb
    end.
    injection H as -> <-. simpl.
    unfold bind at 1 in Hb. unfold targetFree at 1 in Hb.
    destruct (w_faults w (OpRemoteGet (mg_To req) (mg_ID req)));
      [|by injection Hb as _ <-].
    unfold bind at 1 in Hb. fold ck in Hb.
    pose proof (keeps_Checkpoint w_containers ck
                  (fun _ _ => eq_refl) (fun _ _ => eq_refl) (fun _ _ => eq_refl) w) as Kc.
    destruct (Checkpoint ck w) as [[[]|e1] wc]; simpl in Kc; [|by injection Hb as _ <-].
    fold rest in Hb. rewrite (Hrest wc _ _ Hb); done.
  - exists t. split; [done|]. split.
    { intros id Hin. rewrite Forall_forall in HPt. by apply (HPt _ Hin id). }
    intros Hexit Hdial [e0 Hget] Hck.
    destruct (Checkpoint ck w) as [[[]|e1] wc] eqn:Eck; [|discriminate Hck].
    destruct (Checkpoint_stops_the_unit ck w wc Hexit Eck) as (tc & Htc & Hstop).
    unfold Migrate in Hrun. rewrite decide_False in Hrun by done.
    unfold bind at 1 in Hrun. unfold call at 1 in Hrun. rewrite Hdial in Hrun.
    unfold defer_ at 1 in Hrun. unfold bind at 1 in Hrun.
    unfold targetFree at 1 in Hrun. rewrite Hget in Hrun.
    unfold bind at 1 in Hrun. fold ck in Hrun. rewrite Eck in Hrun. fold rest in Hrun.
    assert (HR : emits P rest).
    { unfold rest, P.
      repeat (progress unfold Push, client.GetImage, client_Push, client.ImageDelete,
                Delete, client.LoadContainer, systemd.Stop, systemd.Disable,
                opts.GetConfig, client.Info, GetNetwork, register.Deregister,
                client.Delete).
      emits_tac. }
    destruct (HR wc) as (tr & Htr & _).
    destruct (rest wc) as [r wi]. injection Hrun as _ <-. simpl in *.
    rewrite Htr, Htc, <- !app_assoc in Ht. apply app_inv_head in Ht. subst t.
    apply elem_of_app. by left.
Qed.

(** Migrating [web] with delete where the restore on the target
    fails. *)
Lemma Migrate_failure_leaves_container_and_stopped_unit_witness :
  let w := migrateWorld remoteRestoreFails in
  let w1 := snd (Migrate (migrateWeb true) w) in
  fst (Migrate (migrateWeb true) w) = Err errMediaTypeNotFound
  /\ w_containers w1 = w_containers w
  /\ EvStop "web" ∈ w_trace w1
  /\ EvStart "web" ∉ w_trace w1.
Proof.
  intros w w1.
  destruct (Migrate_failure_leaves_container_and_stopped_unit (migrateWeb true) w w1
              errMediaTypeNotFound) as (Hc & t & Ht & Hns & Hstop);
    [vm_compute; reflexivity|].
  split; [vm_compute; reflexivity|]. split; [exact Hc|].
  rewrite Ht. simpl. split.
  - apply Hstop; try (vm_compute; reflexivity). by eexists.
  - apply Hns.
Defined.

(** ** Update, then rollback *)

(** A run that succeeded is taken apart step by step; the steps that
    leave the world alone but for the trace are passed over with the
    frame lemmas. *)
Lemma keeps_sameState {A} (m : M A) w r w' :
  keeps (set_trace []) m -> m w = (r, w') -> sameState w' w.
Proof. intros Hk H. specialize (Hk w). by rewrite H in Hk. Qed.

Lemma defer_inv {A} (d : M unit) (body : M A) w r w' :
  defer_ d body w = (r, w') -> exists wb, body w = (r, wb) /\ w' = snd (d wb).
Proof.
  unfold defer_. destruct (body w) as [r0 wb]. intros [= <- <-]. by exists wb.
Qed.

Lemma forM_app_Ok_inv {A} (l1 l2 : list A) (g : A -> M unit) : forall w w',
  forM_ (l1 ++ l2) g w = (Ok tt, w') ->
  exists wm, forM_ l1 g w = (Ok tt, wm) /\ forM_ l2 g wm = (Ok tt, w').
Proof.
  induction l1 as [|x l1 IH]; intros w w' H; simpl in *; [by exists w|].
  apply bind_Ok_inv in H as ([] & w2 & Hx & H).
  destruct (IH _ _ H) as (wm & H1 & H2).
  exists wm. split; [|exact H2]. unfold bind. by rewrite Hx.
Qed.

Lemma keeps_forM_Forall {A B} (f : World -> B) (l : list A) (g : A -> M unit) :
  Forall (fun a => keeps f (g a)) l -> keeps f (forM_ l g).
Proof.
  induction 1 as [|x l Hx _ IH]; simpl; [by intros w|].
  intros w. unfold bind. specialize (Hx w).
  destruct (g x w) as [[[]|e] w2]; simpl in *; [|done]. by rewrite IH.
Qed.

Lemma pauseAndRun_Ok_inv {A} id (fn : M A) w a w' :
  pauseAndRun id fn w = (Ok a, w') ->
  exists wi wo, sameState wi w /\ fn wi = (Ok a, wo) /\ sameState w' wo.
Proof.
  unfold pauseAndRun. intros H.
  pose proof (keeps_Task (set_trace []) id w) as Ht.
  destruct (client.Task id w) as [[t|e] wt]; simpl in Ht.
  - apply bind_Ok_inv in H as ([] & wp & Hp & H).
    apply bind_Ok_inv in H as (a' & wo & Hfn & H).
    apply bind_Ok_inv in H as ([] & wr & Hr & H).
    injection H as <- <-.
    exists wp, wo. split; [|split; [exact Hfn|]].
    + pose proof (keeps_sameState _ _ _ _
                    (keeps_invoke (set_trace []) (fun _ _ => eq_refl) _ _) Hp) as Hp'.
      unfold sameState in *. congruence.
    + apply (keeps_sameState (ignore_ (invoke (EvResume id) (OpResume id))) wo (Ok tt));
        [|exact Hr].
      apply keeps_ignore, keeps_invoke. done.
  - destruct (IsNotFound e); [|discriminate].
    exists wt, w'. by split; [|split].
Qed.

(** What a successful [Update] leaves of the container records: the
    record of the container holds the new config as the current one
    and the config that was current as the last one, and the other
    records are as they were; so are the tasks. *)
Lemma Update_Ok_record (container : v1.Container) (w w1 : World) :
  Update container w = (Ok tt, w1) ->
  exists c0 current c1,
    w_containers w !! v1.ID container = Some c0
    /\ opts.UnmarshalConfig (opts.ext c0 opts.CurrentConfig) = Ok current
    /\ w_containers w1 = <[v1.ID container := c1]> (w_containers w)
    /\ w_tasks w1 = w_tasks w
    /\ w_faults w1 = w_faults w
    /\ containers.ID c1 = containers.ID c0
    /\ opts.ext c1 opts.CurrentConfig = opts.marshal container
    /\ opts.ext c1 opts.LastConfig = opts.ext c0 opts.CurrentConfig.
Proof.
  intros H. unfold Update in H.
  apply bind_Ok_inv in H as ([] & wL & HL & H).
  apply (keeps_sameState _ _ _ _ (keeps_call (set_trace []) _)) in HL.
  apply defer_inv in H as (wb & H & ->).
  apply bind_Ok_inv in H as ([id task] & wa & Ha & Hwait).
  assert (Hwb : sameState wb wa).
  { apply (keeps_sameState (updateWait id task) wa (Ok tt)); [|exact Hwait].
    unfold updateWait, client.Kill. keeps_tac. }
  unfold updateApply in Ha.
  apply bind_Ok_inv in Ha as (id' & w2 & Hload & Ha).
  pose proof (LoadContainer_id _ _ _ _ Hload) as ->.
  assert (Hc : exists c0, w_containers wL !! v1.ID container = Some c0).
  { unfold client.LoadContainer in Hload. munfold_in Hload.
    destruct (w_faults wL (OpLoadContainer (v1.ID container))); [discriminate|].
    simpl in Hload. destruct (w_containers wL !! v1.ID container) as [c0|]; [|discriminate].
    by exists c0. }
  destruct Hc as [c0 Hc].
  assert (H2 : sameState w2 wL).
  { eapply keeps_sameState; [|exact Hload].
    unfold client.LoadContainer. keeps_tac. }
  apply bind_Ok_inv in Ha as (current & w3 & Hget & Ha).
  assert (H3 : sameState w3 w2).
  { apply (keeps_sameState (opts.GetConfig (v1.ID container)) w2 (Ok current)); [|exact Hget].
    unfold opts.GetConfig, client.Info. keeps_tac. }
  assert (Hcur : opts.UnmarshalConfig (opts.ext c0 opts.CurrentConfig) = Ok current).
  { unfold opts.GetConfig, client.Info in Hget. munfold_in Hget.
    destruct (w_faults w2 (OpInfo (v1.ID container))); [discriminate|]. simpl in Hget.
    rewrite (sameState_proj w_containers w2 wL (fun _ _ => eq_refl) H2), Hc in Hget.
    simpl in Hget.
    destruct (opts.UnmarshalConfig (opts.ext c0 opts.CurrentConfig)); [|discriminate].
    by injection Hget as ->. }
  apply bind_Ok_inv in Ha as ([] & w4 & Hm & Ha).
  assert (H4 : sameState w4 w3).
  { eapply keeps_sameState; [|exact Hm].
    unfold register.EnableMaintainance. keeps_tac. }
  apply bind_Ok_inv in Ha as (vr & w5 & Hvr & Ha).
  assert (H5 : sameState w5 w4).
  { eapply keeps_sameState; [|exact Hvr]. keeps_tac. }
  apply bind_Ok_inv in Ha as (task' & w6 & Htask & Ha).
  assert (H6 : sameState w6 w5).
  { eapply keeps_sameState; [|exact Htask]. keeps_tac. }
  apply bind_Ok_inv in Ha as ([] & w7 & Hw & Ha).
  assert (H7 : sameState w7 w6).
  { eapply keeps_sameState; [|exact Hw]. keeps_tac. }
  apply bind_Ok_inv in Ha as ([] & w8 & Hp & Ha).
  injection Ha as <- <- <-.
  apply pauseAndRun_Ok_inv in Hp as (wi & wo & Hi & Hfn & Ho).
  apply bind_Ok_inv in Hfn as ([] & wj & Hch & Hkill).
  assert (Hwo : sameState wo wj).
  { eapply keeps_sameState; [|exact Hkill]. unfold client.Kill. keeps_tac. }
  apply forM_app_Ok_inv in Hch as (wm & Hd & Hch).
  assert (Hwm : sameState wm wi).
  { eapply keeps_sameState; [|exact Hd].
    apply keeps_forM_Forall, Forall_fmap, Forall_forall. intros name _. simpl.
    unfold register.Deregister. keeps_tac. }
  simpl in Hch.
  apply bind_Ok_inv in Hch as ([] & wp & Hpull & Hch).
  assert (Hwp : sameState wp wm).
  { eapply keeps_sameState; [|exact Hpull]. unfold Pull. keeps_tac. }
  apply bind_Ok_inv in Hch as ([] & wq & Hcfg & Hch).
  apply bind_Ok_inv in Hch as ([] & wf & Hfiles & Hch).
  injection Hch as <-.
  assert (Hwf : sameState wf wq).
  { eapply keeps_sameState; [|exact Hfiles]. unfold store_Write. keeps_tac. }
  assert (Hpre : sameState wp w).
  { unfold sameState in *. congruence. }
  assert (Hpost : sameState (snd (client.done wb)) wq).
  { assert (Hdone : sameState (snd (client.done wb)) wb).
    { apply (keeps_sameState client.done wb (fst (client.done wb))).
      - unfold client.done. keeps_tac.
      - by destruct (client.done wb). }
    unfold sameState in *. congruence. }
  rewrite (sameState_proj w_containers wL w (fun _ _ => eq_refl) HL) in Hc.
  destruct (configChange_run (v1.ID container) container vr wp wq c0)
    as (c1 & Hcs & Hts & Hfs & HID & Hcur1 & Hlast1).
  { by rewrite (sameState_proj w_containers wp w (fun _ _ => eq_refl) Hpre). }
  { exact Hcfg. }
  exists c0, current, c1. split; [exact Hc|]. split; [exact Hcur|].
  rewrite (sameState_proj w_containers _ wq (fun _ _ => eq_refl) Hpost),
    (sameState_proj w_tasks _ wq (fun _ _ => eq_refl) Hpost),
    (sameState_proj w_faults _ wq (fun _ _ => eq_refl) Hpost).
  rewrite Hcs, Hts, Hfs.
  rewrite (sameState_proj w_containers wp w (fun _ _ => eq_refl) Hpre),
    (sameState_proj w_tasks wp w (fun _ _ => eq_refl) Hpre),
    (sameState_proj w_faults wp w (fun _ _ => eq_refl) Hpre).
  by repeat split.
Qed.

(** C2 (amended).  [Rollback], under pause, installs the last config as
    the current one and leaves the last config as it is: it does not
    write the old current config anywhere.  Without a last config the
    extensions are unchanged.  [Update] keeps the config that was
    current as the last one, so that after an [Update] that succeeded,
    [Rollback] brings the pre-update config back as the current one:
    the current-config extension of the record is the one it held
    before the update, and decodes to the config the container ran
    with. *)
Theorem Rollback_installs_last_config
    (id : string) (w : World) (c0 : containers.Container) (t : task) :
  id <> "" ->
  w_containers w !! id = Some c0 ->
  containers.ID c0 = id ->
  w_tasks w !! id = Some t ->
  w_faults w OpLease = None ->
  w_faults w (OpLoadContainer id) = None ->
  w_faults w (OpTask id) = None ->
  w_faults w (OpPause id) = None ->
  w_faults w (OpFluxRollback id) = None ->
  w_faults w (OpContainerUpdate id) = None ->
  w_faults w (OpKill id SIGTERM) = None ->
  (exists c1 w',
      Rollback id w = (Ok tt, w')
      /\ w_containers w' = <[id := c1]> (w_containers w)
      /\ w_trace w' = w_trace w ++ [EvPause id; EvFluxRollback id; EvKill id SIGTERM;
                                    EvResume id; EvLeaseDone]
      /\ opts.ext c1 opts.LastConfig = opts.ext c0 opts.LastConfig
      /\ (types.Value (opts.ext c0 opts.LastConfig) = None -> c1 = c0)
      /\ (types.Value (opts.ext c0 opts.LastConfig) <> None ->
          opts.ext c1 opts.CurrentConfig = opts.ext c0 opts.LastConfig))
  /\ (forall new w1,
        v1.ID new = id ->
        Update new w = (Ok tt, w1) ->
        exists cu c2 w2 old,
          w_containers w1 !! id = Some cu
          /\ opts.ext cu opts.CurrentConfig = opts.marshal new
          /\ Rollback id w1 = (Ok tt, w2)
          /\ w_containers w2 !! id = Some c2
          /\ opts.ext c2 opts.CurrentConfig = opts.ext c0 opts.CurrentConfig
          /\ opts.ext c2 opts.LastConfig = opts.ext c0 opts.CurrentConfig
          /\ opts.UnmarshalConfig (opts.ext c0 opts.CurrentConfig) = Ok old
          /\ opts.UnmarshalConfig (opts.ext c2 opts.CurrentConfig) = Ok old).
Proof.
  intros Hid Hc HID Ht HL HLoad HTask HPause HFlux HUpd HKill. split.
  - destruct (Rollback_run id w c0 t) as (c1 & w' & H1 & H2 & H3 & H4); try done.
    destruct (WithRollback_result c0 w) as (c1' & Hr & Hlast & Hnone & Hsome).
    rewrite Hr in H1. injection H1 as <-.
    exists c1', w'. by repeat split.
  - intros new w1 Hnew Hrun.
    destruct (Update_Ok_record new w w1 Hrun)
      as (c0' & old & cu & Hc' & Hold & Hcs & Hts & Hfs & HID1 & Hcur & Hlast).
    rewrite Hnew in Hc', Hcs. rewrite Hc in Hc'. injection Hc' as <-.
    destruct (Rollback_run id w1 cu t) as (c2 & w2 & H1 & H2 & H3 & _);
      try (by rewrite Hfs); try done.
    { by rewrite Hcs, lookup_insert_eq. }
    { by rewrite HID1. }
    { by rewrite Hts. }
    destruct (WithRollback_result cu w1) as (c2' & Hr & Hlast' & _ & Hsome).
    rewrite Hr in H1. injection H1 as <-.
    assert (Hval : types.Value (opts.ext cu opts.LastConfig) <> None).
    { rewrite Hlast. unfold opts.UnmarshalConfig in Hold.
      by destruct (types.Value (opts.ext c0 opts.CurrentConfig)). }
    exists cu, c2', w2, old.
    split; [by rewrite Hcs, lookup_insert_eq|]. split; [exact Hcur|].
    split; [exact H2|]. split; [by rewrite H3, lookup_insert_eq|].
    rewrite (Hsome Hval), Hlast', Hlast. by repeat split.
Qed.

(** Rollback of [web]: after an update from image 1 to image 2 has
    been recorded, and right after an [Update] to image 2. *)
Lemma Rollback_installs_last_config_witness :
  (exists c1 w',
      Rollback "web" updatedWebWorld = (Ok tt, w')
      /\ w_containers w' !! "web" = Some c1
      /\ opts.ext c1 opts.CurrentConfig = opts.marshal webConfig
      /\ opts.ext c1 opts.LastConfig = opts.marshal webConfig)
  /\ (exists cu c2 w2,
        w_containers (snd (Update webConfig2 webWorld)) !! "web" = Some cu
        /\ opts.ext cu opts.CurrentConfig = opts.marshal webConfig2
        /\ Rollback "web" (snd (Update webConfig2 webWorld)) = (Ok tt, w2)
        /\ w_containers w2 !! "web" = Some c2
        /\ opts.UnmarshalConfig (opts.ext c2 opts.CurrentConfig) = Ok webConfig).
Proof.
  split.
  - destruct (Rollback_installs_last_config "web" updatedWebWorld updatedWebRecord
                runningTask)
      as [(c1 & w' & Hrun & Hcs & _ & Hlast & _ & Hcur) _]; try reflexivity; try done.
    exists c1, w'. split; [exact Hrun|]. split; [by rewrite Hcs, lookup_insert_eq|].
    split; [by rewrite Hcur|by rewrite Hlast].
  - destruct (Rollback_installs_last_config "web" webWorld webRecord runningTask)
      as [_ H]; try reflexivity; try done.
    destruct (H webConfig2 (snd (Update webConfig2 webWorld)))
      as (cu & c2 & w2 & old & Hcu & Hnew & Hrun & Hcs & Hcur & _ & Hold & Hold2);
      [done|by vm_compute|].
    exists cu, c2, w2. split; [exact Hcu|]. split; [exact Hnew|].
    split; [exact Hrun|]. split; [exact Hcs|].
    rewrite Hold2, <- Hold. reflexivity.
Defined.
